(** * Mesh sub-element editing engine: store actions and edge derivation

    A shallow embedding of [src/store/sceneStore.ts] (the Zustand scene
    store) and of the edge derivation in [src/components/Scene.tsx]
    ([EdgeLines]), together with the properties of the drag sessions, the
    coincidence grouping, the resolution change and the object list.

    Modelling conventions.
    - JavaScript numbers that hold coordinates are IEEE 754 double
      precision values ([JS.number]): NaN, the infinities, the signed zeros
      and the rounding of every operation are in the model.  A position
      buffer is a [Float32Array]: a write rounds to single precision
      ([JS.fround]).  The parameters of the parametric primitives, which the
      store only copies (and halves, for the sphere), are exact rationals.
    - THREE objects are mutable and shared by reference.  The world keeps
      two heaps: scene-graph nodes ([objs]) and geometries ([geoms]); the
      store holds references into them, so that [===] on objects is
      equality of references and a buffer write is visible through every
      alias.
    - Zustand's [set(fn)] merges the partial state returned by [fn] into the
      store; [return state] leaves the store as it is.
    - A [TypeError] raised inside an action is the [Thrown] outcome.  *)

From Stdlib Require Import ZArith QArith Reals Qreals Lra.
From Stdlib Require Import SpecFloat.
From Stdlib Require Import Ascii String DecimalString DecimalNat.
From Stdlib Require Import Sorting.Sorted.
From stdpp Require Import base option list gmap strings.

Local Open Scope nat_scope.

(** ** JavaScript numbers *)

Module JS.

(** A number: a binary64 value of IEEE 754, with one NaN.  The finite
    values are [(-1)^s * m * 2^e]; the operations below return them with
    the mantissa [m] normalised to 53 bits (less for the subnormal
    ones). *)
Definition number : Type := spec_float.

Definition prec : Z := 53.
Definition emax : Z := 1024.

(** [a + b], [a - b], [a * b], [a / b] and [Math.sqrt(a)], each rounded to
    the nearest double, ties to even. *)
Definition add (a b : number) : number := SFadd prec emax a b.
Definition sub (a b : number) : number := SFsub prec emax a b.
Definition mul (a b : number) : number := SFmul prec emax a b.
Definition div (a b : number) : number := SFdiv prec emax a b.
Definition sqrt (a : number) : number := SFsqrt prec emax a.

(** [a < b]: false when either side is NaN. *)
Definition lt (a b : number) : bool := SFltb a b.

(** The double nearest to an integer, and the double a decimal literal
    [m * 10^-k] denotes (the nearest one), for [|m|] and [10^k] below
    [2^53]. *)
Definition ofZ (n : Z) : number := binary_normalize prec emax n 0 false.

Definition decimal (m : Z) (k : nat) : number := div (ofZ m) (ofZ (10 ^ Z.of_nat k)).

(** The double nearest to [m * 2^e]. *)
Definition scaled (m e : Z) : number := binary_normalize prec emax m e false.

(** The conversion of a store into a [Float32Array] (round to the nearest
    binary32 value, ties to even, overflow to an infinity) and of a read
    from it (exact). *)
Definition toFloat32 (a : number) : spec_float :=
  match a with
  | S754_finite s m e => binary_round 24 128 s m e
  | _ => a
  end.

Definition ofFloat32 (a : spec_float) : number :=
  match a with
  | S754_finite s m e => binary_round prec emax s m e
  | _ => a
  end.

(** [Math.fround(a)]: what a [Float32Array] element reads back after [a]
    was stored in it. *)
Definition fround (a : number) : number := ofFloat32 (toFloat32 a).

(** [Number.isFinite(a)]. *)
Definition isFinite (a : number) : bool :=
  match a with
  | S754_zero _ | S754_finite _ _ _ => true
  | _ => false
  end.

(** [a || 0]: NaN and both zeros are falsy. *)
Definition orZero (a : number) : number :=
  match a with
  | S754_nan | S754_zero _ => S754_zero false
  | _ => a
  end.

(** The SameValueZero comparison: NaN is the same as NaN, and [+0] the
    same as [-0]. *)
Definition sameValueZero (a b : number) : Prop :=
  match a, b with
  | S754_zero _, S754_zero _ => True
  | _, _ => a = b
  end.

(** Two numbers that are equal or opposite. *)
Definition negated (a b : number) : Prop := a = b ∨ a = SFopp b.

(** The rational a finite number stands for (0 for the others). *)
Definition toQ (a : number) : Q :=
  match a with
  | S754_finite s m e =>
      let magnitude :=
        match e with
        | Zneg k => Z.pos m # 2 ^ k
        | _ => inject_Z (Z.pos m * 2 ^ e)
        end in
      if s then Qopp magnitude else magnitude
  | _ => 0%Q
  end.

End JS.

(** ** The parts of three.js the store touches *)

Module THREE.

Record Vector3 := mkVector3 { x : JS.number; y : JS.number; z : JS.number }.

(** [new THREE.Vector3()] : the constructor's defaults. *)
Definition origin : Vector3 := mkVector3 (JS.ofZ 0) (JS.ofZ 0) (JS.ofZ 0).

(** [v.clone()] : a fresh vector with the same components. *)
Definition clone (v : Vector3) : Vector3 := mkVector3 (x v) (y v) (z v).

(** [a.sub(b)] and [a.add(b)], componentwise. *)
Definition sub (a b : Vector3) : Vector3 :=
  mkVector3 (JS.sub (x a) (x b)) (JS.sub (y a) (y b)) (JS.sub (z a) (z b)).

Definition add (a b : Vector3) : Vector3 :=
  mkVector3 (JS.add (x a) (x b)) (JS.add (y a) (y b)) (JS.add (z a) (z b)).

(** [a.distanceToSquared(b)]: [dx * dx + dy * dy + dz * dz]. *)
Definition distanceToSquared (a b : Vector3) : JS.number :=
  let dx := JS.sub (x a) (x b) in
  let dy := JS.sub (y a) (y b) in
  let dz := JS.sub (z a) (z b) in
  JS.add (JS.add (JS.mul dx dx) (JS.mul dy dy)) (JS.mul dz dz).

(** [a.distanceTo(b)]: [Math.sqrt(a.distanceToSquared(b))]. *)
Definition distanceTo (a b : Vector3) : JS.number :=
  JS.sqrt (distanceToSquared a b).

(** The test [a.distanceTo(b) < eps]. *)
Definition distanceTo_lt (a b : Vector3) (eps : JS.number) : bool :=
  JS.lt (distanceTo a b) eps.

(** Finite coordinates. *)
Definition isFinite (a : Vector3) : bool :=
  JS.isFinite (x a) && JS.isFinite (y a) && JS.isFinite (z a).

(** The same point, coordinate by coordinate, up to the sign of a zero. *)
Definition veq (a b : Vector3) : Prop :=
  JS.sameValueZero (x a) (x b)
  ∧ JS.sameValueZero (y a) (y b)
  ∧ JS.sameValueZero (z a) (z b).

(** The point three elements of a [Float32Array] hold after the
    coordinates of [v] were stored in them. *)
Definition float32 (v : Vector3) : Vector3 :=
  mkVector3 (JS.fround (x v)) (JS.fround (y v)) (JS.fround (z v)).

(** The distance of two points with finite coordinates, squared, as the
    real (here rational) number it is, without any rounding: the distance
    a tolerance rule stated over the reals speaks of. *)
Definition exactDistanceSquared (a b : Vector3) : Q :=
  let dx := (JS.toQ (x a) - JS.toQ (x b))%Q in
  let dy := (JS.toQ (y a) - JS.toQ (y b))%Q in
  let dz := (JS.toQ (z a) - JS.toQ (z b))%Q in
  (dx * dx + dy * dy + dz * dz)%Q.

(** The Euclidean distance of two points with finite coordinates. *)
Definition euclideanDistance (a b : Vector3) : R :=
  sqrt (Q2R (exactDistanceSquared a b)).

(** A [BufferAttribute] of item size 3 over a [Float32Array]: one point
    per vertex index.  [version] is what the setter [needsUpdate = true]
    increments. *)
Record BufferAttribute := mkAttribute {
  array : list Vector3;
  version : nat
}.

Definition count (a : BufferAttribute) : nat := length (array a).

(** [new THREE.Vector3(a.getX(i), a.getY(i), a.getZ(i))].  Reading past the
    end of the typed array gives [undefined], for which the constructor
    takes its default 0. *)
Definition getXYZ (a : BufferAttribute) (i : nat) : Vector3 :=
  default origin (array a !! i).

(** [a.setXYZ(i, v.x, v.y, v.z)]: each coordinate is stored in the
    [Float32Array] and so rounded to single precision.  A write past the
    end of a typed array is ignored. *)
Definition setXYZ (a : BufferAttribute) (i : nat) (v : Vector3) : BufferAttribute :=
  mkAttribute
    (<[i := mkVector3 (JS.fround (x v)) (JS.fround (y v)) (JS.fround (z v))]> (array a))
    (version a).

(** [a.needsUpdate = true]. *)
Definition markNeedsUpdate (a : BufferAttribute) : BufferAttribute :=
  mkAttribute (array a) (S (version a)).

(** [geometry.parameters] of the parametric primitives. *)
Record CylinderParameters := mkCylinderParameters {
  radiusTop : Q;
  radiusBottom : Q;
  height : Q;
  radialSegments : Q;
  heightSegments : Q;
  openEnded : bool;
  thetaStart : Q;
  thetaLength : Q
}.

Record ConeParameters := mkConeParameters {
  cone_radius : Q;
  cone_height : Q;
  cone_radialSegments : Q;
  cone_heightSegments : Q;
  cone_openEnded : bool;
  cone_thetaStart : Q;
  cone_thetaLength : Q
}.

Record SphereParameters := mkSphereParameters {
  radius : Q;
  widthSegments : Q;
  sphere_heightSegments : Q;
  phiStart : Q;
  phiLength : Q;
  sphere_thetaStart : Q;
  sphere_thetaLength : Q
}.

(** The geometry classes of the editor.  [ConeGeometry] extends
    [CylinderGeometry] in three.js. *)
Inductive GeometryClass :=
| PlainBufferGeometry
| BoxGeometry
| CylinderGeometry (p : CylinderParameters)
| ConeGeometry (p : ConeParameters)
| SphereGeometry (p : SphereParameters).

(** [g instanceof THREE.CylinderGeometry]. *)
Definition instanceofCylinderGeometry (c : GeometryClass) : bool :=
  match c with
  | CylinderGeometry _ | ConeGeometry _ => true
  | _ => false
  end.

(** [g instanceof THREE.SphereGeometry]. *)
Definition instanceofSphereGeometry (c : GeometryClass) : bool :=
  match c with
  | SphereGeometry _ => true
  | _ => false
  end.

(** A [BufferGeometry] that has a position attribute, as every geometry
    three.js builds has: its class, [attributes.position], the optional
    triangle [index], and whether [dispose()] was called on it. *)
Record BufferGeometry := mkGeometry {
  class : GeometryClass;
  position : BufferAttribute;
  index : option (list nat);
  disposed : bool
}.

Definition withPosition (g : BufferGeometry) (a : BufferAttribute) : BufferGeometry :=
  mkGeometry (class g) a (index g) (disposed g).

Definition dispose (g : BufferGeometry) : BufferGeometry :=
  mkGeometry (class g) (position g) (index g) true.

(** Scene-graph nodes: a [Mesh] owns a reference to its geometry; every
    other node ([Group], [Light], ...) has none. *)
Inductive Object3D :=
| Mesh (geometry : nat)
| OtherObject3D.

End THREE.

Import THREE.

(** ** The scene store ([sceneStore.ts]) *)

Inductive EditMode := VertexMode | EdgeMode | FaceMode | NormalMode.
Inductive TransformMode := Translate | Rotate | Scale.

Module SceneObject.
Record t := mk {
  id : string;
  object : nat;
  name : string;
  visible : bool
}.
End SceneObject.

Module SelectedElements.
Record t := mk {
  vertices : list nat;
  edges : list nat;
  faces : list nat
}.
End SelectedElements.

Module DraggedVertex.
Record t := mk {
  indices : list nat;
  position : Vector3;
  initialPosition : Vector3
}.
End DraggedVertex.

Module DraggedEdge.
Record t := mk {
  indices : list (nat * nat);
  positions : list Vector3;
  initialPositions : list Vector3;
  edgeIndices : list nat
}.
End DraggedEdge.

(** The data fields of [SceneState]. *)
Record SceneState := mkSceneState {
  objects : list SceneObject.t;
  selectedObject : option nat;
  transformMode : option TransformMode;
  editMode : option EditMode;
  selectedElements : SelectedElements.t;
  draggedVertex : option DraggedVertex.t;
  draggedEdge : option DraggedEdge.t
}.

(** The store together with the THREE objects it refers to. *)
Record World := mkWorld {
  store : SceneState;
  objs : gmap nat Object3D;
  geoms : gmap nat BufferGeometry
}.

(** What an action leaves behind: it returned, or a [TypeError] escaped
    from it (the world is then as the action left it at the throw). *)
Inductive outcome :=
| Returned (w : World)
| Thrown (w : World).

(** The store as created: [create<SceneState>((set, get) => ({ ... }))]. *)
Definition initialState : SceneState :=
  mkSceneState [] None None None (SelectedElements.mk [] [] []) None None.

(** Partial states merged by [set]. *)
Definition setObjectsAndSelected (s : SceneState) (os : list SceneObject.t)
    (sel : option nat) : SceneState :=
  mkSceneState os sel (transformMode s) (editMode s) (selectedElements s)
    (draggedVertex s) (draggedEdge s).

Definition setSelected (s : SceneState) (sel : option nat) : SceneState :=
  mkSceneState (objects s) sel (transformMode s) (editMode s) (selectedElements s)
    (draggedVertex s) (draggedEdge s).

Definition setSelectedElementsField (s : SceneState) (e : SelectedElements.t) : SceneState :=
  mkSceneState (objects s) (selectedObject s) (transformMode s) (editMode s) e
    (draggedVertex s) (draggedEdge s).

Definition setDraggedVertex (s : SceneState) (d : option DraggedVertex.t) : SceneState :=
  mkSceneState (objects s) (selectedObject s) (transformMode s) (editMode s)
    (selectedElements s) d (draggedEdge s).

Definition setDraggedEdge (s : SceneState) (d : option DraggedEdge.t) : SceneState :=
  mkSceneState (objects s) (selectedObject s) (transformMode s) (editMode s)
    (selectedElements s) (draggedVertex s) d.

Definition withStore (w : World) (s : SceneState) : World :=
  mkWorld s (objs w) (geoms w).

(** [state.selectedObject instanceof THREE.Mesh], giving the reference of
    [state.selectedObject.geometry] and the geometry it points to. *)
Definition selectedMesh (w : World) : option (nat * BufferGeometry) :=
  match selectedObject (store w) with
  | Some o =>
      match objs w !! o with
      | Some (Mesh g) =>
          match geoms w !! g with
          | Some geometry => Some (g, geometry)
          | None => None
          end
      | _ => None
      end
  | None => None
  end.

(** The tolerance of both coincidence tests: the literal [0.0001], that
    is the double nearest to 1/10000. *)
Definition epsilon : JS.number := JS.decimal 1 4.

(** The guard of the resolution actions: the selected object is a mesh
    whose geometry passes the [instanceof] test. *)
Definition selectedGeometryIs (test : GeometryClass → bool) (w : World) : bool :=
  match selectedMesh w with
  | Some (_, geometry) => test (class geometry)
  | None => false
  end.

(** [removeObject(id)].  [find(...)?.object === state.selectedObject] holds
    only when an entry was found and its object is the selected one:
    [undefined] is never [===] to [null] or to an object. *)
Definition removeObject (id : string) (w : World) : World :=
  let state := store w in
  let found := List.find (fun obj => String.eqb (SceneObject.id obj) id) (objects state) in
  withStore w
    (setObjectsAndSelected state
       (List.filter (fun obj => negb (String.eqb (SceneObject.id obj) id)) (objects state))
       (match found, selectedObject state with
        | Some obj, Some sel =>
            if Nat.eqb (SceneObject.object obj) sel then None else Some sel
        | _, sel => sel
        end)).

(** [setSelectedObject(object)]. *)
Definition setSelectedObject (object : option nat) (w : World) : World :=
  withStore w (setSelected (store w) object).

(** [endVertexDrag()] and [endEdgeDrag()]. *)
Definition endVertexDrag (w : World) : World :=
  withStore w (setDraggedVertex (store w) None).

Definition endEdgeDrag (w : World) : World :=
  withStore w (setDraggedEdge (store w) None).

(** [addObject(object, name)]; [id] is the value of
    [crypto.randomUUID()]. *)
Definition addObject (id : string) (object : nat) (name : string) (w : World) : World :=
  withStore w
    (setObjectsAndSelected (store w)
       (objects (store w) ++ [SceneObject.mk id object name true])
       (selectedObject (store w))).

(** [setTransformMode(mode)] and [setEditMode(mode)]. *)
Definition setTransformMode (mode : option TransformMode) (w : World) : World :=
  let state := store w in
  withStore w
    (mkSceneState (objects state) (selectedObject state) mode (editMode state)
       (selectedElements state) (draggedVertex state) (draggedEdge state)).

Definition setEditMode (mode : option EditMode) (w : World) : World :=
  let state := store w in
  withStore w
    (mkSceneState (objects state) (selectedObject state) (transformMode state) mode
       (selectedElements state) (draggedVertex state) (draggedEdge state)).

(** [toggleVisibility(id)]. *)
Definition toggleVisibility (id : string) (w : World) : World :=
  let state := store w in
  let updatedObjects :=
    map (fun obj =>
           if String.eqb (SceneObject.id obj) id
           then SceneObject.mk (SceneObject.id obj) (SceneObject.object obj)
                  (SceneObject.name obj) (negb (SceneObject.visible obj))
           else obj)
        (objects state) in
  let toggledObject :=
    List.find (fun obj => String.eqb (SceneObject.id obj) id) updatedObjects in
  let newSelectedObject :=
    match toggledObject, selectedObject state with
    | Some toggled, Some sel =>
        if negb (SceneObject.visible toggled) && Nat.eqb (SceneObject.object toggled) sel
        then None else Some sel
    | _, sel => sel
    end in
  withStore w (setObjectsAndSelected state updatedObjects newSelectedObject).

(** [updateObjectName(id, name)]. *)
Definition updateObjectName (id name : string) (w : World) : World :=
  let state := store w in
  withStore w
    (setObjectsAndSelected state
       (map (fun obj =>
               if String.eqb (SceneObject.id obj) id
               then SceneObject.mk (SceneObject.id obj) (SceneObject.object obj)
                      name (SceneObject.visible obj)
               else obj)
            (objects state))
       (selectedObject state)).

(** [setSelectedElements(type, indices)]. *)
Inductive ElementType := Vertices | Edges | Faces.

Definition setSelectedElements (type : ElementType) (indices : list nat) (w : World) : World :=
  let selected := selectedElements (store w) in
  withStore w
    (setSelectedElementsField (store w)
       (match type with
        | Vertices =>
            SelectedElements.mk indices (SelectedElements.edges selected)
              (SelectedElements.faces selected)
        | Edges =>
            SelectedElements.mk (SelectedElements.vertices selected) indices
              (SelectedElements.faces selected)
        | Faces =>
            SelectedElements.mk (SelectedElements.vertices selected)
              (SelectedElements.edges selected) indices
        end)).

(** The scan of [startVertexDrag]:
    [for (let i = 0; i < positions.count; i++)], pushing [i] when the
    vertex is within the tolerance of [selectedPos]. *)
Fixpoint overlapScan (positions : BufferAttribute) (selectedPos : Vector3)
    (remaining i : nat) (overlappingIndices : list nat) : list nat :=
  match remaining with
  | O => overlappingIndices
  | S remaining' =>
      let pos := getXYZ positions i in
      overlapScan positions selectedPos remaining' (S i)
        (if distanceTo_lt pos selectedPos epsilon
         then overlappingIndices ++ [i]
         else overlappingIndices)
  end.

(** [startVertexDrag(index, position)]. *)
Definition startVertexDrag (index : nat) (position : Vector3) (w : World) : World :=
  match selectedMesh w with
  | None => w
  | Some (_, geometry) =>
      let state := store w in
      let positions := THREE.position geometry in
      let selectedPos := getXYZ positions index in
      let overlappingIndices := overlapScan positions selectedPos (count positions) 0 [] in
      withStore w
        (setDraggedVertex
           (setSelectedElementsField state
              (SelectedElements.mk overlappingIndices
                 (SelectedElements.edges (selectedElements state))
                 (SelectedElements.faces (selectedElements state))))
           (Some (DraggedVertex.mk overlappingIndices (clone position) (clone position))))
  end.

(** The [forEach] of [updateVertexDrag]: [position] is written at every
    index of the session, in order. *)
Definition writeAll (position : Vector3) (positions : BufferAttribute)
    (indices : list nat) : BufferAttribute :=
  foldl (fun positions index => setXYZ positions index position) positions indices.

(** [updateVertexDrag(position)].  [geometry.computeVertexNormals()]
    rewrites the normal attribute only, which this model does not carry. *)
Definition updateVertexDrag (position : Vector3) (w : World) : World :=
  match draggedVertex (store w), selectedMesh w with
  | Some dragged, Some (g, geometry) =>
      let positions :=
        writeAll position (THREE.position geometry) (DraggedVertex.indices dragged) in
      let positions := markNeedsUpdate positions in
      mkWorld
        (setDraggedVertex (store w)
           (Some (DraggedVertex.mk (DraggedVertex.indices dragged) (clone position)
                    (DraggedVertex.initialPosition dragged))))
        (objs w)
        (<[g := withPosition geometry positions]> (geoms w))
  | _, _ => w
  end.

(** The sides visited by the two loops of [startEdgeDrag]:
    [for (let i = 0; i < count; i += 3) for (let j = 0; j < 3; j++)] with
    [v1Index = i + j] and [v2Index = i + ((j + 1) % 3)].  The outer loop
    runs for [i = 3 * k] with [3 * k < count]. *)
Definition scannedSides (count : nat) : list (nat * nat) :=
  k ← seq 0 ((count + 2) / 3);
  j ← [0; 1; 2];
  [(3 * k + j, 3 * k + (j + 1) mod 3)].

(** [vertexIndices.includes(v)]. *)
Definition includes (vertexIndices : list nat) (v : nat) : bool :=
  existsb (Nat.eqb v) vertexIndices.

(** The condition of the [if] in [startEdgeDrag], with JavaScript's
    left-to-right short-circuit evaluation.  [v.distanceTo(undefined)]
    raises a [TypeError]: the result is then [None]. *)
Definition sideMatches (vertexIndices : list nat) (positions : list Vector3)
    (v1Index v2Index : nat) (v1 v2 : Vector3) : option bool :=
  if includes vertexIndices v1Index && includes vertexIndices v2Index then Some true
  else
    p0 ← positions !! 0;
    let second :=
      p1 ← positions !! 1;
      Some (distanceTo_lt v1 p1 epsilon && distanceTo_lt v2 p0 epsilon) in
    if distanceTo_lt v1 p0 epsilon then
      p1 ← positions !! 1;
      if distanceTo_lt v2 p1 epsilon then Some true else second
    else second.

(** The same condition when both endpoint positions are given:
    [(A) || (B && C) || (D && E)]. *)
Definition sideHit (vertexIndices : list nat) (p0 p1 : Vector3)
    (positionAttribute : BufferAttribute) (side : nat * nat) : bool :=
  let v1 := getXYZ positionAttribute side.1 in
  let v2 := getXYZ positionAttribute side.2 in
  (includes vertexIndices side.1 && includes vertexIndices side.2)
  || (distanceTo_lt v1 p0 epsilon && distanceTo_lt v2 p1 epsilon)
  || (distanceTo_lt v1 p1 epsilon && distanceTo_lt v2 p0 epsilon).

(** The three arrays the scan of [startEdgeDrag] fills. *)
Record EdgeScan := mkEdgeScan {
  overlappingEdges : list (nat * nat);
  allPositions : list Vector3;
  scanEdgeIndices : list nat
}.

(** One pass of the inner loop body. *)
Definition scanSide (vertexIndices : list nat) (positions : list Vector3)
    (positionAttribute : BufferAttribute) (acc : EdgeScan) (side : nat * nat)
    : option EdgeScan :=
  let '(v1Index, v2Index) := side in
  let v1 := getXYZ positionAttribute v1Index in
  let v2 := getXYZ positionAttribute v2Index in
  hit ← sideMatches vertexIndices positions v1Index v2Index v1 v2;
  if (hit : bool) then
    let overlapping := overlappingEdges acc ++ [(v1Index, v2Index)] in
    Some (mkEdgeScan overlapping
            (allPositions acc ++ [clone v1; clone v2])
            (scanEdgeIndices acc ++ [length overlapping - 1]))
  else Some acc.

(** The whole scan; [None] when a [TypeError] escapes. *)
Fixpoint scanSides (vertexIndices : list nat) (positions : list Vector3)
    (positionAttribute : BufferAttribute) (sides : list (nat * nat))
    (acc : EdgeScan) : option EdgeScan :=
  match sides with
  | [] => Some acc
  | side :: sides' =>
      match scanSide vertexIndices positions positionAttribute acc side with
      | Some acc' => scanSides vertexIndices positions positionAttribute sides' acc'
      | None => None
      end
  end.

(** [startEdgeDrag(vertexIndices, positions, edgeIndex)].  Nothing is
    written before the scan ends, so a throw leaves the world as it was. *)
Definition startEdgeDrag (vertexIndices : list nat) (positions : list Vector3)
    (edgeIndex : nat) (w : World) : outcome :=
  match selectedMesh w with
  | None => Returned w
  | Some (_, geometry) =>
      let state := store w in
      let positionAttribute := THREE.position geometry in
      match scanSides vertexIndices positions positionAttribute
              (scannedSides (count positionAttribute))
              (mkEdgeScan [] [] [edgeIndex]) with
      | None => Thrown w
      | Some scan =>
          Returned
            (withStore w
               (setDraggedEdge
                  (setSelectedElementsField state
                     (SelectedElements.mk
                        (SelectedElements.vertices (selectedElements state))
                        (scanEdgeIndices scan)
                        (SelectedElements.faces (selectedElements state))))
                  (Some (DraggedEdge.mk (overlappingEdges scan) (allPositions scan)
                           (map clone positions) (scanEdgeIndices scan)))))
      end
  end.

(** The [forEach] of [updateEdgeDrag], from pair number [index] on.
    [positions[k].clone()] raises a [TypeError] when the snapshot has no
    entry [k]; the writes made before it stay in the buffer. *)
Fixpoint moveEdges (offset : Vector3) (snapshot : list Vector3)
    (pairs : list (nat * nat)) (index : nat) (positions : BufferAttribute)
    : BufferAttribute * bool :=
  match pairs with
  | [] => (positions, true)
  | (v1, v2) :: pairs' =>
      match snapshot !! (index * 2) with
      | None => (positions, false)
      | Some s1 =>
          let pos1 := add (clone s1) offset in
          match snapshot !! (index * 2 + 1) with
          | None => (positions, false)
          | Some s2 =>
              let pos2 := add (clone s2) offset in
              moveEdges offset snapshot pairs' (S index)
                (setXYZ (setXYZ positions v1 pos1) v2 pos2)
          end
      end
  end.

(** [updateEdgeDrag(position)].  [position.clone().sub(undefined)] raises a
    [TypeError] before any write.  The action ends with [return state]:
    the store is untouched, only the buffer changes. *)
Definition updateEdgeDrag (position : Vector3) (w : World) : outcome :=
  match draggedEdge (store w), selectedMesh w with
  | Some dragged, Some (g, geometry) =>
      match DraggedEdge.initialPositions dragged !! 0 with
      | None => Thrown w
      | Some initial =>
          let offset := sub (clone position) initial in
          let '(positions, completed) :=
            moveEdges offset (DraggedEdge.positions dragged)
              (DraggedEdge.indices dragged) 0 (THREE.position geometry) in
          if (completed : bool) then
            Returned (mkWorld (store w) (objs w)
                        (<[g := withPosition geometry (markNeedsUpdate positions)]> (geoms w)))
          else
            Thrown (mkWorld (store w) (objs w)
                      (<[g := withPosition geometry positions]> (geoms w)))
      end
  | _, _ => Returned w
  end.

(** The world an outcome carries, and whether the action returned. *)
Definition worldOf (r : outcome) : World :=
  match r with Returned w | Thrown w => w end.

Definition returned (r : outcome) : bool :=
  match r with Returned _ => true | Thrown _ => false end.

(** The buffer writes of the [forEach] of [updateEdgeDrag], in order, up to
    the first missing snapshot entry, each with the point the buffer holds
    after it; the flag tells whether the loop ran to its end. *)
Fixpoint edgeWrites (offset : Vector3) (snapshot : list Vector3)
    (pairs : list (nat * nat)) (index : nat) : list (nat * Vector3) * bool :=
  match pairs with
  | [] => ([], true)
  | (v1, v2) :: pairs' =>
      match snapshot !! (index * 2), snapshot !! (index * 2 + 1) with
      | Some s1, Some s2 =>
          let '(writes, completed) := edgeWrites offset snapshot pairs' (S index) in
          ((v1, float32 (add s1 offset)) :: (v2, float32 (add s2 offset)) :: writes,
           completed)
      | _, _ => ([], false)
      end
  end.

(** A sequence of indexed writes into an array. *)
Definition applyWrites (writes : list (nat * Vector3)) (l : list Vector3) : list Vector3 :=
  foldl (fun l '(i, v) => <[i := v]> l) l writes.

(** An edge session holds the snapshot of a buffer: the two entries of
    pair number [k] are the points the buffer had at the pair's vertices. *)
Definition capturedFrom (positionAttribute : BufferAttribute) (d : DraggedEdge.t) : Prop :=
  ∀ k v1 v2,
    DraggedEdge.indices d !! k = Some (v1, v2) →
    DraggedEdge.positions d !! (k * 2) = Some (getXYZ positionAttribute v1)
    ∧ DraggedEdge.positions d !! (k * 2 + 1) = Some (getXYZ positionAttribute v2).

(** The invariant of the edge session: it snapshots some buffer. *)
Definition sessionCaptured (w : World) : Prop :=
  ∀ d, draggedEdge (store w) = Some d → ∃ a0, capturedFrom a0 d.

(** ** Resolution change of the parametric primitives *)

(** [oldGeometry.parameters] as read by [updateCylinderVertices].  A
    [ConeGeometry] has no [radiusTop] and no [radiusBottom]: the reads give
    [undefined] and the [CylinderGeometry] constructor takes its default 1. *)
Definition cylinderParametersOf (c : GeometryClass) (vertexCount : Q)
    : option CylinderParameters :=
  match c with
  | CylinderGeometry p =>
      Some (mkCylinderParameters (radiusTop p) (radiusBottom p) (height p)
              vertexCount (heightSegments p) (openEnded p)
              (thetaStart p) (thetaLength p))
  | ConeGeometry p =>
      Some (mkCylinderParameters 1 1 (cone_height p)
              vertexCount (cone_heightSegments p) (cone_openEnded p)
              (cone_thetaStart p) (cone_thetaLength p))
  | _ => None
  end.

(** [oldGeometry.parameters] as read by [updateSphereVertices]; the height
    segments are [vertexCount / 2]. *)
Definition sphereParametersOf (c : GeometryClass) (vertexCount : Q)
    : option SphereParameters :=
  match c with
  | SphereGeometry p =>
      Some (mkSphereParameters (radius p) vertexCount (vertexCount / 2)%Q
              (phiStart p) (phiLength p)
              (sphere_thetaStart p) (sphere_thetaLength p))
  | _ => None
  end.

(** The selection lists after a resolution change. *)
Definition emptySelection : SelectedElements.t := SelectedElements.mk [] [] [].

Section Resolution.

(** The vertex and index buffers three.js generates for a cylinder and
    for a sphere of given parameters. *)
Variable cylinderBuffers : CylinderParameters → list Vector3 * list nat.
Variable sphereBuffers : SphereParameters → list Vector3 * list nat.

(** [new THREE.CylinderGeometry(...)]. *)
Definition newCylinderGeometry (p : CylinderParameters) : BufferGeometry :=
  let '(vertices, indices) := cylinderBuffers p in
  mkGeometry (CylinderGeometry p) (mkAttribute vertices 0) (Some indices) false.

(** [new THREE.SphereGeometry(...)]. *)
Definition newSphereGeometry (p : SphereParameters) : BufferGeometry :=
  let '(vertices, indices) := sphereBuffers p in
  mkGeometry (SphereGeometry p) (mkAttribute vertices 0) (Some indices) false.

(** The common tail of both actions: dispose of the old geometry, point
    the selected mesh at the new one (a fresh object), clear the
    selection. *)
Definition replaceGeometry (w : World) (o g : nat) (oldGeometry newGeometry : BufferGeometry)
    : World :=
  let g' := fresh (dom (geoms w)) in
  mkWorld
    (setSelectedElementsField (store w) emptySelection)
    (<[o := Mesh g']> (objs w))
    (<[g' := newGeometry]> (<[g := dispose oldGeometry]> (geoms w))).

(** [updateCylinderVertices(vertexCount)]. *)
Definition updateCylinderVertices (vertexCount : Q) (w : World) : World :=
  match selectedObject (store w) with
  | Some o =>
      match objs w !! o with
      | Some (Mesh g) =>
          match geoms w !! g with
          | Some oldGeometry =>
              match cylinderParametersOf (class oldGeometry) vertexCount with
              | Some p => replaceGeometry w o g oldGeometry (newCylinderGeometry p)
              | None => w
              end
          | None => w
          end
      | _ => w
      end
  | None => w
  end.

(** [updateSphereVertices(vertexCount)]. *)
Definition updateSphereVertices (vertexCount : Q) (w : World) : World :=
  match selectedObject (store w) with
  | Some o =>
      match objs w !! o with
      | Some (Mesh g) =>
          match geoms w !! g with
          | Some oldGeometry =>
              match sphereParametersOf (class oldGeometry) vertexCount with
              | Some p => replaceGeometry w o g oldGeometry (newSphereGeometry p)
              | None => w
              end
          | None => w
          end
      | _ => w
      end
  | None => w
  end.

(** The actions of the store.  [updateObjectProperties] merges the state
    into itself; [updateObjectColor] and [updateObjectOpacity] write to
    the material only, which this model does not carry. *)
Inductive Action :=
| AddObject (id : string) (object : nat) (name : string)
| RemoveObject (id : string)
| SetSelectedObject (object : option nat)
| SetTransformMode (mode : option TransformMode)
| SetEditMode (mode : option EditMode)
| ToggleVisibility (id : string)
| UpdateObjectName (id name : string)
| UpdateObjectProperties
| UpdateObjectColor
| UpdateObjectOpacity
| SetSelectedElements (type : ElementType) (indices : list nat)
| StartVertexDrag (index : nat) (position : Vector3)
| UpdateVertexDrag (position : Vector3)
| EndVertexDrag
| StartEdgeDrag (vertexIndices : list nat) (positions : list Vector3) (edgeIndex : nat)
| UpdateEdgeDrag (position : Vector3)
| EndEdgeDrag
| UpdateCylinderVertices (vertexCount : Q)
| UpdateSphereVertices (vertexCount : Q).

Definition perform (a : Action) (w : World) : outcome :=
  match a with
  | AddObject id object name => Returned (addObject id object name w)
  | RemoveObject id => Returned (removeObject id w)
  | SetSelectedObject object => Returned (setSelectedObject object w)
  | SetTransformMode mode => Returned (setTransformMode mode w)
  | SetEditMode mode => Returned (setEditMode mode w)
  | ToggleVisibility id => Returned (toggleVisibility id w)
  | UpdateObjectName id name => Returned (updateObjectName id name w)
  | UpdateObjectProperties | UpdateObjectColor | UpdateObjectOpacity => Returned w
  | SetSelectedElements type indices => Returned (setSelectedElements type indices w)
  | StartVertexDrag index position => Returned (startVertexDrag index position w)
  | UpdateVertexDrag position => Returned (updateVertexDrag position w)
  | EndVertexDrag => Returned (endVertexDrag w)
  | StartEdgeDrag vertexIndices positions edgeIndex =>
      startEdgeDrag vertexIndices positions edgeIndex w
  | UpdateEdgeDrag position => updateEdgeDrag position w
  | EndEdgeDrag => Returned (endEdgeDrag w)
  | UpdateCylinderVertices vertexCount => Returned (updateCylinderVertices vertexCount w)
  | UpdateSphereVertices vertexCount => Returned (updateSphereVertices vertexCount w)
  end.

(** A history of actions; after a throw the application goes on from
    the world the throw left. *)
Definition run (actions : list Action) (w : World) : World :=
  foldl (fun w a => worldOf (perform a w)) w actions.

(** The worlds the application can be in: the store starts as created,
    over any THREE objects. *)
Definition reachable (w : World) : Prop :=
  ∃ objs geoms actions, w = run actions (mkWorld initialState objs geoms).

End Resolution.

(** ** Edge derivation of the edge handles ([Scene.tsx], [EdgeLines]) *)

Module Scene.

(** [String(n)] for an index: its decimal digits. *)
Definition jsString (n : nat) : string :=
  NilEmpty.string_of_uint (Nat.to_uint n).

(** [Number(s)]: [None] stands for [NaN]; the empty string is 0. *)
Definition Number (s : string) : option nat :=
  Nat.of_uint <$> NilEmpty.uint_of_string s.

(** [Array.prototype.sort()] without a comparator: a stable sort by the
    string form of the elements, compared by code units. *)
Fixpoint sortInsert (n : nat) (sorted : list nat) : list nat :=
  match sorted with
  | [] => [n]
  | m :: sorted' =>
      if String.ltb (jsString m) (jsString n)
      then m :: sortInsert n sorted'
      else n :: m :: sorted'
  end.

Definition sort (l : list nat) : list nat := foldr sortInsert [] l.

(** [l.join(sep)] on an array of numbers. *)
Definition join (sep : string) (l : list nat) : string :=
  String.concat sep (map jsString l).

(** [s.split(sep)] for a one-character separator. *)
Fixpoint split (sep : ascii) (s : string) : list string :=
  match s with
  | EmptyString => [EmptyString]
  | String c s' =>
      if Ascii.eqb c sep then EmptyString :: split sep s'
      else match split sep s' with
           | piece :: pieces => String c piece :: pieces
           | [] => [String c EmptyString]
           end
  end.

(** A JavaScript [Set] of strings, as the list of its keys in insertion
    order: [set.add(k)] and [new Set(array)]. *)
Definition setAdd (set : list string) (k : string) : list string :=
  if existsb (String.eqb k) set then set else set ++ [k].

Definition newSet (keys : list string) : list string := foldl setAdd [] keys.

(** The array destructuring [[start, end]]: the first two entries;
    [None] stands for [undefined] and for [NaN]. *)
Definition firstTwo (l : list (option nat)) : option nat * option nat :=
  match l with
  | a :: b :: _ => (a, b)
  | [a] => (a, None)
  | [] => (None, None)
  end.

(** [key.split(sep).map(Number)], destructured. *)
Definition parseEdge (sep : ascii) (key : string) : option nat * option nat :=
  firstTwo (map Number (split sep key)).

(** The index buffer, three entries per triangle. *)
Definition Triangles := list (nat * nat * nat).

(** First [EdgeLines] (lines 160-174): the three sides of every triangle
    are pushed, then deduplicated through
    [edge.slice().sort().join(',')]. *)
Definition pushedEdges (index : Triangles) : list (list nat) :=
  '(a, b, c) ← index; [[a; b]; [b; c]; [c; a]].

Definition uniqueEdges (index : Triangles) : list (option nat * option nat) :=
  map (parseEdge ",")
    (newSet (map (fun edge => join "," (sort edge)) (pushedEdges index))).

(** Second [EdgeLines] (lines 559-569): the keys
    [`${Math.min(a, b)}-${Math.max(a, b)}`] are added to a [Set] and split
    again when the handles are drawn. *)
Definition minMaxKey (a b : nat) : string :=
  (jsString (Nat.min a b) ++ "-" ++ jsString (Nat.max a b))%string.

Definition edgeSet (index : Triangles) : list string :=
  foldl (fun edges '(a, b, c) =>
           setAdd (setAdd (setAdd edges (minMaxKey a b)) (minMaxKey b c)) (minMaxKey c a))
        [] index.

Definition edgeHandles (index : Triangles) : list (option nat * option nat) :=
  map (parseEdge "-") (edgeSet index).

(** The sides of a triangle [(a, b, c)] in the order both components
    visit them. *)
Definition sidesOf (triangle : nat * nat * nat) : list (nat * nat) :=
  let '(a, b, c) := triangle in [(a, b); (b, c); (c, a)].

(** Two emitted edges are the same undirected edge. *)
Definition sameEdge (e1 e2 : option nat * option nat) : Prop :=
  e1 = e2 ∨ e1 = (e2.2, e2.1).

(** The edge the first component emits for a side [(u, v)]: the pair in
    the order of the decimal strings of its indices. *)
Definition stringOrdered (u v : nat) : option nat * option nat :=
  if String.ltb (jsString v) (jsString u) then (Some v, Some u) else (Some u, Some v).

(** The edge the second component emits for a side [(u, v)]. *)
Definition numericOrdered (u v : nat) : option nat * option nat :=
  (Some (Nat.min u v), Some (Nat.max u v)).

(** The string has no occurrence of the character. *)
Fixpoint avoids (sep : ascii) (s : string) : bool :=
  match s with
  | EmptyString => true
  | String c s' => negb (Ascii.eqb c sep) && avoids sep s'
  end.

End Scene.


(** ** Event handlers of the scene view ([Scene.tsx], lines 1-407)

    The handlers are closures over the store as last rendered; the model
    takes that to be the store at the time of the event.  What three.js
    computes from the camera, the pointer and the world matrix of the
    selected object is an input of the handler. *)

Module View.

(** [selectedObject instanceof THREE.Mesh]. *)
Definition selectedIsMesh (w : World) : bool :=
  match selectedObject (store w) with
  | Some o =>
      match objs w !! o with
      | Some (Mesh _) => true
      | _ => false
      end
  | None => false
  end.

(** The guard of [EditModeOverlay], negated: a mesh is selected and an
    edit mode is set.  Only then are the pointer listeners registered and
    the handles rendered. *)
Definition overlayActive (w : World) : bool :=
  match editMode (store w) with
  | Some _ => selectedIsMesh w
  | None => false
  end.

(** [handlePointerMove].  [localHit anchor] is the point where the pointer
    ray meets the camera-facing plane through [anchor], in the local space
    of the selected mesh, if there is one.  With no vertex session the
    anchor is [draggedEdge.positions[0]]; when that is [undefined],
    [setFromNormalAndCoplanarPoint] raises a [TypeError]. *)
Definition handlePointerMove (localHit : Vector3 → option Vector3) (w : World) : outcome :=
  if overlayActive w then
    match draggedVertex (store w), draggedEdge (store w) with
    | Some dragged, _ =>
        match localHit (DraggedVertex.position dragged) with
        | Some localPosition => Returned (updateVertexDrag localPosition w)
        | None => Returned w
        end
    | None, Some dragged =>
        match DraggedEdge.positions dragged !! 0 with
        | Some anchor =>
            match localHit anchor with
            | Some localPosition => updateEdgeDrag localPosition w
            | None => Returned w
            end
        | None => Thrown w
        end
    | None, None => Returned w
    end
  else Returned w.

(** [handlePointerUp]: both tests read the sessions as last rendered. *)
Definition handlePointerUp (w : World) : World :=
  if overlayActive w then
    let w1 := match draggedVertex (store w) with
              | Some _ => endVertexDrag w
              | None => w
              end in
    match draggedEdge (store w) with
    | Some _ => endEdgeDrag w1
    | None => w1
    end
  else w.

(** The vertex handles [VertexPoints] renders: one per vertex index, in
    vertex mode only. *)
Definition vertexHandles (w : World) : list nat :=
  if overlayActive w then
    match editMode (store w), selectedMesh w with
    | Some VertexMode, Some (_, geometry) => seq 0 (count (position geometry))
    | _, _ => []
    end
  else [].

Inductive HandleColor := Red | Yellow.

(** The colour of vertex handle [i]. *)
Definition vertexHandleColor (w : World) (i : nat) : HandleColor :=
  if includes (SelectedElements.vertices (selectedElements (store w))) i
  then Red else Yellow.

(** The [onClick] of vertex handle [i]; [toWorld] is
    [applyMatrix4(object.matrixWorld)].  A handle that is not rendered
    cannot be clicked. *)
Definition clickVertexHandle (toWorld : Vector3 → Vector3) (i : nat) (w : World) : World :=
  if existsb (Nat.eqb i) (vertexHandles w) then
    match selectedMesh w with
    | Some (_, geometry) => startVertexDrag i (toWorld (getXYZ (position geometry) i)) w
    | None => w
    end
  else w.

(** The value the effect of [Scene] gives to [selectedPosition]; [None]
    is [null]. *)
Definition selectedPositionEffect (toWorld : Vector3 → Vector3) (w : World)
    : option Vector3 :=
  match editMode (store w) with
  | Some VertexMode =>
      if selectedIsMesh w then
        match draggedVertex (store w) with
        | Some dragged => Some (DraggedVertex.position dragged)
        | None =>
            match SelectedElements.vertices (selectedElements (store w)), selectedMesh w with
            | vertexIndex :: _, Some (_, geometry) =>
                Some (toWorld (getXYZ (position geometry) vertexIndex))
            | _, _ => None
            end
        end
      else None
  | _ => None
  end.

(** [handlePositionChange(newPosition)]. *)
Definition handlePositionChange (newPosition : Vector3) (w : World) : World :=
  if selectedIsMesh w then updateVertexDrag newPosition w else w.

Inductive Axis := AxisX | AxisY | AxisZ.

(** [newPosition[axis] = value] on a clone of [position]. *)
Definition setAxis (axis : Axis) (value : JS.number) (position : Vector3) : Vector3 :=
  match axis with
  | AxisX => mkVector3 value (y position) (z position)
  | AxisY => mkVector3 (x position) value (z position)
  | AxisZ => mkVector3 (x position) (y position) value
  end.

(** [handleChange(axis, value)] of the coordinate panel showing
    [position]; [parsed] is [parseFloat(value)], which [|| 0] turns into 0
    when it is NaN. *)
Definition handleChange (position : Vector3) (axis : Axis) (parsed : JS.number)
    (w : World) : World :=
  handlePositionChange (setAxis axis (JS.orZero parsed) (clone position)) w.

(** [VertexCountSelector]: the count it shows, the options it offers and
    the action its [onChange] calls. *)
Inductive CountAction := CylinderCount | SphereCount.

Record CountSelector := mkCountSelector {
  currentVertexCount : Q;
  options : list Q;
  onChange : CountAction
}.

Definition vertexCountSelector (w : World) : option CountSelector :=
  match selectedMesh w with
  | Some (_, geometry) =>
      match class geometry with
      | CylinderGeometry p =>
          Some (mkCountSelector (radialSegments p) [32; 16; 8]%Q CylinderCount)
      | ConeGeometry p =>
          Some (mkCountSelector (cone_radialSegments p) [32; 16; 8]%Q CylinderCount)
      | SphereGeometry p =>
          Some (mkCountSelector (widthSegments p) [64; 32; 16; 8]%Q SphereCount)
      | _ => None
      end
  | None => None
  end.

(** [geometry instanceof THREE.ConeGeometry]. *)
Definition instanceofConeGeometry (c : GeometryClass) : bool :=
  match c with
  | ConeGeometry _ => true
  | _ => false
  end.

(** The selector as [Scene] renders it: in vertex mode, and not for a
    cone. *)
Definition countSelectorShown (w : World) : option CountSelector :=
  match editMode (store w), selectedMesh w with
  | Some VertexMode, Some (_, geometry) =>
      if instanceofConeGeometry (class geometry) then None else vertexCountSelector w
  | _, _ => None
  end.

(** Picking [value] in the selector. *)
Definition chooseVertexCount
    (cylinderBuffers : CylinderParameters → list Vector3 * list nat)
    (sphereBuffers : SphereParameters → list Vector3 * list nat)
    (value : Q) (w : World) : World :=
  match countSelectorShown w with
  | Some selector =>
      match onChange selector with
      | CylinderCount => updateCylinderVertices cylinderBuffers value w
      | SphereCount => updateSphereVertices sphereBuffers value w
      end
  | None => w
  end.

(** The [onClick] of the [k]-th entry of the object list: only a visible
    entry is rendered. *)
Definition clickPrimitive (k : nat) (w : World) : World :=
  match objects (store w) !! k with
  | Some entry =>
      if SceneObject.visible entry
      then setSelectedObject (Some (SceneObject.object entry)) w
      else w
  | None => w
  end.

(** What the user and the panels do: a store action, or a click on a
    rendered object. *)
Inductive Gesture :=
| StoreAction (a : Action)
| ClickPrimitive (k : nat).

Definition performGesture
    (cylinderBuffers : CylinderParameters → list Vector3 * list nat)
    (sphereBuffers : SphereParameters → list Vector3 * list nat)
    (gesture : Gesture) (w : World) : outcome :=
  match gesture with
  | StoreAction a => perform cylinderBuffers sphereBuffers a w
  | ClickPrimitive k => Returned (clickPrimitive k w)
  end.

(** The ids of the object list. *)
Definition ids (w : World) : list string :=
  map SceneObject.id (objects (store w)).

(** Gestures that add an object under a new id, as [crypto.randomUUID()]
    gives, and select objects only by clicking them. *)
Definition gestureAllowed (gesture : Gesture) (w : World) : Prop :=
  match gesture with
  | StoreAction (AddObject id _ _) => id ∉ ids w
  | StoreAction (SetSelectedObject (Some _)) => False
  | _ => True
  end.

(** The selected object, if any, is held by a visible entry. *)
Definition selectionVisible (w : World) : Prop :=
  ∀ o, selectedObject (store w) = Some o →
       ∃ entry, entry ∈ objects (store w)
                ∧ SceneObject.object entry = o
                ∧ SceneObject.visible entry = true.

(** The worlds reached from the store as created by allowed gestures. *)
Inductive viewReachable
    (cylinderBuffers : CylinderParameters → list Vector3 * list nat)
    (sphereBuffers : SphereParameters → list Vector3 * list nat) : World → Prop :=
| viewReachable_initial (objs : gmap nat Object3D) (geoms : gmap nat BufferGeometry) :
    viewReachable cylinderBuffers sphereBuffers (mkWorld initialState objs geoms)
| viewReachable_step (gesture : Gesture) (w : World) :
    viewReachable cylinderBuffers sphereBuffers w →
    gestureAllowed gesture w →
    viewReachable cylinderBuffers sphereBuffers
      (worldOf (performGesture cylinderBuffers sphereBuffers gesture w)).

End View.

(** The invariant of the vertex session: its group is strictly
    ascending. *)
Definition vertexSessionSorted (w : World) : Prop :=
  ∀ d, draggedVertex (store w) = Some d → StronglySorted lt (DraggedVertex.indices d).

(** The resolution actions, the only ones that build a geometry. *)
Definition isResolutionAction (a : Action) : bool :=
  match a with
  | UpdateCylinderVertices _ | UpdateSphereVertices _ => true
  | _ => false
  end.

(** The shape of the edge session: its snapshot holds exactly two points
    per participant pair, those a buffer had at the pair's vertices. *)
Definition sessionSnapshot (w : World) : Prop :=
  ∀ d, draggedEdge (store w) = Some d →
       ∃ a0, DraggedEdge.positions d
             = DraggedEdge.indices d
               ≫= (fun side => [getXYZ a0 side.1; getXYZ a0 side.2]).

(** The geometry data a drag must not change: the class, the index buffer,
    the vertex count and the disposal flag. *)
Definition sameTopology (a b : BufferGeometry) : Prop :=
  class a = class b
  ∧ index a = index b
  ∧ count (position a) = count (position b)
  ∧ disposed a = disposed b.

(** ** Sample scenes *)

Module Sample.

Definition v (a b c : Z) : Vector3 := mkVector3 (JS.ofZ a) (JS.ofZ b) (JS.ofZ c).

(** Two triangles that touch in one corner: vertices 2 and 3 coincide. *)
Definition bowtie : BufferGeometry :=
  mkGeometry PlainBufferGeometry
    (mkAttribute [v 0 0 0; v 1 0 0; v 1 1 0; v 1 1 0; v 2 1 0; v 2 2 0] 0)
    None false.

(** One triangle. *)
Definition triangle : BufferGeometry :=
  mkGeometry PlainBufferGeometry
    (mkAttribute [v 5 5 5; v 6 5 5; v 5 6 5] 0)
    None false.

(** An indexed mesh of six distinct vertices; its index buffer holds the
    triangles (0,1,2), (2,1,3) and (3,4,5). *)
Definition strip : BufferGeometry :=
  mkGeometry PlainBufferGeometry
    (mkAttribute [v 0 0 0; v 1 0 0; v 0 1 0; v 1 1 0; v 2 1 0; v 1 2 0] 0)
    (Some [0; 1; 2; 2; 1; 3; 3; 4; 5]) false.

Definition cylinderParameters : CylinderParameters :=
  mkCylinderParameters 1 1 2 32 1 false 0 (6283 # 1000).

Definition cylinder : BufferGeometry :=
  mkGeometry (CylinderGeometry cylinderParameters)
    (mkAttribute [v 1 1 0; v 0 1 1; v 1 (-1) 0] 0) (Some [0; 1; 2]) false.

Definition sphereParameters : SphereParameters :=
  mkSphereParameters 1 32 16 0 (6283 # 1000) 0 (3141 # 1000).

Definition sphere : BufferGeometry :=
  mkGeometry (SphereGeometry sphereParameters)
    (mkAttribute [v 0 1 0; v 1 0 0; v 0 0 1] 0) (Some [0; 1; 2]) false.

Definition entries : list SceneObject.t :=
  [ SceneObject.mk "a" 1 "Bowtie" true;
    SceneObject.mk "b" 2 "Triangle" true;
    SceneObject.mk "c" 3 "Group" true;
    SceneObject.mk "d" 4 "Cylinder" true;
    SceneObject.mk "e" 5 "Sphere" true;
    SceneObject.mk "f" 6 "Strip" true ].

(** A scene with the five meshes and a group; [selected] is the selected
    object, no drag session is open. *)
Definition scene (selected : option nat) : World :=
  mkWorld
    (mkSceneState entries selected None (Some VertexMode)
       (SelectedElements.mk [] [] []) None None)
    (<[1 := Mesh 11]> (<[2 := Mesh 12]> (<[3 := OtherObject3D]>
       (<[4 := Mesh 14]> (<[5 := Mesh 15]> (<[6 := Mesh 16]> ∅))))))
    (<[11 := bowtie]> (<[12 := triangle]> (<[14 := cylinder]>
       (<[15 := sphere]> (<[16 := strip]> ∅))))).

(** A mesh with two vertices about 1e-4 apart: vertex 1 is at
    (0x1.b6a67cp-17, 0x1.9fd4bap-14, 0x1.c64c6p-30), three single-precision
    values, and vertex 0 at the origin. *)
Definition grazing : BufferGeometry :=
  mkGeometry PlainBufferGeometry
    (mkAttribute
       [v 0 0 0;
        mkVector3 (JS.scaled 28747388 (-41)) (JS.scaled 27251898 (-38))
          (JS.scaled 29772896 (-54));
        v 1 0 0] 0)
    None false.

Definition grazingScene : World :=
  mkWorld
    (mkSceneState [SceneObject.mk "g" 1 "Grazing" true] (Some 1) None (Some VertexMode)
       (SelectedElements.mk [] [] []) None None)
    (<[1 := Mesh 11]> ∅)
    (<[11 := grazing]> ∅).

(** Stand-ins for the buffers three.js would generate. *)
Definition cylinderBuffers (p : CylinderParameters) : list Vector3 * list nat :=
  ([v 1 1 0; v 0 1 1; v (-1) 1 0; v 1 (-1) 0], [0; 1; 2; 1; 2; 3]).

Definition sphereBuffers (p : SphereParameters) : list Vector3 * list nat :=
  ([v 0 1 0; v 1 0 0; v 0 0 1; v 0 (-1) 0], [0; 1; 2; 1; 2; 3]).

End Sample.

(** * Properties *)

(** ** Vectors and buffers *)

Lemma clone_id (v : Vector3) : clone v = v.
Proof. by destruct v. Qed.

Lemma map_clone (l : list Vector3) : map clone l = l.
Proof. induction l as [|v l IH]; simpl; [done|]. by rewrite clone_id, IH. Qed.

Lemma setXYZ_array (a : BufferAttribute) (i : nat) (v : Vector3) :
  array (setXYZ a i v) = <[i := float32 v]> (array a).
Proof. reflexivity. Qed.

Lemma setXYZ_count (a : BufferAttribute) (i : nat) (v : Vector3) :
  count (setXYZ a i v) = count a.
Proof. unfold count. by rewrite setXYZ_array, length_insert. Qed.

(** ** Numbers *)

(** A finite number minus itself is [+0]. *)
Lemma sub_diag (a : JS.number) :
  JS.isFinite a = true → JS.sub a a = S754_zero false.
Proof.
  destruct a as [s| | |s m e]; simpl; try done.
  - intros _. by destruct s.
  - intros _. unfold JS.sub, SFsub. by rewrite Z.sub_diag.
Qed.

Lemma binary_round_aux_sign (p em m e : Z) (l : location) :
  binary_round_aux p em true m e l = SFopp (binary_round_aux p em false m e l).
Proof.
  unfold binary_round_aux.
  destruct (shr_fexp p em m e l) as [mrs' e'].
  destruct (shr_fexp p em _ e' loc_Exact) as [mrs'' e''].
  destruct (shr_m mrs''); try done. by destruct (_ <=? _)%Z.
Qed.

Lemma binary_normalize_opp (p em m e : Z) :
  JS.negated (binary_normalize p em (- m) e false) (binary_normalize p em m e false).
Proof.
  destruct m as [|m|m]; simpl; [by left| |]; right; unfold binary_round;
    destruct (shl_align _ _ _) as [mz ez].
  - by rewrite binary_round_aux_sign.
  - rewrite binary_round_aux_sign.
    by destruct (binary_round_aux p em false (Z.pos mz) ez loc_Exact) as [[]|[]| |[] ? ?].
Qed.

(** [a - b] and [b - a] are equal (two zeros) or opposite. *)
Lemma sub_swap (a b : JS.number) : JS.negated (JS.sub a b) (JS.sub b a).
Proof.
  destruct a as [sa|sa| |sa ma ea], b as [sb|sb| |sb mb eb];
    unfold JS.sub, JS.negated; simpl;
    try (destruct sa, sb; simpl; first [by left | by right]);
    try (destruct sa; simpl; first [by left | by right]);
    try (destruct sb; simpl; first [by left | by right]);
    try (by left).
  rewrite (Z.min_comm eb ea).
  replace (cond_Zopp sa (Z.pos (shl_align ma ea (Z.min ea eb)).1)
           - cond_Zopp sb (Z.pos (shl_align mb eb (Z.min ea eb)).1))%Z
    with (- (cond_Zopp sb (Z.pos (shl_align mb eb (Z.min ea eb)).1)
             - cond_Zopp sa (Z.pos (shl_align ma ea (Z.min ea eb)).1)))%Z by lia.
  apply binary_normalize_opp.
Qed.

Lemma mul_opp_opp (a : JS.number) : JS.mul (SFopp a) (SFopp a) = JS.mul a a.
Proof. destruct a as [[]|[]| |[] m e]; reflexivity. Qed.

(** The square of a difference does not depend on its direction, also
    after rounding and for the special values. *)
Lemma square_sub_swap (a b : JS.number) :
  JS.mul (JS.sub a b) (JS.sub a b) = JS.mul (JS.sub b a) (JS.sub b a).
Proof. destruct (sub_swap a b) as [-> | ->]; [done | apply mul_opp_opp]. Qed.

(** ** Distances *)

Lemma sqrt_lt_square (d e : R) :
  (0 <= d)%R → (0 <= e)%R → (sqrt d < e ↔ d < e * e)%R.
Proof.
  intros Hd He. split; intros H.
  - rewrite <- (sqrt_sqrt d Hd) at 1.
    assert (0 <= sqrt d)%R by apply sqrt_pos.
    apply Rmult_le_0_lt_compat; lra.
  - rewrite <- (sqrt_square e He). apply sqrt_lt_1_alt. lra.
Qed.

Lemma exactDistanceSquared_nonneg (a b : Vector3) : (0 <= exactDistanceSquared a b)%Q.
Proof.
  unfold exactDistanceSquared. simpl.
  assert (S : ∀ q : Q, (0 <= q * q)%Q).
  { intros [n m]. unfold Qle, Qmult. simpl. nia. }
  assert (P : ∀ p q : Q, (0 <= p)%Q → (0 <= q)%Q → (0 <= p + q)%Q)
    by (intros p q Hp Hq; apply (Qplus_le_compat 0 p 0 q Hp Hq)).
  repeat apply P; apply S.
Qed.

(** The Euclidean distance is below a non-negative rational bound exactly
    when its square is below the square of the bound. *)
Lemma euclideanDistance_lt (a b : Vector3) (eps : Q) :
  (0 <= eps)%Q →
  (euclideanDistance a b < Q2R eps)%R ↔ (exactDistanceSquared a b < eps * eps)%Q.
Proof.
  intros He. unfold euclideanDistance.
  assert (N : ∀ q : Q, (0 <= q)%Q → (0 <= Q2R q)%R).
  { intros q H. apply Qle_Rle in H. by rewrite RMicromega.Q2R_0 in H. }
  rewrite sqrt_lt_square; [| apply N, exactDistanceSquared_nonneg | by apply N].
  rewrite <- Q2R_mult. split; [apply Rlt_Qlt | apply Qlt_Rlt].
Qed.

(** A point with finite coordinates is within the tolerance of itself. *)
Lemma distanceTo_lt_self (v : Vector3) :
  isFinite v = true → distanceTo_lt v v epsilon = true.
Proof.
  unfold isFinite. intros [[Hx Hy]%andb_true_iff Hz]%andb_true_iff.
  unfold distanceTo_lt, distanceTo, distanceToSquared.
  by rewrite !sub_diag.
Qed.

(** The tolerance test is symmetric. *)
Lemma distanceTo_lt_sym (a b : Vector3) (eps : JS.number) :
  distanceTo_lt a b eps = distanceTo_lt b a eps.
Proof.
  unfold distanceTo_lt, distanceTo, distanceToSquared.
  by rewrite (square_sub_swap (x a)), (square_sub_swap (y a)), (square_sub_swap (z a)).
Qed.

Lemma writeAll_count (t : Vector3) (l : list nat) (a : BufferAttribute) :
  count (writeAll t a l) = count a.
Proof.
  revert a. induction l as [|i l IH]; intros a; simpl; [done|].
  unfold writeAll in *. simpl. by rewrite IH, setXYZ_count.
Qed.

Lemma writeAll_version (t : Vector3) (l : list nat) (a : BufferAttribute) :
  version (writeAll t a l) = version a.
Proof.
  revert a. induction l as [|i l IH]; intros a; [done|].
  unfold writeAll in *. simpl. by rewrite IH.
Qed.

Lemma writeAll_outside (t : Vector3) (l : list nat) (a : BufferAttribute) (i : nat) :
  i ∉ l → array (writeAll t a l) !! i = array a !! i.
Proof.
  revert a. induction l as [|j l IH]; intros a Hi; [done|].
  apply not_elem_of_cons in Hi as [Hne Hi].
  unfold writeAll in *. simpl. rewrite IH by done.
  rewrite setXYZ_array. by apply list_lookup_insert_ne.
Qed.

Lemma writeAll_inside (t : Vector3) (l : list nat) (a : BufferAttribute) (i : nat) :
  i ∈ l → i < count a → array (writeAll t a l) !! i = Some (float32 t).
Proof.
  revert a. induction l as [|j l IH]; intros a Hi Hlt.
  - by apply elem_of_nil in Hi.
  - unfold writeAll in *. simpl.
    destruct (decide (i ∈ l)) as [Hin|Hout].
    + apply IH; [done|]. by rewrite setXYZ_count.
    + apply elem_of_cons in Hi as [->|Hin]; [|done].
      fold (writeAll t (setXYZ a j t) l). rewrite writeAll_outside by done.
      rewrite setXYZ_array. by apply list_lookup_insert_eq.
Qed.

(** ** Drag updates without a session *)

(** C7. With no drag session open ([draggedVertex] and [draggedEdge] both
    [null]), [updateVertexDrag] and [updateEdgeDrag] leave the whole world
    (store, scene objects, position buffers) as it is, and
    [updateEdgeDrag] returns without raising. *)
Theorem update_without_session_is_noop (t : Vector3) (w : World) :
  draggedVertex (store w) = None →
  draggedEdge (store w) = None →
  updateVertexDrag t w = w ∧ updateEdgeDrag t w = Returned w.
Proof.
  intros Hv He. unfold updateVertexDrag, updateEdgeDrag.
  by rewrite Hv, He.
Qed.

Lemma update_without_session_is_noop_witness :
  updateVertexDrag (Sample.v 2 2 2) (Sample.scene (Some 1)) = Sample.scene (Some 1)
  ∧ updateEdgeDrag (Sample.v 2 2 2) (Sample.scene (Some 1))
    = Returned (Sample.scene (Some 1)).
Proof.
  apply (update_without_session_is_noop (Sample.v 2 2 2) (Sample.scene (Some 1)));
    reflexivity.
Defined.


(** ** Vertex drag *)

(** What [updateVertexDrag] does on a selected mesh while a vertex session
    is open. *)
Lemma updateVertexDrag_writes
    (t : Vector3) (w : World) (d : DraggedVertex.t) (g : nat) (geometry : BufferGeometry) :
  draggedVertex (store w) = Some d →
  selectedMesh w = Some (g, geometry) →
  ∃ geometry',
    geoms (updateVertexDrag t w) !! g = Some geometry'
    ∧ count (position geometry') = count (position geometry)
    ∧ (∀ i, i ∈ DraggedVertex.indices d → i < count (position geometry) →
         array (position geometry') !! i = Some (float32 t))
    ∧ (∀ i, i ∉ DraggedVertex.indices d →
         array (position geometry') !! i = array (position geometry) !! i)
    ∧ draggedVertex (store (updateVertexDrag t w))
      = Some (DraggedVertex.mk (DraggedVertex.indices d) t (DraggedVertex.initialPosition d)).
Proof.
  intros Hd Hm. unfold updateVertexDrag. rewrite Hd, Hm. simpl.
  eexists. split; [apply lookup_insert_eq|]. simpl.
  split_and!.
  - unfold count at 1. simpl. apply writeAll_count.
  - by apply writeAll_inside.
  - intros i Hi. by apply writeAll_outside.
  - by rewrite clone_id.
Qed.

(** C1 does not hold as stated.  The position buffer is a [Float32Array]:
    with vertices 2 and 3 of the bowtie grabbed, the target (0.1, 0.2, 0.3)
    is stored rounded to single precision, and both vertices read back
    (0.100000001490116..., 0.200000002980232..., 0.300000011920928...),
    not the target.  And an index of the group that the buffer of the
    selected mesh does not have is not set at all: with the triangle
    selected in the middle of the drag, index 3 of the group has no
    entry. *)
Lemma vertex_target_is_stored_in_single_precision :
  let t := mkVector3 (JS.decimal 1 1) (JS.decimal 2 1) (JS.decimal 3 1) in
  let dragging := startVertexDrag 2 (Sample.v 1 1 0) (Sample.scene (Some 1)) in
  let switched := setSelectedObject (Some 2) dragging in
  (DraggedVertex.indices <$> draggedVertex (store dragging)) = Some [2; 3]
  ∧ (array ∘ position <$> geoms (updateVertexDrag t dragging) !! 11)
    = Some [Sample.v 0 0 0; Sample.v 1 0 0; float32 t; float32 t;
            Sample.v 2 1 0; Sample.v 2 2 0]
  ∧ float32 t
    = mkVector3 (S754_finite false 7205759511166976 (-56))
        (S754_finite false 7205759511166976 (-55))
        (S754_finite false 5404319767592960 (-54))
  ∧ t = mkVector3 (S754_finite false 7205759403792794 (-56))
          (S754_finite false 7205759403792794 (-55))
          (S754_finite false 5404319552844595 (-54))
  ∧ (array ∘ position <$> geoms (updateVertexDrag (Sample.v 9 9 9) switched) !! 12)
    = Some [Sample.v 5 5 5; Sample.v 6 5 5; Sample.v 9 9 9]
  ∧ ¬ (∀ (w : World) (t : Vector3) (d : DraggedVertex.t) (g : nat)
         (geometry geometry' : BufferGeometry),
         draggedVertex (store w) = Some d →
         selectedMesh w = Some (g, geometry) →
         geoms (updateVertexDrag t w) !! g = Some geometry' →
         ∀ i, i ∈ DraggedVertex.indices d → array (position geometry') !! i = Some t).
Proof.
  do 5 (split; [vm_compute; reflexivity|]).
  intros H.
  specialize (H (startVertexDrag 2 (Sample.v 1 1 0) (Sample.scene (Some 1)))
                (mkVector3 (JS.decimal 1 1) (JS.decimal 2 1) (JS.decimal 3 1))
                _ 11 Sample.bowtie _ eq_refl eq_refl eq_refl 2).
  assert (Hin : 2 ∈ [2; 3]) by (by left).
  apply H in Hin. vm_compute in Hin. discriminate Hin.
Qed.

(** C1 (as the code has it). In an open vertex-drag session on a selected
    mesh, [updateVertexDrag t] stores [t] at every index of the session's
    group that the buffer has: each of these vertices reads back [t]
    rounded to single precision, so that they all coincide (at [t] itself
    when the coordinates of [t] are single-precision values).  It keeps
    every other entry and the vertex count, and records [t], unrounded, as
    the session's live position. *)
Theorem updateVertexDrag_collapses_group
    (t : Vector3) (w : World) (d : DraggedVertex.t) (g : nat) (geometry : BufferGeometry) :
  draggedVertex (store w) = Some d →
  selectedMesh w = Some (g, geometry) →
  ∃ geometry',
    geoms (updateVertexDrag t w) !! g = Some geometry'
    ∧ count (position geometry') = count (position geometry)
    ∧ (∀ i, i ∈ DraggedVertex.indices d → i < count (position geometry) →
         array (position geometry') !! i = Some (float32 t)
         ∧ getXYZ (position geometry') i = float32 t)
    ∧ (float32 t = t →
       ∀ i, i ∈ DraggedVertex.indices d → i < count (position geometry) →
            getXYZ (position geometry') i = t)
    ∧ (∀ i, i ∉ DraggedVertex.indices d →
         array (position geometry') !! i = array (position geometry) !! i)
    ∧ draggedVertex (store (updateVertexDrag t w))
      = Some (DraggedVertex.mk (DraggedVertex.indices d) t (DraggedVertex.initialPosition d)).
Proof.
  intros Hd Hm.
  destruct (updateVertexDrag_writes t w d g geometry Hd Hm)
    as (geometry' & Hg & Hc & Hin & Hout & Hs).
  exists geometry'. split_and!; try done.
  - intros i Hi Hlt. split; [by apply Hin|].
    unfold getXYZ. by rewrite Hin.
  - intros Hsingle i Hi Hlt. unfold getXYZ. by rewrite Hin, Hsingle.
Qed.

Lemma updateVertexDrag_collapses_group_witness :
  ∃ geometry',
    geoms (updateVertexDrag (Sample.v 2 2 2)
             (startVertexDrag 2 (Sample.v 1 1 0) (Sample.scene (Some 1)))) !! 11
    = Some geometry'
    ∧ array (position geometry') !! 2 = Some (float32 (Sample.v 2 2 2))
    ∧ array (position geometry') !! 3 = Some (float32 (Sample.v 2 2 2)).
Proof.
  destruct (updateVertexDrag_collapses_group (Sample.v 2 2 2)
              (startVertexDrag 2 (Sample.v 1 1 0) (Sample.scene (Some 1)))
              (DraggedVertex.mk [2; 3] (Sample.v 1 1 0) (Sample.v 1 1 0))
              11 Sample.bowtie eq_refl eq_refl)
    as (geometry' & Hg & _ & Hin & _).
  exists geometry'. split; [exact Hg|].
  split; apply Hin; simpl; try lia; repeat constructor.
Defined.

(** ** The coincidence group of a vertex *)

Lemma overlapScan_filter (a : BufferAttribute) (sel : Vector3) (n i : nat) (acc : list nat) :
  overlapScan a sel n i acc
  = acc ++ List.filter (fun j => distanceTo_lt (getXYZ a j) sel epsilon) (seq i n).
Proof.
  revert i acc. induction n as [|n IH]; intros i acc; simpl.
  - by rewrite app_nil_r.
  - rewrite IH. destruct (distanceTo_lt (getXYZ a i) sel epsilon); [|done].
    by rewrite <- app_assoc.
Qed.

Lemma filter_seq_ascending (f : nat → bool) (n i : nat) :
  StronglySorted lt (List.filter f (seq i n)).
Proof.
  revert i. induction n as [|n IH]; intros i; simpl; [constructor|].
  destruct (f i); [|apply IH].
  constructor; [apply IH|].
  apply List.Forall_forall. intros j Hj.
  apply filter_In in Hj as [Hj _]. apply in_seq in Hj. lia.
Qed.

(** C2 does not hold as stated.  The distance is computed in double
    precision and compared with the double [0.0001].  In the grazing mesh
    the Euclidean distance of vertex 1 from vertex 0 is below 1/10000 (its
    square is 1e-8 - 3.4e-26), but the computed sum of squares rounds up,
    its square root is the double [0.0001] itself, and vertex 1 is left out
    of the group of vertex 0.  And a vertex with a coordinate that is not
    finite is not in its own group: after the bowtie's vertices 2 and 3
    were dragged to x = 1e39, which the buffer stores as [Infinity], the
    group grabbed at vertex 2 is empty. *)
Lemma coincidence_is_tested_in_double_precision :
  let far := updateVertexDrag (Sample.v (10 ^ 39) 0 0)
               (startVertexDrag 2 (Sample.v 1 1 0) (Sample.scene (Some 1))) in
  (euclideanDistance (getXYZ (position Sample.grazing) 1)
     (getXYZ (position Sample.grazing) 0) < Q2R (1 # 10000))%R
  ∧ distanceTo (getXYZ (position Sample.grazing) 1) (getXYZ (position Sample.grazing) 0)
    = epsilon
  ∧ (DraggedVertex.indices
       <$> draggedVertex (store (startVertexDrag 0 (Sample.v 0 0 0) Sample.grazingScene)))
    = Some [0]
  ∧ (array ∘ position <$> geoms far !! 11)
    = Some [Sample.v 0 0 0; Sample.v 1 0 0;
            mkVector3 (S754_infinity false) (JS.ofZ 0) (JS.ofZ 0);
            mkVector3 (S754_infinity false) (JS.ofZ 0) (JS.ofZ 0);
            Sample.v 2 1 0; Sample.v 2 2 0]
  ∧ (DraggedVertex.indices
       <$> draggedVertex (store (startVertexDrag 2 (Sample.v 1 1 0) far)))
    = Some []
  ∧ ¬ (∀ (w : World) (i : nat) (p : Vector3) (g : nat) (geometry : BufferGeometry)
         (d : DraggedVertex.t),
         selectedMesh w = Some (g, geometry) →
         i < count (position geometry) →
         draggedVertex (store (startVertexDrag i p w)) = Some d →
         i ∈ DraggedVertex.indices d
         ∧ ∀ j, j ∈ DraggedVertex.indices d
                ↔ j < count (position geometry)
                  ∧ (euclideanDistance (getXYZ (position geometry) j)
                       (getXYZ (position geometry) i) < Q2R (1 # 10000))%R).
Proof.
  assert (Hnear :
    (euclideanDistance (getXYZ (position Sample.grazing) 1)
       (getXYZ (position Sample.grazing) 0) < Q2R (1 # 10000))%R).
  { apply euclideanDistance_lt; [done|]. vm_compute. reflexivity. }
  split; [exact Hnear|].
  do 4 (split; [vm_compute; reflexivity|]).
  intros H.
  destruct (H Sample.grazingScene 0 (Sample.v 0 0 0) 11 Sample.grazing
              (DraggedVertex.mk [0] (Sample.v 0 0 0) (Sample.v 0 0 0)) eq_refl)
    as [_ Hgroup]; [unfold count; simpl; lia | reflexivity |].
  assert (Hin : 1 ∈ [0]).
  { apply Hgroup. split; [unfold count; simpl; lia | exact Hnear]. }
  apply elem_of_cons in Hin as [Hin | Hin]; [done | by apply elem_of_nil in Hin].
Qed.

(** C2 (as the code has it). On a selected mesh, the group captured by
    [startVertexDrag] at a clicked index [i] holds exactly the indices [j]
    of the buffer for which the distance of the two points, as the code
    computes it in double precision, compares strictly below the double
    [0.0001]; it contains [i] itself when [i] is an index of the buffer
    whose point has finite coordinates; it is strictly ascending; and it
    is also the new vertex selection. *)
Theorem startVertexDrag_group
    (i : nat) (p : Vector3) (w : World) (g : nat) (geometry : BufferGeometry) :
  selectedMesh w = Some (g, geometry) →
  ∃ d,
    draggedVertex (store (startVertexDrag i p w)) = Some d
    ∧ (∀ j, j ∈ DraggedVertex.indices d ↔
            j < count (position geometry)
            ∧ JS.lt (distanceTo (getXYZ (position geometry) j)
                       (getXYZ (position geometry) i)) epsilon = true)
    ∧ (i < count (position geometry) →
       isFinite (getXYZ (position geometry) i) = true →
       i ∈ DraggedVertex.indices d)
    ∧ StronglySorted lt (DraggedVertex.indices d)
    ∧ SelectedElements.vertices (selectedElements (store (startVertexDrag i p w)))
      = DraggedVertex.indices d.
Proof.
  intros Hm. unfold startVertexDrag. rewrite Hm. simpl.
  eexists. split; [reflexivity|]. simpl.
  rewrite overlapScan_filter. simpl.
  assert (Hmem : ∀ j,
    j ∈ List.filter (fun j => distanceTo_lt (getXYZ (position geometry) j)
                                (getXYZ (position geometry) i) epsilon)
          (seq 0 (count (position geometry)))
    ↔ j < count (position geometry)
      ∧ JS.lt (distanceTo (getXYZ (position geometry) j)
                 (getXYZ (position geometry) i)) epsilon = true).
  { intros j. rewrite list_elem_of_In, filter_In, in_seq.
    unfold distanceTo_lt. intuition lia. }
  split_and!.
  - apply Hmem.
  - intros Hi Hfinite. apply Hmem. split; [done|].
    by apply distanceTo_lt_self.
  - apply filter_seq_ascending.
  - reflexivity.
Qed.

Lemma startVertexDrag_group_witness :
  ∃ d,
    draggedVertex (store (startVertexDrag 2 (Sample.v 1 1 0) (Sample.scene (Some 1))))
    = Some d
    ∧ 2 ∈ DraggedVertex.indices d
    ∧ StronglySorted lt (DraggedVertex.indices d).
Proof.
  destruct (startVertexDrag_group 2 (Sample.v 1 1 0) (Sample.scene (Some 1))
              11 Sample.bowtie eq_refl) as (d & Hd & _ & Hin & Hs & _).
  exists d. split; [exact Hd|]. split; [|exact Hs].
  apply Hin; [unfold count; simpl; lia | reflexivity].
Defined.

(** ** Removing an object *)

Lemma filter_by_id (id : string) (l : list SceneObject.t) :
  List.filter (fun obj => negb (String.eqb (SceneObject.id obj) id)) l
  = filter (fun obj => SceneObject.id obj ≠ id) l.
Proof.
  induction l as [|e l IH]; [done|]. simpl. rewrite filter_cons, IH.
  destruct (String.eqb_spec (SceneObject.id e) id); simpl; by case_decide.
Qed.

Lemma find_by_id_absent (id : string) (l : list SceneObject.t) :
  (∀ e, e ∈ l → SceneObject.id e ≠ id) →
  List.find (fun obj => String.eqb (SceneObject.id obj) id) l = None.
Proof.
  induction l as [|e l IH]; intros H; [done|]. simpl.
  destruct (String.eqb_spec (SceneObject.id e) id) as [E|_].
  - destruct (H e); [by left|done].
  - apply IH. intros e' He'. apply H. by right.
Qed.

Lemma find_by_id_first (id : string) (l1 l2 : list SceneObject.t) (e : SceneObject.t) :
  SceneObject.id e = id →
  (∀ e', e' ∈ l1 → SceneObject.id e' ≠ id) →
  List.find (fun obj => String.eqb (SceneObject.id obj) id) (l1 ++ e :: l2) = Some e.
Proof.
  intros He. induction l1 as [|e1 l1 IH]; intros H; simpl.
  - by rewrite He, String.eqb_refl.
  - destruct (String.eqb_spec (SceneObject.id e1) id) as [E|_].
    + destruct (H e1); [by left|done].
    + apply IH. intros e' He'. apply H. by right.
Qed.

Lemma filter_by_id_absent (id : string) (l : list SceneObject.t) :
  (∀ e, e ∈ l → SceneObject.id e ≠ id) →
  filter (fun obj => SceneObject.id obj ≠ id) l = l.
Proof.
  induction l as [|e l IH]; intros H; [done|]. rewrite filter_cons.
  rewrite decide_True by (apply H; by left).
  f_equal. apply IH. intros e' He'. apply H. by right.
Qed.

(** C10. [removeObject id] keeps exactly the entries whose id differs from
    [id], in their order (when one entry has that id, the list is the old
    one without it); [selectedObject] becomes [null] when the first entry
    with that id holds the selected object and is unchanged otherwise, also
    when no entry has that id; the transform and edit modes, the selection
    lists, both drag sessions and the THREE objects are unchanged. *)
Theorem removeObject_removes_entry (id : string) (w : World) :
  let s := store w in
  let s' := store (removeObject id w) in
  objects s' = filter (fun obj => SceneObject.id obj ≠ id) (objects s)
  ∧ (∀ e, e ∈ objects s' ↔ e ∈ objects s ∧ SceneObject.id e ≠ id)
  ∧ (∀ l1 e l2,
       objects s = l1 ++ e :: l2 →
       SceneObject.id e = id →
       (∀ e', e' ∈ l1 ++ l2 → SceneObject.id e' ≠ id) →
       objects s' = l1 ++ l2
       ∧ selectedObject s'
         = (if decide (selectedObject s = Some (SceneObject.object e))
            then None else selectedObject s))
  ∧ ((∀ e, e ∈ objects s → SceneObject.id e ≠ id) →
       objects s' = objects s ∧ selectedObject s' = selectedObject s)
  ∧ transformMode s' = transformMode s
  ∧ editMode s' = editMode s
  ∧ selectedElements s' = selectedElements s
  ∧ draggedVertex s' = draggedVertex s
  ∧ draggedEdge s' = draggedEdge s
  ∧ objs (removeObject id w) = objs w
  ∧ geoms (removeObject id w) = geoms w.
Proof.
  simpl. rewrite filter_by_id. split_and!; try reflexivity.
  - intros e. rewrite list_elem_of_filter. tauto.
  - intros l1 e l2 Hsplit He Hothers. rewrite Hsplit. split.
    + rewrite filter_app, filter_cons, decide_False by (intros H; by apply H).
      rewrite !filter_by_id_absent; [done| |];
        intros e' He'; apply Hothers, elem_of_app; auto.
    + rewrite (find_by_id_first id l1 l2 e He)
        by (intros e' He'; apply Hothers, elem_of_app; auto).
      destruct (selectedObject (store w)) as [sel|]; [|by rewrite decide_False].
      destruct (Nat.eqb_spec (SceneObject.object e) sel) as [->|Hne].
      * by rewrite decide_True.
      * rewrite decide_False; [done|]. by intros [= ->].
  - intros Habsent. rewrite find_by_id_absent by done.
    by rewrite filter_by_id_absent.
Qed.

Lemma removeObject_removes_entry_witness :
  objects (store (removeObject "a" (Sample.scene (Some 1)))) = tail Sample.entries
  ∧ selectedObject (store (removeObject "a" (Sample.scene (Some 1)))) = None.
Proof.
  destruct (removeObject_removes_entry "a" (Sample.scene (Some 1)))
    as (_ & _ & Hsplit & _).
  destruct (Hsplit [] (SceneObject.mk "a" 1 "Bowtie" true) (tail Sample.entries))
    as [Ho Hs]; [reflexivity | reflexivity | | ].
  - intros e' He'. simpl in He'.
    repeat (apply elem_of_cons in He' as [-> | He']; [by simpl|]).
    by apply elem_of_nil in He'.
  - split; [exact Ho | exact Hs].
Defined.

(** ** Resolution change *)

Lemma cylinderParametersOf_guard (c : GeometryClass) (n : Q) :
  instanceofCylinderGeometry c = true ↔ is_Some (cylinderParametersOf c n).
Proof. destruct c; simpl; split; intros H; try done; by destruct H. Qed.

Lemma sphereParametersOf_guard (c : GeometryClass) (n : Q) :
  instanceofSphereGeometry c = true ↔ is_Some (sphereParametersOf c n).
Proof. destruct c; simpl; split; intros H; try done; by destruct H. Qed.

Lemma cylinderParametersOf_segments (c : GeometryClass) (n : Q) (p : CylinderParameters) :
  cylinderParametersOf c n = Some p → radialSegments p = n.
Proof. destruct c; simpl; intros [= <-]; reflexivity. Qed.

Lemma sphereParametersOf_segments (c : GeometryClass) (n : Q) (p : SphereParameters) :
  sphereParametersOf c n = Some p →
  widthSegments p = n ∧ sphere_heightSegments p = (n / 2)%Q.
Proof. destruct c; simpl; intros [= <-]; split; reflexivity. Qed.

(** What [replaceGeometry] leaves behind. *)
Lemma replaceGeometry_spec (w : World) (o g : nat) (old new : BufferGeometry) :
  objs w !! o = Some (Mesh g) →
  geoms w !! g = Some old →
  let w' := replaceGeometry w o g old new in
  let g' := fresh (dom (geoms w)) in
  (g' ∉ dom (geoms w))
  ∧ objs w' !! o = Some (Mesh g')
  ∧ geoms w' !! g' = Some new
  ∧ geoms w' !! g = Some (dispose old)
  ∧ selectedElements (store w') = emptySelection
  ∧ objects (store w') = objects (store w)
  ∧ selectedObject (store w') = selectedObject (store w)
  ∧ draggedVertex (store w') = draggedVertex (store w)
  ∧ draggedEdge (store w') = draggedEdge (store w).
Proof.
  intros Ho Hg. simpl.
  pose proof (is_fresh (dom (geoms w))) as Hfresh.
  split_and!; try done.
  - apply lookup_insert_eq.
  - apply lookup_insert_eq.
  - rewrite lookup_insert_ne, lookup_insert_eq; [done|].
    intros E. apply Hfresh. rewrite E. apply elem_of_dom. by eexists.
Qed.

(** C8. [updateCylinderVertices] and [updateSphereVertices] return the
    world as it is when the selected object is not a mesh whose geometry
    passes the action's [instanceof] test.  When it passes, the selected
    mesh points to a freshly built geometry of that kind, with the
    requested segment count and the other parameters read from the old
    geometry, and the three selection lists are empty; the rest of the
    store is unchanged. *)
Theorem resolution_change_guarded
    (cylinderBuffers : CylinderParameters → list Vector3 * list nat)
    (sphereBuffers : SphereParameters → list Vector3 * list nat)
    (vertexCount : Q) (w : World) :
  (selectedGeometryIs instanceofCylinderGeometry w = false →
     updateCylinderVertices cylinderBuffers vertexCount w = w)
  ∧ (selectedGeometryIs instanceofSphereGeometry w = false →
     updateSphereVertices sphereBuffers vertexCount w = w)
  ∧ (∀ o g old,
       selectedObject (store w) = Some o →
       objs w !! o = Some (Mesh g) →
       geoms w !! g = Some old →
       instanceofCylinderGeometry (class old) = true →
       let w' := updateCylinderVertices cylinderBuffers vertexCount w in
       ∃ g' p,
         cylinderParametersOf (class old) vertexCount = Some p
         ∧ radialSegments p = vertexCount
         ∧ (g' ∉ dom (geoms w))
         ∧ selectedMesh w' = Some (g', newCylinderGeometry cylinderBuffers p)
         ∧ selectedElements (store w') = emptySelection
         ∧ objects (store w') = objects (store w)
         ∧ selectedObject (store w') = selectedObject (store w)
         ∧ draggedVertex (store w') = draggedVertex (store w)
         ∧ draggedEdge (store w') = draggedEdge (store w))
  ∧ (∀ o g old,
       selectedObject (store w) = Some o →
       objs w !! o = Some (Mesh g) →
       geoms w !! g = Some old →
       instanceofSphereGeometry (class old) = true →
       let w' := updateSphereVertices sphereBuffers vertexCount w in
       ∃ g' p,
         sphereParametersOf (class old) vertexCount = Some p
         ∧ widthSegments p = vertexCount
         ∧ (g' ∉ dom (geoms w))
         ∧ selectedMesh w' = Some (g', newSphereGeometry sphereBuffers p)
         ∧ selectedElements (store w') = emptySelection
         ∧ objects (store w') = objects (store w)
         ∧ selectedObject (store w') = selectedObject (store w)
         ∧ draggedVertex (store w') = draggedVertex (store w)
         ∧ draggedEdge (store w') = draggedEdge (store w)).
Proof.
  split_and!.
  - unfold selectedGeometryIs, selectedMesh, updateCylinderVertices.
    destruct (selectedObject (store w)) as [o|]; [|done].
    destruct (objs w !! o) as [[g|]|]; try done.
    destruct (geoms w !! g) as [old|]; [|done].
    intros H. destruct (cylinderParametersOf (class old) vertexCount) eqn:E; [|done].
    assert (instanceofCylinderGeometry (class old) = true)
      by (eapply cylinderParametersOf_guard; by rewrite E).
    congruence.
  - unfold selectedGeometryIs, selectedMesh, updateSphereVertices.
    destruct (selectedObject (store w)) as [o|]; [|done].
    destruct (objs w !! o) as [[g|]|]; try done.
    destruct (geoms w !! g) as [old|]; [|done].
    intros H. destruct (sphereParametersOf (class old) vertexCount) eqn:E; [|done].
    assert (instanceofSphereGeometry (class old) = true)
      by (eapply sphereParametersOf_guard; by rewrite E).
    congruence.
  - intros o g old Hsel Ho Hg Hclass. simpl.
    apply (cylinderParametersOf_guard _ vertexCount) in Hclass as [p Hp].
    unfold updateCylinderVertices. rewrite Hsel, Ho, Hg, Hp.
    destruct (replaceGeometry_spec w o g old
                (newCylinderGeometry cylinderBuffers p) Ho Hg)
      as (Hfresh & Ho' & Hg' & _ & Hsel' & Hobjs & Hso & Hdv & Hde).
    exists (fresh (dom (geoms w))), p. split_and!; try done.
    + by eapply cylinderParametersOf_segments.
    + unfold selectedMesh. simpl in *. by rewrite Hsel, Ho', Hg'.
  - intros o g old Hsel Ho Hg Hclass. simpl.
    apply (sphereParametersOf_guard _ vertexCount) in Hclass as [p Hp].
    unfold updateSphereVertices. rewrite Hsel, Ho, Hg, Hp.
    destruct (replaceGeometry_spec w o g old
                (newSphereGeometry sphereBuffers p) Ho Hg)
      as (Hfresh & Ho' & Hg' & _ & Hsel' & Hobjs & Hso & Hdv & Hde).
    exists (fresh (dom (geoms w))), p. split_and!; try done.
    + by eapply sphereParametersOf_segments.
    + unfold selectedMesh. simpl in *. by rewrite Hsel, Ho', Hg'.
Qed.

Lemma resolution_change_guarded_witness :
  updateCylinderVertices Sample.cylinderBuffers 16 (Sample.scene (Some 1))
  = Sample.scene (Some 1)
  ∧ ∃ g' p,
      selectedMesh (updateSphereVertices Sample.sphereBuffers 16 (Sample.scene (Some 5)))
      = Some (g', newSphereGeometry Sample.sphereBuffers p)
      ∧ widthSegments p = 16%Q.
Proof.
  split.
  - apply (resolution_change_guarded Sample.cylinderBuffers Sample.sphereBuffers 16
             (Sample.scene (Some 1))). reflexivity.
  - destruct (resolution_change_guarded Sample.cylinderBuffers Sample.sphereBuffers 16
                (Sample.scene (Some 5))) as (_ & _ & _ & Hsphere).
    destruct (Hsphere 5 15 Sample.sphere) as (g' & p & _ & Hn & _ & Hm & _);
      try reflexivity.
    exists g', p. split; [exact Hm | exact Hn].
Defined.

(** ** Changing the selected object during a drag *)

(** C6 does not hold as stated.  Switching the selected object in the
    middle of a vertex drag does not close the session, and the next [updateVertexDrag] writes into the
    buffer of the newly selected mesh: vertices 2 and 3 of the bowtie were
    grabbed, the triangle is selected, and the triangle's vertex 2 moves
    to the target. *)
Lemma switch_target_mid_drag_moves_new_target :
  let dragging := startVertexDrag 2 (Sample.v 1 1 0) (Sample.scene (Some 1)) in
  let switched := setSelectedObject (Some 2) dragging in
  let moved := updateVertexDrag (Sample.v 9 9 9) switched in
  (DraggedVertex.indices <$> draggedVertex (store switched)) = Some [2; 3]
  ∧ (array ∘ position <$> geoms switched !! 12)
    = Some [Sample.v 5 5 5; Sample.v 6 5 5; Sample.v 5 6 5]
  ∧ (array ∘ position <$> geoms moved !! 12)
    = Some [Sample.v 5 5 5; Sample.v 6 5 5; Sample.v 9 9 9]
  ∧ ¬ (∀ (w : World) (o : option nat) (t : Vector3),
         is_Some (draggedVertex (store w)) →
         geoms (updateVertexDrag t (setSelectedObject o w))
         = geoms (setSelectedObject o w)).
Proof.
  split_and!; try reflexivity.
  intros H.
  specialize (H (startVertexDrag 2 (Sample.v 1 1 0) (Sample.scene (Some 1)))
                (Some 2) (Sample.v 9 9 9) (ltac:(by eexists))).
  apply (f_equal (fun m => array ∘ position <$> m !! 12)) in H.
  vm_compute in H. discriminate H.
Qed.

(** C6 (as the code has it). [setSelectedObject] changes [selectedObject]
    only: an open drag session stays open, and no buffer is touched.  The
    next update is a no-op when the new selected object is [null] or not a
    mesh; when it is a mesh, [updateVertexDrag t] stores [t] at every
    session index that the new target's buffer has, which then reads back
    [t] rounded to single precision. *)
Theorem setSelectedObject_keeps_session (o : option nat) (t : Vector3) (w : World) :
  let w' := setSelectedObject o w in
  selectedObject (store w') = o
  ∧ draggedVertex (store w') = draggedVertex (store w)
  ∧ draggedEdge (store w') = draggedEdge (store w)
  ∧ selectedElements (store w') = selectedElements (store w)
  ∧ objs w' = objs w
  ∧ geoms w' = geoms w
  ∧ (selectedMesh w' = None →
       updateVertexDrag t w' = w' ∧ updateEdgeDrag t w' = Returned w')
  ∧ (∀ d g geometry,
       draggedVertex (store w) = Some d →
       selectedMesh w' = Some (g, geometry) →
       ∃ geometry',
         geoms (updateVertexDrag t w') !! g = Some geometry'
         ∧ ∀ i, i ∈ DraggedVertex.indices d → i < count (position geometry) →
                array (position geometry') !! i = Some (float32 t)).
Proof.
  simpl. split_and!; try reflexivity.
  - intros Hm. unfold updateVertexDrag, updateEdgeDrag. rewrite Hm.
    split; [by destruct (draggedVertex _) | by destruct (draggedEdge _)].
  - intros d g geometry Hd Hm.
    destruct (updateVertexDrag_writes t (setSelectedObject o w) d g geometry Hd Hm)
      as (geometry' & Hg & _ & Hin & _).
    exists geometry'. split; [exact Hg|]. intros i Hi Hlt. by apply Hin.
Qed.

Lemma setSelectedObject_keeps_session_witness :
  updateVertexDrag (Sample.v 9 9 9)
    (setSelectedObject (Some 3)
       (startVertexDrag 2 (Sample.v 1 1 0) (Sample.scene (Some 1))))
  = setSelectedObject (Some 3)
      (startVertexDrag 2 (Sample.v 1 1 0) (Sample.scene (Some 1))).
Proof.
  apply (setSelectedObject_keeps_session (Some 3) (Sample.v 9 9 9)
           (startVertexDrag 2 (Sample.v 1 1 0) (Sample.scene (Some 1)))).
  reflexivity.
Defined.

(** ** Edge drag: the writes of one update *)

Lemma applyWrites_length (ws : list (nat * Vector3)) (l : list Vector3) :
  length (applyWrites ws l) = length l.
Proof.
  revert l. induction ws as [|[i v] ws IH]; intros l; [done|].
  unfold applyWrites in *. simpl. by rewrite IH, length_insert.
Qed.

Lemma applyWrites_app (ws1 ws2 : list (nat * Vector3)) (l : list Vector3) :
  applyWrites (ws1 ++ ws2) l = applyWrites ws2 (applyWrites ws1 l).
Proof. unfold applyWrites. apply foldl_app. Qed.

Lemma applyWrites_untouched (ws : list (nat * Vector3)) (l : list Vector3) (i : nat) :
  i ∉ ws.*1 → applyWrites ws l !! i = l !! i.
Proof.
  revert l. induction ws as [|[j v] ws IH]; intros l Hi; [done|].
  rewrite fmap_cons in Hi. apply not_elem_of_cons in Hi as [Hne Hi].
  unfold applyWrites in *. simpl. rewrite IH by done.
  by apply list_lookup_insert_ne.
Qed.

(** A write that is repeated at the end absorbs an earlier copy of itself. *)
Lemma applyWrites_absorb (ws : list (nat * Vector3)) (i : nat) (v : Vector3)
    (l : list Vector3) :
  <[i := v]> (applyWrites ws (<[i := v]> l)) = <[i := v]> (applyWrites ws l).
Proof.
  revert l. induction ws as [|[j u] ws IH]; intros l.
  - unfold applyWrites. simpl. apply list_insert_insert_eq.
  - unfold applyWrites in *. simpl.
    destruct (decide (i = j)) as [->|Hne].
    + by rewrite list_insert_insert_eq.
    + rewrite (list_insert_insert_ne l j i) by done. apply IH.
Qed.

(** Replaying a sequence of writes changes nothing. *)
Lemma applyWrites_idempotent (ws : list (nat * Vector3)) (l : list Vector3) :
  applyWrites ws (applyWrites ws l) = applyWrites ws l.
Proof.
  revert l. induction ws as [|[i v] ws IH] using rev_ind; intros l; [done|].
  rewrite !applyWrites_app. unfold applyWrites at 1 3. simpl.
  rewrite <- (IH l) at 2.
  set (l' := applyWrites ws l).
  unfold applyWrites at 2. simpl. fold (applyWrites ws (<[i:=v]> l')).
  apply applyWrites_absorb.
Qed.

(** [moveEdges] performs the writes of [edgeWrites]. *)
Lemma moveEdges_edgeWrites (offset : Vector3) (snapshot : list Vector3)
    (pairs : list (nat * nat)) (index : nat) (a : BufferAttribute) :
  moveEdges offset snapshot pairs index a
  = (mkAttribute (applyWrites (edgeWrites offset snapshot pairs index).1 (array a))
       (version a),
     (edgeWrites offset snapshot pairs index).2).
Proof.
  revert index a. induction pairs as [|[v1 v2] pairs IH]; intros index a; simpl.
  - by destruct a.
  - destruct (snapshot !! (index * 2)) as [s1|]; [|by destruct a].
    destruct (snapshot !! (index * 2 + 1)) as [s2|]; [|by destruct a].
    rewrite IH. destruct (edgeWrites offset snapshot pairs (S index)) as [ws c].
    cbn [fst snd]. by rewrite !setXYZ_array, !clone_id.
Qed.

Lemma selectedMesh_inv (w : World) (g : nat) (geometry : BufferGeometry) :
  selectedMesh w = Some (g, geometry) →
  ∃ o, selectedObject (store w) = Some o
       ∧ objs w !! o = Some (Mesh g)
       ∧ geoms w !! g = Some geometry.
Proof.
  unfold selectedMesh. intros H.
  destruct (selectedObject (store w)) as [o|]; [|done].
  destruct (objs w !! o) as [[g0|]|] eqn:Ho; try done.
  destruct (geoms w !! g0) as [geometry0|] eqn:Hg; [|done].
  injection H as -> ->. by exists o.
Qed.

Lemma selectedMesh_after_write (w : World) (g : nat) (geometry geometry' : BufferGeometry) :
  selectedMesh w = Some (g, geometry) →
  selectedMesh (mkWorld (store w) (objs w) (<[g := geometry']> (geoms w)))
  = Some (g, geometry').
Proof.
  intros (o & Hs & Ho & Hg)%selectedMesh_inv.
  unfold selectedMesh. simpl. by rewrite Hs, Ho, lookup_insert_eq.
Qed.

(** The outcome of [updateEdgeDrag] on a selected mesh with an open edge
    session whose [initialPositions] is not empty. *)
Lemma updateEdgeDrag_on_session (p : Vector3) (w : World) (d : DraggedEdge.t)
    (g : nat) (geometry : BufferGeometry) (initial : Vector3) :
  draggedEdge (store w) = Some d →
  selectedMesh w = Some (g, geometry) →
  DraggedEdge.initialPositions d !! 0 = Some initial →
  let run := edgeWrites (sub p initial) (DraggedEdge.positions d) (DraggedEdge.indices d) 0 in
  ∃ ver,
    updateEdgeDrag p w
    = (if run.2 then Returned else Thrown)
        (mkWorld (store w) (objs w)
           (<[g := withPosition geometry
                     (mkAttribute (applyWrites run.1 (array (position geometry))) ver)]>
              (geoms w))).
Proof.
  intros Hd Hm Hi. simpl. unfold updateEdgeDrag. rewrite Hd, Hm, Hi.
  rewrite moveEdges_edgeWrites, clone_id.
  destruct (edgeWrites _ _ _ _) as [ws [|]]; simpl; eexists; reflexivity.
Qed.

(** ** Edge drag: applying a target twice *)

(** C3. Applying the same target [p] twice with [updateEdgeDrag] leaves
    every position buffer as one application leaves it.  The update never
    changes the store, so the session and its snapshot are the same at
    both applications; the second application ends the way the first one
    did. *)
Theorem updateEdgeDrag_idempotent (p : Vector3) (w : World) :
  let once := updateEdgeDrag p w in
  let twice := updateEdgeDrag p (worldOf once) in
  store (worldOf once) = store w
  ∧ store (worldOf twice) = store (worldOf once)
  ∧ objs (worldOf twice) = objs (worldOf once)
  ∧ (∀ g, (array ∘ position <$> geoms (worldOf twice) !! g)
          = (array ∘ position <$> geoms (worldOf once) !! g))
  ∧ returned twice = returned once.
Proof.
  simpl.
  destruct (draggedEdge (store w)) as [d|] eqn:Hd;
    [|unfold updateEdgeDrag; rewrite Hd; simpl; by rewrite Hd].
  destruct (selectedMesh w) as [[g geometry]|] eqn:Hm;
    [|unfold updateEdgeDrag; rewrite Hd, Hm; simpl; by rewrite Hd, Hm].
  destruct (DraggedEdge.initialPositions d !! 0) as [initial|] eqn:Hi;
    [|unfold updateEdgeDrag; rewrite Hd, Hm, Hi; simpl; by rewrite Hd, Hm, Hi].
  destruct (updateEdgeDrag_on_session p w d g geometry initial Hd Hm Hi)
    as [ver ->].
  set (run := edgeWrites (sub p initial) (DraggedEdge.positions d)
                (DraggedEdge.indices d) 0).
  set (geometry1 := withPosition geometry
                      (mkAttribute (applyWrites run.1 (array (position geometry))) ver)).
  set (w1 := mkWorld (store w) (objs w) (<[g := geometry1]> (geoms w))).
  assert (Hw1 : worldOf ((if run.2 then Returned else Thrown) w1) = w1)
    by (by destruct (run.2)).
  rewrite Hw1.
  destruct (updateEdgeDrag_on_session p w1 d g geometry1 initial Hd
              (selectedMesh_after_write w g geometry geometry1 Hm) Hi)
    as [ver' ->].
  fold run.
  assert (Hw2 : ∀ w2, worldOf ((if run.2 then Returned else Thrown) w2) = w2)
    by (intros; by destruct (run.2)).
  rewrite Hw2. simpl. split_and!; try done.
  - intros g'. destruct (decide (g' = g)) as [->|Hne].
    + rewrite !lookup_insert_eq. simpl. by rewrite applyWrites_idempotent.
    + by rewrite !lookup_insert_ne.
  - by destruct (run.2).
Qed.

(** One update moves the strip's grabbed side; a second update with the
    same target leaves the buffer as it is. *)
Example updateEdgeDrag_twice_on_strip :
  let start := startEdgeDrag [0; 1] [Sample.v 0 0 0; Sample.v 1 0 0] 0
                 (Sample.scene (Some 6)) in
  let once := updateEdgeDrag (Sample.v 0 0 3) (worldOf start) in
  let twice := updateEdgeDrag (Sample.v 0 0 3) (worldOf once) in
  (array ∘ position <$> geoms (worldOf once) !! 16)
  = Some [Sample.v 0 0 3; Sample.v 1 0 3; Sample.v 0 1 0;
          Sample.v 1 1 0; Sample.v 2 1 0; Sample.v 1 2 0]
  ∧ (array ∘ position <$> geoms (worldOf twice) !! 16)
    = (array ∘ position <$> geoms (worldOf once) !! 16).
Proof. vm_compute. split; reflexivity. Qed.

(** ** Edge drag: the captured session *)

Lemma sideMatches_two (vertexIndices : list nat) (p0 p1 : Vector3) (rest : list Vector3)
    (a : BufferAttribute) (v1Index v2Index : nat) :
  sideMatches vertexIndices (p0 :: p1 :: rest) v1Index v2Index
    (getXYZ a v1Index) (getXYZ a v2Index)
  = Some (sideHit vertexIndices p0 p1 a (v1Index, v2Index)).
Proof.
  unfold sideMatches, sideHit. simpl.
  destruct (includes vertexIndices v1Index && includes vertexIndices v2Index);
    [done|]. simpl.
  destruct (distanceTo_lt (getXYZ a v1Index) p0 epsilon); simpl; [|done].
  by destruct (distanceTo_lt (getXYZ a v2Index) p1 epsilon).
Qed.

(** The points pushed for a list of participant pairs. *)
Lemma snapshot_lookup (a : BufferAttribute) (hits : list (nat * nat)) (k v1 v2 : nat) :
  hits !! k = Some (v1, v2) →
  let snapshot := hits ≫= (fun side => [getXYZ a side.1; getXYZ a side.2]) in
  snapshot !! (k * 2) = Some (getXYZ a v1)
  ∧ snapshot !! (k * 2 + 1) = Some (getXYZ a v2).
Proof.
  revert k. induction hits as [|[u1 u2] hits IH]; intros k Hk; [done|].
  destruct k as [|k]; simpl in *.
  - by injection Hk as -> ->.
  - apply IH in Hk as [H1 H2]. split; [exact H1 | exact H2].
Qed.

(** The scan of [startEdgeDrag], when both endpoint positions are given:
    it never throws, and it appends the hits in scan order. *)
Lemma scanSides_two (vertexIndices : list nat) (p0 p1 : Vector3) (rest : list Vector3)
    (a : BufferAttribute) (sides : list (nat * nat)) (acc : EdgeScan) :
  let hits := List.filter (sideHit vertexIndices p0 p1 a) sides in
  scanSides vertexIndices (p0 :: p1 :: rest) a sides acc
  = Some (mkEdgeScan
            (overlappingEdges acc ++ hits)
            (allPositions acc ++ (hits ≫= fun side => [getXYZ a side.1; getXYZ a side.2]))
            (scanEdgeIndices acc
               ++ seq (length (overlappingEdges acc)) (length hits))).
Proof.
  revert acc. induction sides as [|[v1 v2] sides IH]; intros acc; simpl.
  - rewrite !app_nil_r. by destruct acc.
  - rewrite sideMatches_two. simpl.
    destruct (sideHit vertexIndices p0 p1 a (v1, v2)); simpl; [|apply IH].
    rewrite IH. simpl. rewrite !clone_id, length_app. simpl.
    rewrite <- !app_assoc. simpl.
    replace (length (overlappingEdges acc) + 1 - 1) with (length (overlappingEdges acc))
      by lia.
    by replace (length (overlappingEdges acc) + 1) with (S (length (overlappingEdges acc)))
      by lia.
Qed.

(** The session [startEdgeDrag] opens on a selected mesh. *)
Lemma startEdgeDrag_opens (vertexIndices : list nat) (p0 p1 : Vector3)
    (rest : list Vector3) (edgeIndex : nat) (w : World) (g : nat)
    (geometry : BufferGeometry) :
  selectedMesh w = Some (g, geometry) →
  let hits := List.filter (sideHit vertexIndices p0 p1 (position geometry))
                (scannedSides (count (position geometry))) in
  let slots := edgeIndex :: seq 0 (length hits) in
  let d := DraggedEdge.mk hits
             (hits ≫= fun side => [getXYZ (position geometry) side.1;
                                    getXYZ (position geometry) side.2])
             (p0 :: p1 :: rest) slots in
  startEdgeDrag vertexIndices (p0 :: p1 :: rest) edgeIndex w
  = Returned
      (withStore w
         (setDraggedEdge
            (setSelectedElementsField (store w)
               (SelectedElements.mk
                  (SelectedElements.vertices (selectedElements (store w)))
                  slots
                  (SelectedElements.faces (selectedElements (store w)))))
            (Some d))).
Proof.
  intros Hm. simpl. unfold startEdgeDrag. rewrite Hm.
  rewrite scanSides_two. simpl.
  by rewrite !clone_id, map_clone.
Qed.

Lemma scannedSides_spec (n v1 v2 : nat) :
  (v1, v2) ∈ scannedSides n
  ↔ ∃ k j, 3 * k < n ∧ j < 3 ∧ v1 = 3 * k + j ∧ v2 = 3 * k + (j + 1) mod 3.
Proof.
  unfold scannedSides. rewrite list_elem_of_bind. split.
  - intros (k & Hside & Hk). apply elem_of_seq in Hk as [_ Hk].
    pose proof (Nat.Div0.mul_div_le (n + 2) 3) as Hdiv.
    apply list_elem_of_bind in Hside as (j & Hside & Hj).
    apply list_elem_of_singleton in Hside. injection Hside as -> ->.
    exists k, j. split_and!; try done; [lia|].
    repeat (apply elem_of_cons in Hj as [-> | Hj]; [lia|]).
    by apply elem_of_nil in Hj.
  - intros (k & j & Hk & Hj & -> & ->). exists k. split.
    + apply list_elem_of_bind. exists j. split; [apply list_elem_of_singleton; done|].
      destruct j as [|[|[|j]]]; [repeat constructor..|lia].
    + apply elem_of_seq. split; [lia|].
      assert (S k <= (n + 2) / 3); [|lia].
      apply Nat.div_le_lower_bound; lia.
Qed.

(** C9. The scan of [startEdgeDrag] walks the consecutive vertex triples
    of the position buffer, although its comment (line 215) announces all
    edges that share vertices with the selected edge, and although the
    edge handles that call it are derived from the index buffer.  The edge
    (1,3) of the strip is a side of its indexed triangle (2,1,3) and handle
    3 of both [EdgeLines] components; the scan visits the sides (0,1),
    (1,2), (2,0), (3,4), (4,5), (5,3).  When the edge (1,3) is grabbed, the
    session has no participant pair at all: the clicked pair is neither
    among the participants nor the first of them, and the next pointer
    move raises a [TypeError]. *)
Theorem clicked_edge_is_not_a_participant :
  let start := startEdgeDrag [1; 3] [Sample.v 1 0 0; Sample.v 1 1 0] 3
                 (Sample.scene (Some 6)) in
  index Sample.strip = Some [0; 1; 2; 2; 1; 3; 3; 4; 5]
  ∧ Scene.uniqueEdges [(0, 1, 2); (2, 1, 3); (3, 4, 5)] !! 3 = Some (Some 1, Some 3)
  ∧ Scene.edgeHandles [(0, 1, 2); (2, 1, 3); (3, 4, 5)] !! 3 = Some (Some 1, Some 3)
  ∧ scannedSides (count (position Sample.strip))
    = [(0, 1); (1, 2); (2, 0); (3, 4); (4, 5); (5, 3)]
  ∧ returned start = true
  ∧ (∃ d, draggedEdge (store (worldOf start)) = Some d
          ∧ DraggedEdge.indices d = []
          ∧ ((1, 3) ∉ DraggedEdge.indices d)
          ∧ ((3, 1) ∉ DraggedEdge.indices d)
          ∧ head (DraggedEdge.indices d) ≠ Some (1, 3)
          ∧ DraggedEdge.edgeIndices d = [3])
  ∧ View.handlePointerMove (fun anchor => Some anchor) (worldOf start)
    = Thrown (worldOf start).
Proof.
  do 5 (split; [vm_compute; reflexivity|]).
  split; [|vm_compute; reflexivity].
  eexists. split; [vm_compute; reflexivity|]. simpl.
  split_and!; try done; apply not_elem_of_nil.
Qed.

(** ** Edge drag: rigid translation *)

Lemma edgeWrites_captured (offset : Vector3) (snapshot : list Vector3)
    (a0 : BufferAttribute) (pairs : list (nat * nat)) (index : nat) :
  (∀ k v1 v2,
     pairs !! k = Some (v1, v2) →
     snapshot !! ((index + k) * 2) = Some (getXYZ a0 v1)
     ∧ snapshot !! ((index + k) * 2 + 1) = Some (getXYZ a0 v2)) →
  edgeWrites offset snapshot pairs index
  = (pairs ≫= (fun side => [(side.1, float32 (add (getXYZ a0 side.1) offset));
                             (side.2, float32 (add (getXYZ a0 side.2) offset))]),
     true).
Proof.
  revert index. induction pairs as [|[v1 v2] pairs IH]; intros index H; [done|].
  simpl. destruct (H 0 v1 v2 eq_refl) as [H1 H2].
  rewrite Nat.add_0_r in H1, H2. rewrite H1, H2.
  rewrite (IH (S index)); [done|].
  intros k u1 u2 Hk. specialize (H (S k) u1 u2 Hk).
  by replace (S index + k) with (index + S k) by lia.
Qed.

Lemma applyWrites_lookup_fun (f : nat → Vector3) (ws : list (nat * Vector3))
    (l : list Vector3) (i : nat) :
  (∀ j v, (j, v) ∈ ws → v = f j) →
  i ∈ ws.*1 → i < length l →
  applyWrites ws l !! i = Some (f i).
Proof.
  revert l. induction ws as [|[j u] ws IH]; intros l Hf Hi Hlt.
  - by apply elem_of_nil in Hi.
  - change (applyWrites ((j, u) :: ws) l) with (applyWrites ws (<[j := u]> l)).
    destruct (decide (i ∈ ws.*1)) as [Hin|Hout].
    + apply IH; [|done|by rewrite length_insert].
      intros j' v' H'. apply Hf. by right.
    + rewrite applyWrites_untouched by done.
      rewrite fmap_cons in Hi. apply elem_of_cons in Hi as [->|Hin]; [|done].
      simpl. rewrite list_lookup_insert_eq by done.
      f_equal. apply Hf. by left.
Qed.

(** The update of a session that snapshots a buffer. *)
Lemma updateEdgeDrag_translates_captured
    (t : Vector3) (w : World) (d : DraggedEdge.t) (a0 : BufferAttribute)
    (g : nat) (geometry : BufferGeometry) (initial : Vector3) :
  draggedEdge (store w) = Some d →
  capturedFrom a0 d →
  selectedMesh w = Some (g, geometry) →
  DraggedEdge.initialPositions d !! 0 = Some initial →
  let offset := sub t initial in
  ∃ w' geometry',
    updateEdgeDrag t w = Returned w'
    ∧ store w' = store w
    ∧ objs w' = objs w
    ∧ geoms w' = <[g := geometry']> (geoms w)
    ∧ count (position geometry') = count (position geometry)
    ∧ (∀ k v1 v2,
         DraggedEdge.indices d !! k = Some (v1, v2) →
         ∃ s1 s2,
           DraggedEdge.positions d !! (k * 2) = Some s1
           ∧ DraggedEdge.positions d !! (k * 2 + 1) = Some s2
           ∧ (v1 < count (position geometry) →
                array (position geometry') !! v1 = Some (float32 (add s1 offset)))
           ∧ (v2 < count (position geometry) →
                array (position geometry') !! v2 = Some (float32 (add s2 offset))))
    ∧ (∀ i, (∀ v1 v2, (v1, v2) ∈ DraggedEdge.indices d → i ≠ v1 ∧ i ≠ v2) →
            array (position geometry') !! i = array (position geometry) !! i).
Proof.
  intros Hd Hcap Hm Hi offset.
  destruct (updateEdgeDrag_on_session t w d g geometry initial Hd Hm Hi) as [ver Hrun].
  fold offset in Hrun.
  rewrite (edgeWrites_captured offset (DraggedEdge.positions d) a0) in Hrun
    by (intros k v1 v2 Hk; apply (Hcap k v1 v2 Hk)).
  simpl in Hrun. rewrite Hrun. clear Hrun.
  set (f := fun i => float32 (add (getXYZ a0 i) offset)).
  set (ws := DraggedEdge.indices d
             ≫= (fun side => [(side.1, float32 (add (getXYZ a0 side.1) offset));
                               (side.2, float32 (add (getXYZ a0 side.2) offset))])).
  assert (Hfun : ∀ j v, (j, v) ∈ ws → v = f j).
  { intros j v (side & Hjv & _)%list_elem_of_bind.
    apply elem_of_cons in Hjv as [[= -> ->] | Hjv]; [done|].
    apply list_elem_of_singleton in Hjv as [= -> ->]. done. }
  assert (Hdom : ∀ i, i ∈ ws.*1 ↔ ∃ v1 v2, (v1, v2) ∈ DraggedEdge.indices d
                                            ∧ (i = v1 ∨ i = v2)).
  { intros i. rewrite list_elem_of_fmap. split.
    - intros ([j v] & -> & (side & Hjv & Hside)%list_elem_of_bind).
      destruct side as [v1 v2]. exists v1, v2. split; [done|]. simpl in *.
      apply elem_of_cons in Hjv as [[= -> ->] | Hjv]; [by left|].
      apply list_elem_of_singleton in Hjv as [= -> ->]. by right.
    - intros (v1 & v2 & Hside & [-> | ->]).
      + exists (v1, f v1). split; [done|]. apply list_elem_of_bind.
        exists (v1, v2). split; [by left | done].
      + exists (v2, f v2). split; [done|]. apply list_elem_of_bind.
        exists (v1, v2). split; [by right; left | done]. }
  eexists _, _. split; [reflexivity|]. simpl. split_and!; try reflexivity.
  - unfold count. simpl. apply applyWrites_length.
  - intros k v1 v2 Hk. destruct (Hcap k v1 v2 Hk) as [H1 H2].
    exists (getXYZ a0 v1), (getXYZ a0 v2).
    assert (Hside : (v1, v2) ∈ DraggedEdge.indices d)
      by (apply list_elem_of_lookup; by exists k).
    split_and!; try done.
    + intros Hlt. apply (applyWrites_lookup_fun f); [done| |done].
      apply Hdom. exists v1, v2. auto.
    + intros Hlt. apply (applyWrites_lookup_fun f); [done| |done].
      apply Hdom. exists v1, v2. auto.
  - intros i Hfree. apply applyWrites_untouched.
    intros (v1 & v2 & Hside & Hi')%Hdom.
    destruct (Hfree v1 v2 Hside). tauto.
Qed.

(** ** Edge drag: every open session snapshots a buffer *)

Lemma scanSides_snapshot (vertexIndices : list nat) (positions : list Vector3)
    (a : BufferAttribute) (sides : list (nat * nat)) (acc acc' : EdgeScan) :
  scanSides vertexIndices positions a sides acc = Some acc' →
  allPositions acc
  = overlappingEdges acc ≫= (fun side => [getXYZ a side.1; getXYZ a side.2]) →
  allPositions acc'
  = overlappingEdges acc' ≫= (fun side => [getXYZ a side.1; getXYZ a side.2]).
Proof.
  revert acc. induction sides as [|[v1 v2] sides IH]; intros acc; simpl.
  - by intros [= <-].
  - destruct (sideMatches _ _ _ _ _ _) as [[|]|]; simpl; [| apply IH | done].
    intros Hscan Hacc. apply (IH _ Hscan). simpl.
    by rewrite bind_app, Hacc, !clone_id.
Qed.

Lemma startEdgeDrag_captured (vertexIndices : list nat) (positions : list Vector3)
    (edgeIndex : nat) (w : World) :
  sessionCaptured w →
  sessionCaptured (worldOf (startEdgeDrag vertexIndices positions edgeIndex w)).
Proof.
  intros Hw. unfold startEdgeDrag.
  destruct (selectedMesh w) as [[g geometry]|]; [|done].
  destruct (scanSides _ _ _ _ _) as [scan|] eqn:Hscan; [|done].
  intros d [= <-]. exists (position geometry).
  apply scanSides_snapshot in Hscan; [|done].
  intros k v1 v2 Hk. simpl in *. rewrite Hscan. by apply snapshot_lookup.
Qed.

Lemma updateEdgeDrag_store (p : Vector3) (w : World) :
  store (worldOf (updateEdgeDrag p w)) = store w.
Proof.
  unfold updateEdgeDrag.
  destruct (draggedEdge (store w)); [|done].
  destruct (selectedMesh w) as [[g geometry]|]; [|done].
  destruct (_ !! 0); [|done].
  destruct (moveEdges _ _ _ _ _) as [positions [|]]; done.
Qed.

Lemma updateVertexDrag_draggedEdge (p : Vector3) (w : World) :
  draggedEdge (store (updateVertexDrag p w)) = draggedEdge (store w).
Proof.
  unfold updateVertexDrag.
  destruct (draggedVertex (store w)); [|done].
  by destruct (selectedMesh w) as [[g geometry]|].
Qed.

Lemma startVertexDrag_draggedEdge (i : nat) (p : Vector3) (w : World) :
  draggedEdge (store (startVertexDrag i p w)) = draggedEdge (store w).
Proof. unfold startVertexDrag. by destruct (selectedMesh w) as [[g geometry]|]. Qed.

Lemma updateCylinderVertices_draggedEdge
    (cylinderBuffers : CylinderParameters → list Vector3 * list nat) (n : Q) (w : World) :
  draggedEdge (store (updateCylinderVertices cylinderBuffers n w)) = draggedEdge (store w).
Proof.
  unfold updateCylinderVertices.
  destruct (selectedObject (store w)) as [o|]; [|done].
  destruct (objs w !! o) as [[g|]|]; try done.
  destruct (geoms w !! g) as [old|]; [|done].
  by destruct (cylinderParametersOf _ _).
Qed.

Lemma updateSphereVertices_draggedEdge
    (sphereBuffers : SphereParameters → list Vector3 * list nat) (n : Q) (w : World) :
  draggedEdge (store (updateSphereVertices sphereBuffers n w)) = draggedEdge (store w).
Proof.
  unfold updateSphereVertices.
  destruct (selectedObject (store w)) as [o|]; [|done].
  destruct (objs w !! o) as [[g|]|]; try done.
  destruct (geoms w !! g) as [old|]; [|done].
  by destruct (sphereParametersOf _ _).
Qed.

Section Reachable.

Variable cylinderBuffers : CylinderParameters → list Vector3 * list nat.
Variable sphereBuffers : SphereParameters → list Vector3 * list nat.

Lemma perform_sessionCaptured (a : Action) (w : World) :
  sessionCaptured w →
  sessionCaptured (worldOf (perform cylinderBuffers sphereBuffers a w)).
Proof.
  intros Hw. destruct a; simpl; try exact Hw.
  - unfold sessionCaptured. by rewrite startVertexDrag_draggedEdge.
  - unfold sessionCaptured. by rewrite updateVertexDrag_draggedEdge.
  - by apply startEdgeDrag_captured.
  - unfold sessionCaptured. by rewrite updateEdgeDrag_store.
  - by intros d [=].
  - unfold sessionCaptured. by rewrite updateCylinderVertices_draggedEdge.
  - unfold sessionCaptured. by rewrite updateSphereVertices_draggedEdge.
Qed.

Lemma run_sessionCaptured (actions : list Action) (w : World) :
  sessionCaptured w →
  sessionCaptured (run cylinderBuffers sphereBuffers actions w).
Proof.
  revert w. induction actions as [|a actions IH]; intros w Hw; [done|].
  apply IH. by apply perform_sessionCaptured.
Qed.

(** Every edge session of a reachable world snapshots a buffer. *)
Lemma reachable_sessionCaptured (w : World) :
  reachable cylinderBuffers sphereBuffers w → sessionCaptured w.
Proof.
  intros (objs0 & geoms0 & actions & ->).
  apply run_sessionCaptured. by intros d [=].
Qed.

End Reachable.

Lemma sample_reachable (selected : nat) :
  reachable Sample.cylinderBuffers Sample.sphereBuffers (Sample.scene (Some selected)).
Proof.
  exists (objs (Sample.scene None)), (geoms (Sample.scene None)),
    [ AddObject "a" 1 "Bowtie"; AddObject "b" 2 "Triangle"; AddObject "c" 3 "Group";
      AddObject "d" 4 "Cylinder"; AddObject "e" 5 "Sphere"; AddObject "f" 6 "Strip";
      SetEditMode (Some VertexMode); SetSelectedObject (Some selected) ].
  reflexivity.
Qed.

Lemma reachable_step
    (cylinderBuffers : CylinderParameters → list Vector3 * list nat)
    (sphereBuffers : SphereParameters → list Vector3 * list nat)
    (a : Action) (w : World) :
  reachable cylinderBuffers sphereBuffers w →
  reachable cylinderBuffers sphereBuffers
    (worldOf (perform cylinderBuffers sphereBuffers a w)).
Proof.
  intros (objs0 & geoms0 & actions & ->).
  exists objs0, geoms0, (actions ++ [a]). unfold run. by rewrite foldl_app.
Qed.

(** C4 does not hold as stated.  The sums are computed in double
    precision and stored in single precision.  With the side (0, 1) of the
    strip grabbed at (0,0,0) and dragged to x = 33554432 (2^25), the offset
    is (2^25, 0, 0); the endpoint 1, whose snapshot is (1,0,0), should move
    to x = 33554433, which is no single-precision value: it reads back
    x = 33554432, the same point as endpoint 0.  The edge, of length 1 in
    the snapshot, has collapsed to a point. *)
Lemma edge_translation_is_rounded :
  let start := startEdgeDrag [0; 1] [Sample.v 0 0 0; Sample.v 1 0 0] 0
                 (Sample.scene (Some 6)) in
  let t := Sample.v 33554432 0 0 in
  let moved := updateEdgeDrag t (worldOf start) in
  draggedEdge (store (worldOf start))
  = Some (DraggedEdge.mk [(0, 1)] [Sample.v 0 0 0; Sample.v 1 0 0]
            [Sample.v 0 0 0; Sample.v 1 0 0] [0; 0])
  ∧ add (Sample.v 1 0 0) (sub t (Sample.v 0 0 0)) = Sample.v 33554433 0 0
  ∧ returned moved = true
  ∧ (array ∘ position <$> geoms (worldOf moved) !! 16)
    = Some [Sample.v 33554432 0 0; Sample.v 33554432 0 0; Sample.v 0 1 0;
            Sample.v 1 1 0; Sample.v 2 1 0; Sample.v 1 2 0]
  ∧ ¬ (∀ (w : World) (t : Vector3) (d : DraggedEdge.t) (g : nat)
         (geometry geometry' : BufferGeometry) (initial : Vector3) (w' : World),
         reachable Sample.cylinderBuffers Sample.sphereBuffers w →
         draggedEdge (store w) = Some d →
         selectedMesh w = Some (g, geometry) →
         DraggedEdge.initialPositions d !! 0 = Some initial →
         updateEdgeDrag t w = Returned w' →
         geoms w' !! g = Some geometry' →
         ∀ k v1 v2 s1 s2,
           DraggedEdge.indices d !! k = Some (v1, v2) →
           DraggedEdge.positions d !! (k * 2) = Some s1 →
           DraggedEdge.positions d !! (k * 2 + 1) = Some s2 →
           array (position geometry') !! v1 = Some (add s1 (sub t initial))
           ∧ array (position geometry') !! v2 = Some (add s2 (sub t initial))).
Proof.
  do 4 (split; [vm_compute; reflexivity|]).
  intros H.
  destruct (H (worldOf (startEdgeDrag [0; 1] [Sample.v 0 0 0; Sample.v 1 0 0] 0
                          (Sample.scene (Some 6))))
              (Sample.v 33554432 0 0) _ 16 Sample.strip _ (Sample.v 0 0 0) _
              (reachable_step _ _
                 (StartEdgeDrag [0; 1] [Sample.v 0 0 0; Sample.v 1 0 0] 0)
                 _ (sample_reachable 6))
              eq_refl eq_refl eq_refl eq_refl (lookup_insert_eq _ _ _)
              0 0 1 (Sample.v 0 0 0) (Sample.v 1 0 0) eq_refl eq_refl eq_refl)
    as [_ Hv2].
  vm_compute in Hv2. discriminate Hv2.
Qed.

(** C4 (as the code has it). In a reachable world with an open edge
    session on a selected mesh, the session having an initial position,
    [updateEdgeDrag t] returns and leaves the store as it is.  With
    [offset = t - initialPositions[0]], computed once in double precision,
    each endpoint of every participant pair that the buffer has reads back
    the double-precision sum of its snapshot position and [offset], rounded
    to single precision: every edge of the group is moved by the same
    offset, up to that rounding.  Vertices of no pair are not moved. *)
Theorem updateEdgeDrag_translates_group
    (cylinderBuffers : CylinderParameters → list Vector3 * list nat)
    (sphereBuffers : SphereParameters → list Vector3 * list nat)
    (t : Vector3) (w : World) (d : DraggedEdge.t)
    (g : nat) (geometry : BufferGeometry) (initial : Vector3) :
  reachable cylinderBuffers sphereBuffers w →
  draggedEdge (store w) = Some d →
  selectedMesh w = Some (g, geometry) →
  DraggedEdge.initialPositions d !! 0 = Some initial →
  let offset := sub t initial in
  ∃ w' geometry',
    updateEdgeDrag t w = Returned w'
    ∧ store w' = store w
    ∧ objs w' = objs w
    ∧ geoms w' = <[g := geometry']> (geoms w)
    ∧ count (position geometry') = count (position geometry)
    ∧ (∀ k v1 v2,
         DraggedEdge.indices d !! k = Some (v1, v2) →
         ∃ s1 s2,
           DraggedEdge.positions d !! (k * 2) = Some s1
           ∧ DraggedEdge.positions d !! (k * 2 + 1) = Some s2
           ∧ (v1 < count (position geometry) →
                array (position geometry') !! v1 = Some (float32 (add s1 offset)))
           ∧ (v2 < count (position geometry) →
                array (position geometry') !! v2 = Some (float32 (add s2 offset))))
    ∧ (∀ i, (∀ v1 v2, (v1, v2) ∈ DraggedEdge.indices d → i ≠ v1 ∧ i ≠ v2) →
            array (position geometry') !! i = array (position geometry) !! i).
Proof.
  intros Hreach Hd Hm Hi.
  destruct (reachable_sessionCaptured _ _ w Hreach d Hd) as [a0 Hcap].
  by apply (updateEdgeDrag_translates_captured t w d a0 g geometry initial).
Qed.

Lemma updateEdgeDrag_translates_group_witness :
  ∃ w' geometry',
    updateEdgeDrag (Sample.v 0 0 3)
      (worldOf (startEdgeDrag [0; 1] [Sample.v 0 0 0; Sample.v 1 0 0] 0
                  (Sample.scene (Some 6))))
    = Returned w'
    ∧ geoms w' !! 16 = Some geometry'
    ∧ array (position geometry') !! 0
      = Some (float32 (add (Sample.v 0 0 0) (sub (Sample.v 0 0 3) (Sample.v 0 0 0))))
    ∧ array (position geometry') !! 1
      = Some (float32 (add (Sample.v 1 0 0) (sub (Sample.v 0 0 3) (Sample.v 0 0 0)))).
Proof.
  destruct (updateEdgeDrag_translates_group Sample.cylinderBuffers Sample.sphereBuffers
              (Sample.v 0 0 3)
              (worldOf (startEdgeDrag [0; 1] [Sample.v 0 0 0; Sample.v 1 0 0] 0
                          (Sample.scene (Some 6))))
              (DraggedEdge.mk [(0, 1)] [Sample.v 0 0 0; Sample.v 1 0 0]
                 [Sample.v 0 0 0; Sample.v 1 0 0] [0; 0])
              16 Sample.strip (Sample.v 0 0 0)
              (reachable_step _ _
                 (StartEdgeDrag [0; 1] [Sample.v 0 0 0; Sample.v 1 0 0] 0)
                 _ (sample_reachable 6))
              eq_refl eq_refl eq_refl)
    as (w' & geometry' & Hr & _ & _ & Hg & _ & Hpairs & _).
  exists w', geometry'. split; [exact Hr|].
  split; [rewrite Hg; apply lookup_insert_eq|].
  destruct (Hpairs 0 0 1 eq_refl) as (s1 & s2 & H1 & H2 & Hv1 & Hv2).
  injection H1 as <-. injection H2 as <-.
  split; [apply Hv1 | apply Hv2]; unfold count; simpl; lia.
Defined.


(** ** Edge derivation *)

Module SceneFacts.
Import Scene.

Lemma jsString_avoids (sep : ascii) (n : nat) :
  sep = ","%char ∨ sep = "-"%char → avoids sep (jsString n) = true.
Proof.
  intros Hsep. unfold jsString.
  induction (Nat.to_uint n) as [|d IH|d IH|d IH|d IH|d IH|d IH|d IH|d IH|d IH|d IH];
    simpl; [done|..]; rewrite IH; by destruct Hsep as [-> | ->].
Qed.

Lemma split_avoids (sep : ascii) (s : string) :
  avoids sep s = true → split sep s = [s].
Proof.
  induction s as [|c s IH]; simpl; [done|].
  intros [Hc Hs]%andb_true_iff. apply negb_true_iff in Hc.
  by rewrite Hc, IH.
Qed.

Lemma split_two (sep : ascii) (s1 s2 : string) :
  avoids sep s1 = true → avoids sep s2 = true →
  split sep (s1 ++ String sep s2) = [s1; s2].
Proof.
  intros H1 H2. induction s1 as [|c s1 IH]; simpl in *.
  - by rewrite Ascii.eqb_refl, split_avoids.
  - apply andb_true_iff in H1 as [Hc H1]. apply negb_true_iff in Hc.
    by rewrite Hc, IH.
Qed.

Lemma Number_jsString (n : nat) : Number (jsString n) = Some n.
Proof.
  unfold Number, jsString. rewrite NilEmpty.usu. simpl.
  by rewrite DecimalNat.Unsigned.of_to.
Qed.

(** Splitting a key gives back the two indices it was built from. *)
Lemma parseEdge_key (sep : ascii) (a b : nat) :
  sep = ","%char ∨ sep = "-"%char →
  parseEdge sep (jsString a ++ String sep (jsString b)) = (Some a, Some b).
Proof.
  intros Hsep. unfold parseEdge.
  rewrite split_two by (by apply jsString_avoids).
  simpl. by rewrite !Number_jsString.
Qed.

Lemma existsb_eqb (k : string) (set : list string) :
  existsb (String.eqb k) set = true ↔ k ∈ set.
Proof.
  rewrite existsb_exists. split.
  - intros (k' & Hin & ->%String.eqb_eq). by apply list_elem_of_In.
  - intros Hin. exists k. split; [by apply list_elem_of_In | apply String.eqb_refl].
Qed.

Lemma setAdd_elem (set : list string) (k x : string) :
  x ∈ setAdd set k ↔ x ∈ set ∨ x = k.
Proof.
  unfold setAdd. destruct (existsb (String.eqb k) set) eqn:E.
  - apply existsb_eqb in E. split; [auto | by intros [? | ->]].
  - rewrite elem_of_app, list_elem_of_singleton. tauto.
Qed.

Lemma setAdd_NoDup (set : list string) (k : string) :
  NoDup set → NoDup (setAdd set k).
Proof.
  intros Hnd. unfold setAdd. destruct (existsb (String.eqb k) set) eqn:E; [done|].
  apply NoDup_app. split_and!; [done| |apply NoDup_singleton].
  intros x Hx ->%list_elem_of_singleton.
  apply existsb_eqb in Hx. congruence.
Qed.

Lemma foldl_setAdd_elem (keys set : list string) (x : string) :
  x ∈ foldl setAdd set keys ↔ x ∈ set ∨ x ∈ keys.
Proof.
  revert set. induction keys as [|k keys IH]; intros set; simpl.
  - rewrite elem_of_nil. tauto.
  - rewrite IH, setAdd_elem, elem_of_cons. tauto.
Qed.

Lemma foldl_setAdd_NoDup (keys set : list string) :
  NoDup set → NoDup (foldl setAdd set keys).
Proof.
  revert set. induction keys as [|k keys IH]; intros set Hnd; simpl; [done|].
  by apply IH, setAdd_NoDup.
Qed.

Lemma newSet_elem (keys : list string) (x : string) : x ∈ newSet keys ↔ x ∈ keys.
Proof. unfold newSet. rewrite foldl_setAdd_elem, elem_of_nil. tauto. Qed.

Lemma newSet_NoDup (keys : list string) : NoDup (newSet keys).
Proof. apply foldl_setAdd_NoDup, NoDup_nil_2. Qed.

(** The [Set] of the second component is the set of the keys of all
    sides. *)
Lemma edgeSet_newSet (index : Triangles) :
  edgeSet index
  = newSet (index ≫= fun triangle =>
              map (fun side => minMaxKey side.1 side.2) (sidesOf triangle)).
Proof.
  unfold edgeSet, newSet. generalize (@nil string).
  induction index as [|[[a b] c] index IH]; intros set; simpl; [done|].
  by rewrite IH.
Qed.

Lemma pushedEdges_sides (index : Triangles) :
  pushedEdges index = map (fun side => [side.1; side.2]) (index ≫= sidesOf).
Proof.
  unfold pushedEdges. induction index as [|[[a b] c] index IH]; simpl; [done|].
  do 3 f_equal. exact IH.
Qed.

Lemma sort_pair (u v : nat) :
  sort [u; v]
  = if String.ltb (jsString v) (jsString u) then [v; u] else [u; v].
Proof. reflexivity. Qed.

(** The key of a side and the edge read back from it, first component. *)
Lemma parseEdge_sorted (u v : nat) :
  parseEdge "," (join "," (sort [u; v])) = stringOrdered u v.
Proof.
  rewrite sort_pair. unfold stringOrdered.
  destruct (String.ltb (jsString v) (jsString u)); apply parseEdge_key; auto.
Qed.

(** The same, second component. *)
Lemma parseEdge_minMaxKey (u v : nat) :
  parseEdge "-" (minMaxKey u v) = numericOrdered u v.
Proof. apply parseEdge_key. auto. Qed.

Lemma ltb_total (s1 s2 : string) :
  String.ltb s1 s2 = false → String.ltb s2 s1 = false → s1 = s2.
Proof.
  unfold String.ltb. rewrite (String.compare_antisym s2 s1).
  destruct (String.compare s1 s2) eqn:E; simpl; try done.
  intros _ _. by apply String.compare_eq_iff.
Qed.

Lemma jsString_inj (a b : nat) : jsString a = jsString b → a = b.
Proof.
  intros H. apply (f_equal Number) in H. rewrite !Number_jsString in H.
  by injection H.
Qed.

Lemma stringOrdered_swap (u v : nat) : sameEdge (stringOrdered u v) (stringOrdered v u).
Proof.
  unfold sameEdge, stringOrdered.
  destruct (String.ltb (jsString v) (jsString u)) eqn:E1,
           (String.ltb (jsString u) (jsString v)) eqn:E2; simpl; auto.
Qed.

Lemma ltb_asym (s1 s2 : string) :
  String.ltb s1 s2 = true → String.ltb s2 s1 = false.
Proof.
  unfold String.ltb. rewrite (String.compare_antisym s2 s1).
  by destruct (String.compare s1 s2).
Qed.

(** The emitted pair is one of the two orders of the side, and its
    second index is not below its first in the order of the strings. *)
Lemma stringOrdered_spec (u v : nat) :
  ∃ a b, stringOrdered u v = (Some a, Some b)
         ∧ String.ltb (jsString b) (jsString a) = false
         ∧ ((a, b) = (u, v) ∨ (a, b) = (v, u)).
Proof.
  unfold stringOrdered.
  destruct (String.ltb (jsString v) (jsString u)) eqn:E.
  - exists v, u. split_and!; auto using ltb_asym.
  - exists u, v. split_and!; auto.
Qed.

(** Two string-ordered edges that are the same undirected edge are the
    same pair. *)
Lemma stringOrdered_sameEdge (u1 v1 u2 v2 : nat) :
  sameEdge (stringOrdered u1 v1) (stringOrdered u2 v2) →
  stringOrdered u1 v1 = stringOrdered u2 v2.
Proof.
  intros [H|H]; [done|]. revert H.
  destruct (stringOrdered_spec u1 v1) as (a1 & b1 & -> & H1 & _).
  destruct (stringOrdered_spec u2 v2) as (a2 & b2 & -> & H2 & _).
  simpl. intros [= -> ->].
  by rewrite (jsString_inj a2 b2 (ltb_total _ _ H1 H2)).
Qed.

Lemma numericOrdered_sameEdge (u1 v1 u2 v2 : nat) :
  sameEdge (numericOrdered u1 v1) (numericOrdered u2 v2) →
  numericOrdered u1 v1 = numericOrdered u2 v2.
Proof.
  intros [H|H]; [done|]. revert H. unfold numericOrdered. simpl.
  intros [= H1 H2]. f_equal; f_equal; lia.
Qed.

(** Both components build a key per side, deduplicate the keys and parse
    them back.  When parsing a key gives a canonical form of the side
    that determines the key and is the same for a side and its reverse,
    every side is emitted once, whatever its direction. *)
Section Derived.

Variable keyOf : nat * nat → string.
Variable parse : string → option nat * option nat.
Variable canon : nat * nat → option nat * option nat.

Hypothesis parse_keyOf : ∀ side, parse (keyOf side) = canon side.
Hypothesis keyOf_canon : ∀ s1 s2, canon s1 = canon s2 → keyOf s1 = keyOf s2.
Hypothesis canon_sameEdge :
  ∀ s1 s2, sameEdge (canon s1) (canon s2) → canon s1 = canon s2.

Lemma derived_elem (sides : list (nat * nat)) (e : option nat * option nat) :
  e ∈ map parse (newSet (map keyOf sides)) ↔ ∃ side, side ∈ sides ∧ e = canon side.
Proof.
  change (map parse ?l) with (parse <$> l).
  change (map keyOf ?l) with (keyOf <$> l).
  rewrite list_elem_of_fmap. split.
  - intros (k & -> & Hk). apply newSet_elem, list_elem_of_fmap in Hk as (side & -> & Hside).
    exists side. by rewrite parse_keyOf.
  - intros (side & Hside & ->). exists (keyOf side). split; [by rewrite parse_keyOf|].
    apply newSet_elem, list_elem_of_fmap. by exists side.
Qed.

Lemma derived_once (sides : list (nat * nat)) (i j : nat)
    (e1 e2 : option nat * option nat) :
  map parse (newSet (map keyOf sides)) !! i = Some e1 →
  map parse (newSet (map keyOf sides)) !! j = Some e2 →
  sameEdge e1 e2 → i = j.
Proof.
  intros Hi Hj Hsame.
  assert (Hnd : NoDup (map parse (newSet (map keyOf sides)))).
  { change (map parse ?l) with (parse <$> l).
    apply NoDup_fmap_2_strong; [|apply newSet_NoDup].
    intros k1 k2 Hk1 Hk2 Hp.
    change (map keyOf ?l) with (keyOf <$> l) in Hk1, Hk2.
    apply newSet_elem, list_elem_of_fmap in Hk1 as (s1 & -> & _).
    apply newSet_elem, list_elem_of_fmap in Hk2 as (s2 & -> & _).
    apply keyOf_canon. by rewrite <- !parse_keyOf. }
  assert (H1 : e1 ∈ map parse (newSet (map keyOf sides)))
    by (apply list_elem_of_lookup; eauto).
  assert (H2 : e2 ∈ map parse (newSet (map keyOf sides)))
    by (apply list_elem_of_lookup; eauto).
  apply derived_elem in H1 as (s1 & _ & ->).
  apply derived_elem in H2 as (s2 & _ & ->).
  apply canon_sameEdge in Hsame. rewrite Hsame in Hi.
  by apply (NoDup_lookup _ i j (canon s2) Hnd).
Qed.

End Derived.

Lemma bind_sides_elem (index : Triangles) (side : nat * nat) :
  side ∈ index ≫= sidesOf
  ↔ ∃ triangle, triangle ∈ index ∧ side ∈ sidesOf triangle.
Proof.
  rewrite list_elem_of_bind.
  split; intros (triangle & H1 & H2); by exists triangle.
Qed.

Lemma uniqueEdges_derived (index : Triangles) :
  uniqueEdges index
  = map (parseEdge ",")
      (newSet (map (fun side => join "," (sort [side.1; side.2])) (index ≫= sidesOf))).
Proof.
  unfold uniqueEdges. rewrite pushedEdges_sides.
  by rewrite List.map_map.
Qed.

Lemma edgeHandles_derived (index : Triangles) :
  edgeHandles index
  = map (parseEdge "-")
      (newSet (map (fun side => minMaxKey side.1 side.2) (index ≫= sidesOf))).
Proof.
  unfold edgeHandles. rewrite edgeSet_newSet. do 2 f_equal.
  induction index as [|triangle index IH]; [done|].
  simpl. rewrite List.map_app. f_equal. exact IH.
Qed.

Lemma stringOrdered_key (s1 s2 : nat * nat) :
  stringOrdered s1.1 s1.2 = stringOrdered s2.1 s2.2 →
  join "," (sort [s1.1; s1.2]) = join "," (sort [s2.1; s2.2]).
Proof.
  rewrite !sort_pair. unfold stringOrdered.
  destruct (String.ltb _ _), (String.ltb _ _); by intros [= -> ->].
Qed.

Lemma numericOrdered_key (s1 s2 : nat * nat) :
  numericOrdered s1.1 s1.2 = numericOrdered s2.1 s2.2 →
  minMaxKey s1.1 s1.2 = minMaxKey s2.1 s2.2.
Proof. unfold numericOrdered, minMaxKey. intros [= H1 H2]. by rewrite H1, H2. Qed.

(** X26. The [Set]-based derivation (lines 559-569): the emitted edges are the
    sides of the triangles as (min, max); no undirected edge is emitted
    twice; the first index of an emitted edge is at most the second, and
    below it when no triangle repeats an index; the emitted set does not
    depend on the order of the triangles. *)
Theorem edgeHandles_canonical (index : Triangles) :
  (∀ e, e ∈ edgeHandles index
        ↔ ∃ triangle u v, triangle ∈ index ∧ (u, v) ∈ sidesOf triangle
                          ∧ e = numericOrdered u v)
  ∧ (∀ i j e1 e2,
       edgeHandles index !! i = Some e1 → edgeHandles index !! j = Some e2 →
       sameEdge e1 e2 → i = j)
  ∧ (∀ e, e ∈ edgeHandles index → ∃ a b, e = (Some a, Some b) ∧ a ≤ b)
  ∧ ((∀ a b c, (a, b, c) ∈ index → a ≠ b ∧ b ≠ c ∧ c ≠ a) →
     ∀ e, e ∈ edgeHandles index → ∃ a b, e = (Some a, Some b) ∧ a < b)
  ∧ (∀ index', index ≡ₚ index' →
     ∀ e, e ∈ edgeHandles index ↔ e ∈ edgeHandles index').
Proof.
  assert (Helem : ∀ index e,
    e ∈ edgeHandles index
    ↔ ∃ triangle u v, triangle ∈ index ∧ (u, v) ∈ sidesOf triangle
                      ∧ e = numericOrdered u v).
  { intros idx e. rewrite edgeHandles_derived.
    rewrite (derived_elem _ _ (fun side => numericOrdered side.1 side.2))
      by (intros; apply parseEdge_minMaxKey).
    split.
    - intros ([u v] & (triangle & Ht & Hs)%bind_sides_elem & ->).
      by exists triangle, u, v.
    - intros (triangle & u & v & Ht & Hs & ->). exists (u, v).
      split; [|done]. apply bind_sides_elem. by exists triangle. }
  split_and!.
  - apply Helem.
  - intros i j e1 e2. rewrite edgeHandles_derived.
    apply (derived_once _ _ (fun side => numericOrdered side.1 side.2)).
    + intros; apply parseEdge_minMaxKey.
    + apply numericOrdered_key.
    + intros s1 s2. apply numericOrdered_sameEdge.
  - intros e (triangle & u & v & _ & _ & ->)%Helem.
    exists (Nat.min u v), (Nat.max u v). split; [done | lia].
  - intros Hdistinct e (triangle & u & v & Ht & Hs & ->)%Helem.
    exists (Nat.min u v), (Nat.max u v). split; [done|].
    destruct triangle as [[a b] c]. destruct (Hdistinct a b c Ht) as (? & ? & ?).
    simpl in Hs.
    repeat (apply elem_of_cons in Hs as [[= -> ->] | Hs]; [lia|]).
    by apply elem_of_nil in Hs.
  - intros index' Hperm e. rewrite !Helem.
    split; intros (triangle & u & v & Ht & H); exists triangle, u, v;
      (split; [|done]); first [by rewrite <- Hperm | by rewrite Hperm].
Qed.

(** X27. The sort-based derivation (lines 160-174): the emitted edges are the
    sides of the triangles, each in the order of the decimal strings of
    its two indices; no undirected edge is emitted twice; the emitted set
    does not depend on the order of the triangles. *)
Theorem uniqueEdges_once (index : Triangles) :
  (∀ e, e ∈ uniqueEdges index
        ↔ ∃ triangle u v, triangle ∈ index ∧ (u, v) ∈ sidesOf triangle
                          ∧ e = stringOrdered u v)
  ∧ (∀ i j e1 e2,
       uniqueEdges index !! i = Some e1 → uniqueEdges index !! j = Some e2 →
       sameEdge e1 e2 → i = j)
  ∧ (∀ index', index ≡ₚ index' →
     ∀ e, e ∈ uniqueEdges index ↔ e ∈ uniqueEdges index').
Proof.
  assert (Helem : ∀ index e,
    e ∈ uniqueEdges index
    ↔ ∃ triangle u v, triangle ∈ index ∧ (u, v) ∈ sidesOf triangle
                      ∧ e = stringOrdered u v).
  { intros idx e. rewrite uniqueEdges_derived.
    rewrite (derived_elem _ _ (fun side => stringOrdered side.1 side.2))
      by (intros; apply parseEdge_sorted).
    split.
    - intros ([u v] & (triangle & Ht & Hs)%bind_sides_elem & ->).
      by exists triangle, u, v.
    - intros (triangle & u & v & Ht & Hs & ->). exists (u, v).
      split; [|done]. apply bind_sides_elem. by exists triangle. }
  split_and!.
  - apply Helem.
  - intros i j e1 e2. rewrite uniqueEdges_derived.
    apply (derived_once _ _ (fun side => stringOrdered side.1 side.2)).
    + intros; apply parseEdge_sorted.
    + apply stringOrdered_key.
    + intros s1 s2. apply stringOrdered_sameEdge.
  - intros index' Hperm e. rewrite !Helem.
    split; intros (triangle & u & v & Ht & H); exists triangle, u, v;
      (split; [|done]); first [by rewrite <- Hperm | by rewrite Hperm].
Qed.

(** A triangle that repeats an index gives an edge from a vertex to
    itself in both derivations. *)
Example degenerate_triangle_edges :
  edgeHandles [(0, 0, 1)] = [(Some 0, Some 0); (Some 0, Some 1)]
  ∧ uniqueEdges [(0, 0, 1)] = [(Some 0, Some 0); (Some 0, Some 1)].
Proof. split; reflexivity. Qed.

(** The two-triangle quad: five edges, the shared diagonal once. *)
Example quad_edges :
  edgeHandles [(0, 1, 2); (0, 2, 3)]
  = [(Some 0, Some 1); (Some 1, Some 2); (Some 0, Some 2); (Some 2, Some 3); (Some 0, Some 3)]
  ∧ uniqueEdges [(0, 1, 2); (0, 2, 3)] = edgeHandles [(0, 1, 2); (0, 2, 3)].
Proof. split; reflexivity. Qed.

(** C5. On the triangle (8, 10, 9), a face triangle of a box, the
    sort-based derivation emits the edges (10, 8) and (10, 9), whose first
    index is the larger one: [sort()] without a comparator orders the
    indices as strings.  The [Set]-based derivation emits (8, 10) and
    (9, 10) for the same triangle. *)
Theorem uniqueEdges_orders_by_string :
  uniqueEdges [(8, 10, 9)] = [(Some 10, Some 8); (Some 10, Some 9); (Some 8, Some 9)]
  ∧ edgeHandles [(8, 10, 9)] = [(Some 8, Some 10); (Some 9, Some 10); (Some 8, Some 9)]
  ∧ ¬ (∀ index a b, (Some a, Some b) ∈ uniqueEdges index → a < b).
Proof.
  split_and!; [reflexivity..|].
  intros H. specialize (H [(8, 10, 9)] 10 8).
  assert (10 < 8); [|lia]. apply H. by left.
Qed.

End SceneFacts.

(** * Further properties of the store *)

(** ** The object list *)

Lemma not_in_ids (id : string) (w : World) :
  id ∉ View.ids w ↔ ∀ e, e ∈ objects (store w) → SceneObject.id e ≠ id.
Proof.
  unfold View.ids. change (map SceneObject.id ?l) with (SceneObject.id <$> l).
  rewrite list_elem_of_fmap. split.
  - intros H e He E. apply H. by exists e.
  - intros H (e & -> & He). by apply (H e).
Qed.

(** X1. Adding an object under an id the list does not have and removing
    that id again gives back the object list; the selection is cleared
    when the added object is the selected one and kept otherwise; nothing
    else changes. *)
Theorem addObject_then_removeObject
    (id : string) (object : nat) (name : string) (w : World) :
  id ∉ View.ids w →
  let w' := removeObject id (addObject id object name w) in
  objects (store w') = objects (store w)
  ∧ selectedObject (store w')
    = (if decide (selectedObject (store w) = Some object)
       then None else selectedObject (store w))
  ∧ transformMode (store w') = transformMode (store w)
  ∧ editMode (store w') = editMode (store w)
  ∧ selectedElements (store w') = selectedElements (store w)
  ∧ draggedVertex (store w') = draggedVertex (store w)
  ∧ draggedEdge (store w') = draggedEdge (store w)
  ∧ objs w' = objs w
  ∧ geoms w' = geoms w.
Proof.
  intros Hfresh. pose proof (proj1 (not_in_ids id w) Hfresh) as Habsent.
  simpl. split_and!; try reflexivity.
  - rewrite filter_by_id, filter_app, filter_by_id_absent by done.
    rewrite filter_cons, decide_False by (simpl; by intros H).
    by rewrite filter_nil, app_nil_r.
  - rewrite (find_by_id_first id (objects (store w)) []) by done. simpl.
    destruct (selectedObject (store w)) as [sel|]; [|by rewrite decide_False].
    destruct (Nat.eqb_spec object sel) as [->|Hne].
    + by rewrite decide_True.
    + rewrite decide_False; [done|]. by intros [= ->].
Qed.

Lemma addObject_then_removeObject_witness :
  objects (store (removeObject "g" (addObject "g" 1 "Copy" (Sample.scene (Some 1)))))
  = Sample.entries
  ∧ selectedObject
      (store (removeObject "g" (addObject "g" 1 "Copy" (Sample.scene (Some 1)))))
    = None.
Proof.
  destruct (addObject_then_removeObject "g" 1 "Copy" (Sample.scene (Some 1)))
    as (Ho & Hs & _).
  - apply not_in_ids. intros e He. simpl in He.
    repeat (apply elem_of_cons in He as [-> | He]; [by simpl|]).
    by apply elem_of_nil in He.
  - split; [exact Ho | exact Hs].
Defined.

(** The entry [toggleVisibility] writes for an entry with the id. *)
Lemma find_toggled (id : string) (flip : SceneObject.t → SceneObject.t)
    (l : list SceneObject.t) :
  (∀ e, SceneObject.id (flip e) = SceneObject.id e) →
  List.find (fun obj => String.eqb (SceneObject.id obj) id)
    (map (fun obj => if String.eqb (SceneObject.id obj) id then flip obj else obj) l)
  = flip <$> List.find (fun obj => String.eqb (SceneObject.id obj) id) l.
Proof.
  intros Hid. induction l as [|e l IH]; [done|]. simpl.
  destruct (String.eqb (SceneObject.id e) id) eqn:E.
  - by rewrite Hid, E.
  - by rewrite E.
Qed.

(** X2. Toggling the visibility of an id twice gives back the object list.
    The selection does not come back: it is what [removeObject] of that id
    would leave, cleared when the first entry with the id holds the
    selected object.  Nothing else changes. *)
Theorem toggleVisibility_twice (id : string) (w : World) :
  let w' := toggleVisibility id (toggleVisibility id w) in
  objects (store w') = objects (store w)
  ∧ selectedObject (store w') = selectedObject (store (removeObject id w))
  ∧ transformMode (store w') = transformMode (store w)
  ∧ editMode (store w') = editMode (store w)
  ∧ selectedElements (store w') = selectedElements (store w)
  ∧ draggedVertex (store w') = draggedVertex (store w)
  ∧ draggedEdge (store w') = draggedEdge (store w)
  ∧ objs w' = objs w
  ∧ geoms w' = geoms w.
Proof.
  set (flip := fun obj =>
    SceneObject.mk (SceneObject.id obj) (SceneObject.object obj)
      (SceneObject.name obj) (negb (SceneObject.visible obj))).
  assert (Hflip : ∀ l,
    map (fun obj => if String.eqb (SceneObject.id obj) id then flip obj else obj)
      (map (fun obj => if String.eqb (SceneObject.id obj) id then flip obj else obj) l)
    = l).
  { induction l as [|e l IH]; [done|]. simpl. rewrite IH.
    destruct (String.eqb (SceneObject.id e) id) eqn:E; simpl; rewrite E; [|done].
    destruct e as [i o n v]. unfold flip. simpl. by rewrite negb_involutive. }
  simpl. split_and!; try reflexivity.
  - apply Hflip.
  - fold flip. rewrite !(find_toggled id flip) by done.
    destruct (List.find _ (objects (store w))) as [e|]; simpl; [|done].
    destruct (selectedObject (store w)) as [sel|]; [|done].
    destruct (SceneObject.visible e), (Nat.eqb (SceneObject.object e) sel) eqn:E;
      simpl; rewrite ?E; done.
Qed.

(** ** Vertex drag *)

(** The session [startVertexDrag] opens on a selected mesh. *)
Lemma startVertexDrag_session (i : nat) (p : Vector3) (w : World) (g : nat)
    (geometry : BufferGeometry) :
  selectedMesh w = Some (g, geometry) →
  draggedVertex (store (startVertexDrag i p w))
  = Some (DraggedVertex.mk
            (List.filter (fun j => distanceTo_lt (getXYZ (position geometry) j)
                                     (getXYZ (position geometry) i) epsilon)
               (seq 0 (count (position geometry))))
            p p)
  ∧ objs (startVertexDrag i p w) = objs w
  ∧ geoms (startVertexDrag i p w) = geoms w
  ∧ selectedObject (store (startVertexDrag i p w)) = selectedObject (store w).
Proof.
  intros Hm. unfold startVertexDrag. rewrite Hm. simpl.
  by rewrite overlapScan_filter, clone_id.
Qed.

Lemma selectedMesh_same_heap (w w' : World) :
  selectedObject (store w') = selectedObject (store w) →
  objs w' = objs w → geoms w' = geoms w →
  selectedMesh w' = selectedMesh w.
Proof. unfold selectedMesh. by intros -> -> ->. Qed.

(** X3. Coincidence is symmetric: on a selected mesh, vertex [j] is in the
    group grabbed at [i] exactly when [i] is in the group grabbed at
    [j]. *)
Theorem startVertexDrag_group_symmetric
    (i j : nat) (p q : Vector3) (w : World) (g : nat) (geometry : BufferGeometry)
    (di dj : DraggedVertex.t) :
  selectedMesh w = Some (g, geometry) →
  i < count (position geometry) →
  j < count (position geometry) →
  draggedVertex (store (startVertexDrag i p w)) = Some di →
  draggedVertex (store (startVertexDrag j q w)) = Some dj →
  j ∈ DraggedVertex.indices di ↔ i ∈ DraggedVertex.indices dj.
Proof.
  intros Hm Hi Hj Hdi Hdj.
  destruct (startVertexDrag_session i p w g geometry Hm) as (Hsi & _).
  destruct (startVertexDrag_session j q w g geometry Hm) as (Hsj & _).
  rewrite Hsi in Hdi. rewrite Hsj in Hdj.
  injection Hdi as <-. injection Hdj as <-. simpl.
  rewrite !list_elem_of_In, !filter_In, !in_seq.
  rewrite (distanceTo_lt_sym (getXYZ (position geometry) j)).
  intuition lia.
Qed.

Lemma startVertexDrag_group_symmetric_witness :
  3 ∈ [2; 3] ↔ 2 ∈ [2; 3].
Proof.
  apply (startVertexDrag_group_symmetric 2 3 (Sample.v 1 1 0) (Sample.v 1 1 0)
           (Sample.scene (Some 1)) 11 Sample.bowtie
           (DraggedVertex.mk [2; 3] (Sample.v 1 1 0) (Sample.v 1 1 0))
           (DraggedVertex.mk [2; 3] (Sample.v 1 1 0) (Sample.v 1 1 0)));
    try reflexivity; unfold count; simpl; lia.
Defined.

(** X4. A drag keeps coincident vertices together: after a group is
    grabbed at [i] and moved to a target [t] that the buffer stores with
    finite coordinates, grabbing any vertex [j] of the group grabs the
    whole group again.  (A target beyond the single-precision range is
    stored as an infinity, and the vertices are then in no group at all.) *)
Theorem vertex_drag_keeps_group_together
    (i j : nat) (p q t : Vector3) (w : World) (g : nat) (geometry : BufferGeometry)
    (d d' : DraggedVertex.t) :
  selectedMesh w = Some (g, geometry) →
  isFinite (float32 t) = true →
  draggedVertex (store (startVertexDrag i p w)) = Some d →
  j ∈ DraggedVertex.indices d →
  draggedVertex
    (store (startVertexDrag j q (updateVertexDrag t (startVertexDrag i p w))))
  = Some d' →
  ∀ k, k ∈ DraggedVertex.indices d → k ∈ DraggedVertex.indices d'.
Proof.
  intros Hm Hfinite Hd Hj Hd' k Hk.
  destruct (startVertexDrag_session i p w g geometry Hm) as (Hs & Ho & Hg & Hsel).
  assert (Hm1 : selectedMesh (startVertexDrag i p w) = Some (g, geometry))
    by (by rewrite (selectedMesh_same_heap w) by done).
  destruct (updateVertexDrag_writes t _ d g geometry Hd Hm1)
    as (geometry' & Hg' & Hcount & Hin & _ & _).
  assert (Hm2 : selectedMesh (updateVertexDrag t (startVertexDrag i p w))
                = Some (g, geometry')).
  { unfold updateVertexDrag in *. rewrite Hd, Hm1 in *. simpl in Hg'.
    rewrite lookup_insert_eq in Hg'. injection Hg' as <-.
    by apply (selectedMesh_after_write (startVertexDrag i p w) g geometry). }
  destruct (startVertexDrag_session j q _ g geometry' Hm2) as (Hs' & _).
  rewrite Hs' in Hd'. injection Hd' as <-. simpl.
  assert (Hrange : ∀ k, k ∈ DraggedVertex.indices d → k < count (position geometry)).
  { rewrite Hs in Hd. injection Hd as <-. simpl. intros k'.
    rewrite list_elem_of_In, filter_In, in_seq. lia. }
  apply list_elem_of_In, filter_In. split.
  - apply in_seq. rewrite Hcount. specialize (Hrange k Hk). lia.
  - unfold getXYZ. rewrite (Hin k Hk (Hrange k Hk)), (Hin j Hj (Hrange j Hj)).
    simpl. by apply distanceTo_lt_self.
Qed.

Lemma vertex_drag_keeps_group_together_witness :
  draggedVertex
    (store (startVertexDrag 3 (Sample.v 7 7 7)
              (updateVertexDrag (Sample.v 7 7 7)
                 (startVertexDrag 2 (Sample.v 1 1 0) (Sample.scene (Some 1))))))
  = Some (DraggedVertex.mk [2; 3] (Sample.v 7 7 7) (Sample.v 7 7 7))
  ∧ 2 ∈ [2; 3].
Proof.
  split; [reflexivity|].
  apply (vertex_drag_keeps_group_together 2 3 (Sample.v 1 1 0) (Sample.v 7 7 7)
           (Sample.v 7 7 7) (Sample.scene (Some 1)) 11 Sample.bowtie
           (DraggedVertex.mk [2; 3] (Sample.v 1 1 0) (Sample.v 1 1 0))
           (DraggedVertex.mk [2; 3] (Sample.v 7 7 7) (Sample.v 7 7 7))
           eq_refl eq_refl eq_refl (list_elem_of_further 3 2 [3] (list_elem_of_here 3 []))
           eq_refl 2 (list_elem_of_here 2 [3])).
Defined.

(** ** Successive targets *)

Lemma applyWrites_written (ws : list (nat * Vector3)) (l l' : list Vector3) (i : nat) :
  i ∈ ws.*1 → length l = length l' →
  applyWrites ws l !! i = applyWrites ws l' !! i.
Proof.
  revert l l'. induction ws as [|[j v] ws IH]; intros l l' Hi Hlen.
  - by apply elem_of_nil in Hi.
  - change (applyWrites ((j, v) :: ws) ?m) with (applyWrites ws (<[j := v]> m)).
    destruct (decide (i ∈ ws.*1)) as [Hin|Hout].
    + apply IH; [done|]. by rewrite !length_insert.
    + rewrite !applyWrites_untouched by done.
      rewrite fmap_cons in Hi. apply elem_of_cons in Hi as [->|Hin]; [|done].
      simpl. destruct (decide (j < length l)) as [Hlt|Hge].
      * rewrite !list_lookup_insert_eq; [done|lia|lia].
      * rewrite !list_insert_ge by lia.
        rewrite !lookup_ge_None_2; [done|lia|lia].
Qed.

(** Writes at the same indices hide the earlier ones. *)
Lemma applyWrites_overwrite (ws1 ws2 : list (nat * Vector3)) (l : list Vector3) :
  ws1.*1 = ws2.*1 →
  applyWrites ws2 (applyWrites ws1 l) = applyWrites ws2 l.
Proof.
  intros Hsame. apply list_eq. intros i.
  destruct (decide (i ∈ ws2.*1)) as [Hin|Hout].
  - apply applyWrites_written; [done|]. apply applyWrites_length.
  - rewrite !applyWrites_untouched; try done. by rewrite Hsame.
Qed.

Lemma writeAll_applyWrites (t : Vector3) (l : list nat) (a : BufferAttribute) :
  array (writeAll t a l) = applyWrites ((fun i => (i, float32 t)) <$> l) (array a).
Proof.
  revert a. induction l as [|i l IH]; intros a; [done|].
  change (writeAll t a (i :: l)) with (writeAll t (setXYZ a i t) l).
  by rewrite IH, setXYZ_array.
Qed.

(** The outcome of [updateVertexDrag] on a selected mesh with an open
    vertex session. *)
Lemma updateVertexDrag_on_session (t : Vector3) (w : World) (d : DraggedVertex.t)
    (g : nat) (geometry : BufferGeometry) :
  draggedVertex (store w) = Some d →
  selectedMesh w = Some (g, geometry) →
  updateVertexDrag t w
  = mkWorld
      (setDraggedVertex (store w)
         (Some (DraggedVertex.mk (DraggedVertex.indices d) t
                  (DraggedVertex.initialPosition d))))
      (objs w)
      (<[g := withPosition geometry
                (markNeedsUpdate (writeAll t (position geometry) (DraggedVertex.indices d)))]>
         (geoms w)).
Proof. intros Hd Hm. unfold updateVertexDrag. by rewrite Hd, Hm, clone_id. Qed.

(** X5. Vertex targets do not accumulate: [updateVertexDrag t2] after
    [updateVertexDrag t1] leaves the store and every position buffer as
    [updateVertexDrag t2] alone does. *)
Theorem updateVertexDrag_last_target_wins (t1 t2 : Vector3) (w : World) :
  let both := updateVertexDrag t2 (updateVertexDrag t1 w) in
  let last := updateVertexDrag t2 w in
  store both = store last
  ∧ objs both = objs last
  ∧ ∀ g, (array ∘ position <$> geoms both !! g)
         = (array ∘ position <$> geoms last !! g).
Proof.
  simpl.
  destruct (draggedVertex (store w)) as [d|] eqn:Hd;
    [|unfold updateVertexDrag; rewrite Hd; by rewrite Hd].
  destruct (selectedMesh w) as [[g geometry]|] eqn:Hm;
    [|unfold updateVertexDrag; rewrite Hd, Hm; by rewrite Hd, Hm].
  rewrite (updateVertexDrag_on_session t1 w d g geometry Hd Hm).
  rewrite (updateVertexDrag_on_session t2 w d g geometry Hd Hm).
  erewrite updateVertexDrag_on_session;
    [|reflexivity|by apply (selectedMesh_after_write w g geometry)].
  simpl. split_and!; try done.
  intros g'. destruct (decide (g' = g)) as [->|Hne].
  - rewrite !lookup_insert_eq. simpl. rewrite !writeAll_applyWrites. simpl.
    rewrite writeAll_applyWrites, applyWrites_overwrite; [done|].
    by rewrite <- !list_fmap_compose.
  - by rewrite !lookup_insert_ne.
Qed.

Lemma edgeWrites_indices (offset1 offset2 : Vector3) (snapshot : list Vector3)
    (pairs : list (nat * nat)) (index : nat) :
  (edgeWrites offset1 snapshot pairs index).1.*1
  = (edgeWrites offset2 snapshot pairs index).1.*1
  ∧ (edgeWrites offset1 snapshot pairs index).2
    = (edgeWrites offset2 snapshot pairs index).2.
Proof.
  revert index. induction pairs as [|[v1 v2] pairs IH]; intros index; simpl; [done|].
  destruct (snapshot !! (index * 2)); [|done].
  destruct (snapshot !! (index * 2 + 1)); [|done].
  destruct (IH (S index)) as [H1 H2].
  destruct (edgeWrites offset1 snapshot pairs (S index)) as [ws1 c1],
           (edgeWrites offset2 snapshot pairs (S index)) as [ws2 c2].
  cbn [fst snd] in *. split; [|exact H2].
  rewrite !fmap_cons. cbn [fst]. by rewrite H1.
Qed.

(** X6. Edge targets do not accumulate: [updateEdgeDrag p] after
    [updateEdgeDrag q] leaves the store and every position buffer as
    [updateEdgeDrag p] alone does, and ends the same way. *)
Theorem updateEdgeDrag_last_target_wins (p q : Vector3) (w : World) :
  let both := updateEdgeDrag p (worldOf (updateEdgeDrag q w)) in
  let last := updateEdgeDrag p w in
  store (worldOf both) = store (worldOf last)
  ∧ objs (worldOf both) = objs (worldOf last)
  ∧ (∀ g, (array ∘ position <$> geoms (worldOf both) !! g)
          = (array ∘ position <$> geoms (worldOf last) !! g))
  ∧ returned both = returned last.
Proof.
  simpl.
  destruct (draggedEdge (store w)) as [d|] eqn:Hd;
    [|unfold updateEdgeDrag; rewrite Hd; simpl; by rewrite Hd].
  destruct (selectedMesh w) as [[g geometry]|] eqn:Hm;
    [|unfold updateEdgeDrag; rewrite Hd, Hm; simpl; by rewrite Hd, Hm].
  destruct (DraggedEdge.initialPositions d !! 0) as [initial|] eqn:Hi;
    [|unfold updateEdgeDrag; rewrite Hd, Hm, Hi; simpl; by rewrite Hd, Hm, Hi].
  destruct (updateEdgeDrag_on_session q w d g geometry initial Hd Hm Hi) as [ver1 ->].
  destruct (updateEdgeDrag_on_session p w d g geometry initial Hd Hm Hi) as [ver2 ->].
  set (runq := edgeWrites (sub q initial) (DraggedEdge.positions d)
                 (DraggedEdge.indices d) 0).
  set (runp := edgeWrites (sub p initial) (DraggedEdge.positions d)
                 (DraggedEdge.indices d) 0).
  destruct (edgeWrites_indices (sub q initial) (sub p initial)
              (DraggedEdge.positions d) (DraggedEdge.indices d) 0) as [Hidx Hflag].
  fold runq runp in Hidx, Hflag.
  set (geometry1 := withPosition geometry
                      (mkAttribute (applyWrites runq.1 (array (position geometry))) ver1)).
  set (w1 := mkWorld (store w) (objs w) (<[g := geometry1]> (geoms w))).
  assert (Hw : ∀ (b : bool) w0, worldOf ((if b then Returned else Thrown) w0) = w0)
    by (by intros []).
  rewrite !Hw.
  destruct (updateEdgeDrag_on_session p w1 d g geometry1 initial Hd
              (selectedMesh_after_write w g geometry geometry1 Hm) Hi) as [ver3 ->].
  fold runp. rewrite Hw. simpl. split_and!; try done.
  - intros g'. destruct (decide (g' = g)) as [->|Hne].
    + rewrite !lookup_insert_eq. simpl. by rewrite applyWrites_overwrite.
    + by rewrite !lookup_insert_ne.
  - by destruct (runp.2).
Qed.

(** ** Sessions of reachable worlds *)

Lemma startEdgeDrag_draggedVertex (vertexIndices : list nat) (positions : list Vector3)
    (edgeIndex : nat) (w : World) :
  draggedVertex (store (worldOf (startEdgeDrag vertexIndices positions edgeIndex w)))
  = draggedVertex (store w).
Proof.
  unfold startEdgeDrag.
  destruct (selectedMesh w) as [[g geometry]|]; [|done].
  by destruct (scanSides _ _ _ _ _).
Qed.

Lemma updateCylinderVertices_draggedVertex
    (cylinderBuffers : CylinderParameters → list Vector3 * list nat) (n : Q) (w : World) :
  draggedVertex (store (updateCylinderVertices cylinderBuffers n w))
  = draggedVertex (store w).
Proof.
  unfold updateCylinderVertices.
  destruct (selectedObject (store w)) as [o|]; [|done].
  destruct (objs w !! o) as [[g|]|]; try done.
  destruct (geoms w !! g) as [old|]; [|done].
  by destruct (cylinderParametersOf _ _).
Qed.

Lemma updateSphereVertices_draggedVertex
    (sphereBuffers : SphereParameters → list Vector3 * list nat) (n : Q) (w : World) :
  draggedVertex (store (updateSphereVertices sphereBuffers n w))
  = draggedVertex (store w).
Proof.
  unfold updateSphereVertices.
  destruct (selectedObject (store w)) as [o|]; [|done].
  destruct (objs w !! o) as [[g|]|]; try done.
  destruct (geoms w !! g) as [old|]; [|done].
  by destruct (sphereParametersOf _ _).
Qed.

Lemma startVertexDrag_sorted (i : nat) (p : Vector3) (w : World) :
  vertexSessionSorted w → vertexSessionSorted (startVertexDrag i p w).
Proof.
  intros Hw. unfold startVertexDrag.
  destruct (selectedMesh w) as [[g geometry]|]; [|done].
  intros d [= <-]. simpl. rewrite overlapScan_filter. apply filter_seq_ascending.
Qed.

Lemma updateVertexDrag_sorted (t : Vector3) (w : World) :
  vertexSessionSorted w → vertexSessionSorted (updateVertexDrag t w).
Proof.
  intros Hw. unfold updateVertexDrag.
  destruct (draggedVertex (store w)) as [d|] eqn:Hd; [|done].
  destruct (selectedMesh w) as [[g geometry]|]; [|done].
  intros d' [= <-]. simpl. by apply Hw.
Qed.

Lemma run_invariant
    (cylinderBuffers : CylinderParameters → list Vector3 * list nat)
    (sphereBuffers : SphereParameters → list Vector3 * list nat)
    (P : World → Prop) :
  (∀ a w, P w → P (worldOf (perform cylinderBuffers sphereBuffers a w))) →
  ∀ actions w, P w → P (run cylinderBuffers sphereBuffers actions w).
Proof.
  intros Hstep actions. induction actions as [|a actions IH]; intros w Hw; [done|].
  apply IH, Hstep, Hw.
Qed.

(** X7. In every reachable world the group of an open vertex session is
    strictly ascending, so it lists no vertex twice. *)
Theorem reachable_vertex_group_ascending
    (cylinderBuffers : CylinderParameters → list Vector3 * list nat)
    (sphereBuffers : SphereParameters → list Vector3 * list nat)
    (w : World) (d : DraggedVertex.t) :
  reachable cylinderBuffers sphereBuffers w →
  draggedVertex (store w) = Some d →
  StronglySorted lt (DraggedVertex.indices d) ∧ NoDup (DraggedVertex.indices d).
Proof.
  intros (objs0 & geoms0 & actions & ->) Hd.
  assert (Hsorted : StronglySorted lt (DraggedVertex.indices d)).
  { revert d Hd.
    apply (run_invariant cylinderBuffers sphereBuffers vertexSessionSorted);
      [|by intros d [=]].
    intros a w Hw. destruct a; simpl; try exact Hw.
    - by apply startVertexDrag_sorted.
    - by apply updateVertexDrag_sorted.
    - by intros d [=].
    - unfold vertexSessionSorted. by rewrite startEdgeDrag_draggedVertex.
    - unfold vertexSessionSorted. by rewrite updateEdgeDrag_store.
    - unfold vertexSessionSorted. by rewrite updateCylinderVertices_draggedVertex.
    - unfold vertexSessionSorted. by rewrite updateSphereVertices_draggedVertex. }
  split; [done|].
  clear Hd. induction Hsorted as [|k l Hl IH Hk]; constructor; [|done].
  intros Hin. rewrite List.Forall_forall in Hk.
  apply list_elem_of_In, Hk in Hin. lia.
Qed.

Lemma reachable_vertex_group_ascending_witness :
  StronglySorted lt [2; 3] ∧ NoDup [2; 3].
Proof.
  apply (reachable_vertex_group_ascending Sample.cylinderBuffers Sample.sphereBuffers
           (startVertexDrag 2 (Sample.v 1 1 0) (Sample.scene (Some 1)))
           (DraggedVertex.mk [2; 3] (Sample.v 1 1 0) (Sample.v 1 1 0))).
  - apply (reachable_step _ _ (StartVertexDrag 2 (Sample.v 1 1 0)) _ (sample_reachable 1)).
  - reflexivity.
Defined.

(** A throw of [updateEdgeDrag] in a reachable world. *)
Lemma updateEdgeDrag_thrown_reachable
    (cylinderBuffers : CylinderParameters → list Vector3 * list nat)
    (sphereBuffers : SphereParameters → list Vector3 * list nat)
    (p : Vector3) (w : World) :
  reachable cylinderBuffers sphereBuffers w →
  (returned (updateEdgeDrag p w) = false → worldOf (updateEdgeDrag p w) = w)
  ∧ (∀ d, draggedEdge (store w) = Some d →
          is_Some (selectedMesh w) →
          DraggedEdge.initialPositions d = [] →
          updateEdgeDrag p w = Thrown w).
Proof.
  intros Hreach. split.
  - destruct (draggedEdge (store w)) as [d|] eqn:Hd;
      [|unfold updateEdgeDrag; by rewrite Hd].
    destruct (selectedMesh w) as [[g geometry]|] eqn:Hm;
      [|unfold updateEdgeDrag; by rewrite Hd, Hm].
    destruct (DraggedEdge.initialPositions d) as [|initial rest] eqn:Hi.
    + unfold updateEdgeDrag. by rewrite Hd, Hm, Hi.
    + destruct (reachable_sessionCaptured _ _ w Hreach d Hd) as [a0 Hcap].
      destruct (updateEdgeDrag_on_session p w d g geometry initial Hd Hm) as [ver Hrun];
        [by rewrite Hi|].
      rewrite (edgeWrites_captured _ _ a0) in Hrun
        by (intros k v1 v2 Hk; apply (Hcap k v1 v2 Hk)).
      simpl in Hrun. by rewrite Hrun.
  - intros d Hd [[g geometry] Hm] Hi. unfold updateEdgeDrag. by rewrite Hd, Hm, Hi.
Qed.

(** X8. In a reachable world [updateEdgeDrag] never stops in the middle of
    a group: when it throws, no buffer was written and the world is as it
    was; and it does throw when an edge session is open on a selected mesh
    with no initial position. *)
Theorem reachable_updateEdgeDrag_all_or_nothing
    (cylinderBuffers : CylinderParameters → list Vector3 * list nat)
    (sphereBuffers : SphereParameters → list Vector3 * list nat)
    (p : Vector3) (w : World) :
  reachable cylinderBuffers sphereBuffers w →
  (returned (updateEdgeDrag p w) = false → worldOf (updateEdgeDrag p w) = w)
  ∧ (∀ d, draggedEdge (store w) = Some d →
          is_Some (selectedMesh w) →
          DraggedEdge.initialPositions d = [] →
          updateEdgeDrag p w = Thrown w).
Proof.
  intros Hreach.
  destruct (updateEdgeDrag_thrown_reachable cylinderBuffers sphereBuffers p w Hreach)
    as [Hsame Hwhen].
  split; [exact Hsame | exact Hwhen].
Qed.

Lemma reachable_updateEdgeDrag_all_or_nothing_witness :
  returned (updateEdgeDrag (Sample.v 0 0 3)
              (worldOf (startEdgeDrag [0; 1; 2] [] 0 (Sample.scene (Some 2))))) = false
  ∧ worldOf (updateEdgeDrag (Sample.v 0 0 3)
               (worldOf (startEdgeDrag [0; 1; 2] [] 0 (Sample.scene (Some 2)))))
    = worldOf (startEdgeDrag [0; 1; 2] [] 0 (Sample.scene (Some 2))).
Proof.
  split; [reflexivity|].
  apply (reachable_updateEdgeDrag_all_or_nothing Sample.cylinderBuffers
           Sample.sphereBuffers (Sample.v 0 0 3)
           (worldOf (startEdgeDrag [0; 1; 2] [] 0 (Sample.scene (Some 2))))).
  - apply (reachable_step _ _ (StartEdgeDrag [0; 1; 2] [] 0) _ (sample_reachable 2)).
  - reflexivity.
Defined.

(** A single-precision point moved by the offset of a finite target to
    itself is stored as the same point. *)
Lemma float32_add_zero_offset (s p : Vector3) :
  isFinite p = true → float32 s = s → veq (float32 (add s (sub p p))) s.
Proof.
  unfold isFinite. intros [[Hx Hy]%andb_true_iff Hz]%andb_true_iff Hsingle.
  destruct s as [sx sy sz]. injection Hsingle as Ex Ey Ez.
  assert (Hone : ∀ a : JS.number,
            JS.fround a = a →
            JS.sameValueZero (JS.fround (JS.add a (S754_zero false))) a).
  { intros a Ha. destruct a as [[]|[]| |[] m e]; try done; simpl; by rewrite Ha. }
  unfold veq, float32, add, sub. simpl. rewrite !sub_diag by done.
  split_and!; by apply Hone.
Qed.

(** With an anchor that has an infinite coordinate the group does not
    come back: the offset [Infinity - Infinity] is NaN, and so is the x
    coordinate every endpoint reads back. *)
Example edge_drag_back_with_infinite_anchor :
  let anchor := mkVector3 (S754_infinity false) (JS.ofZ 0) (JS.ofZ 0) in
  let start := startEdgeDrag [0; 1] [anchor; Sample.v 1 0 0] 0 (Sample.scene (Some 6)) in
  (DraggedEdge.positions <$> draggedEdge (store (worldOf start)))
  = Some [Sample.v 0 0 0; Sample.v 1 0 0]
  ∧ (array ∘ position <$> geoms (worldOf (updateEdgeDrag anchor (worldOf start))) !! 16)
    = Some [mkVector3 S754_nan (JS.ofZ 0) (JS.ofZ 0);
            mkVector3 S754_nan (JS.ofZ 0) (JS.ofZ 0);
            Sample.v 0 1 0; Sample.v 1 1 0; Sample.v 2 1 0; Sample.v 1 2 0].
Proof. split; vm_compute; reflexivity. Qed.

(** X9. Dragging an edge group back to where it was grabbed puts every
    participant back: in a reachable world, [updateEdgeDrag] with the
    target [initialPositions[0]], whose coordinates are finite, returns,
    and each endpoint the buffer has whose snapshot is a single-precision
    point (as every point read from a position buffer is) reads back its
    snapshot, coordinate by coordinate, up to the sign of a zero. *)
Theorem edge_drag_back_to_start
    (cylinderBuffers : CylinderParameters → list Vector3 * list nat)
    (sphereBuffers : SphereParameters → list Vector3 * list nat)
    (w : World) (d : DraggedEdge.t) (g : nat) (geometry : BufferGeometry)
    (initial : Vector3) :
  reachable cylinderBuffers sphereBuffers w →
  draggedEdge (store w) = Some d →
  selectedMesh w = Some (g, geometry) →
  DraggedEdge.initialPositions d !! 0 = Some initial →
  isFinite initial = true →
  ∃ w' geometry',
    updateEdgeDrag initial w = Returned w'
    ∧ geoms w' !! g = Some geometry'
    ∧ ∀ k v1 v2,
        DraggedEdge.indices d !! k = Some (v1, v2) →
        ∃ s1 s2,
          DraggedEdge.positions d !! (k * 2) = Some s1
          ∧ DraggedEdge.positions d !! (k * 2 + 1) = Some s2
          ∧ (v1 < count (position geometry) → float32 s1 = s1 →
               ∃ r1, array (position geometry') !! v1 = Some r1 ∧ veq r1 s1)
          ∧ (v2 < count (position geometry) → float32 s2 = s2 →
               ∃ r2, array (position geometry') !! v2 = Some r2 ∧ veq r2 s2).
Proof.
  intros Hreach Hd Hm Hi Hfinite.
  destruct (reachable_sessionCaptured _ _ w Hreach d Hd) as [a0 Hcap].
  destruct (updateEdgeDrag_translates_captured initial w d a0 g geometry initial
              Hd Hcap Hm Hi)
    as (w' & geometry' & Hr & _ & _ & Hg & _ & Hpairs & _).
  exists w', geometry'. split; [done|]. split; [rewrite Hg; apply lookup_insert_eq|].
  intros k v1 v2 Hk.
  destruct (Hpairs k v1 v2 Hk) as (s1 & s2 & H1 & H2 & Hv1 & Hv2).
  exists s1, s2. split_and!; try done.
  - intros Hlt Hsingle. eexists. split; [by apply Hv1|].
    by apply float32_add_zero_offset.
  - intros Hlt Hsingle. eexists. split; [by apply Hv2|].
    by apply float32_add_zero_offset.
Qed.

Lemma edge_drag_back_to_start_witness :
  ∃ w' geometry',
    updateEdgeDrag (Sample.v 0 0 0)
      (worldOf (updateEdgeDrag (Sample.v 0 0 3)
         (worldOf (startEdgeDrag [0; 1] [Sample.v 0 0 0; Sample.v 1 0 0] 0
                     (Sample.scene (Some 6))))))
    = Returned w'
    ∧ geoms w' !! 16 = Some geometry'
    ∧ ∃ r1, array (position geometry') !! 1 = Some r1 ∧ veq r1 (Sample.v 1 0 0).
Proof.
  destruct (edge_drag_back_to_start Sample.cylinderBuffers Sample.sphereBuffers
              (worldOf (updateEdgeDrag (Sample.v 0 0 3)
                 (worldOf (startEdgeDrag [0; 1] [Sample.v 0 0 0; Sample.v 1 0 0] 0
                             (Sample.scene (Some 6))))))
              (DraggedEdge.mk [(0, 1)] [Sample.v 0 0 0; Sample.v 1 0 0]
                 [Sample.v 0 0 0; Sample.v 1 0 0] [0; 0])
              16
              (withPosition Sample.strip
                 (mkAttribute [Sample.v 0 0 3; Sample.v 1 0 3; Sample.v 0 1 0;
                               Sample.v 1 1 0; Sample.v 2 1 0; Sample.v 1 2 0] 1))
              (Sample.v 0 0 0))
    as (w' & geometry' & Hr & Hg & Hpairs).
  - apply (reachable_step _ _ (UpdateEdgeDrag (Sample.v 0 0 3))).
    apply (reachable_step _ _
             (StartEdgeDrag [0; 1] [Sample.v 0 0 0; Sample.v 1 0 0] 0)).
    apply (sample_reachable 6).
  - reflexivity.
  - reflexivity.
  - reflexivity.
  - reflexivity.
  - exists w', geometry'. split; [exact Hr|]. split; [exact Hg|].
    destruct (Hpairs 0 0 1 eq_refl) as (s1 & s2 & H1 & H2 & _ & Hv2).
    injection H2 as <-. apply Hv2; [unfold count; simpl; lia | reflexivity].
Defined.

(** ** Starting an edge drag *)

Lemma includes_elem (l : list nat) (v : nat) : includes l v = true ↔ v ∈ l.
Proof.
  unfold includes. rewrite existsb_exists. split.
  - intros (u & Hu & ->%Nat.eqb_eq). by apply list_elem_of_In.
  - intros Hv. exists v. split; [by apply list_elem_of_In | apply Nat.eqb_refl].
Qed.

Lemma sideHit_orientation (vis vis' : list nat) (p0 p1 : Vector3)
    (a : BufferAttribute) (side : nat * nat) :
  (∀ v, v ∈ vis ↔ v ∈ vis') →
  sideHit vis p0 p1 a side = sideHit vis' p1 p0 a side.
Proof.
  intros Hsame. unfold sideHit.
  assert (Hinc : ∀ v, includes vis v = includes vis' v).
  { intros v. apply Bool.eq_iff_eq_true. by rewrite !includes_elem. }
  rewrite !Hinc.
  destruct (includes vis' side.1 && includes vis' side.2); [done|]. simpl.
  apply orb_comm.
Qed.

(** X10. The participants of an edge session do not depend on the
    direction in which the clicked edge is given: with the two vertex
    indices and the two positions swapped, [startEdgeDrag] captures the
    same pairs, the same snapshot and the same slots. *)
Theorem startEdgeDrag_orientation
    (vis vis' : list nat) (p0 p1 : Vector3) (edgeIndex : nat) (w : World)
    (g : nat) (geometry : BufferGeometry) :
  selectedMesh w = Some (g, geometry) →
  (∀ v, v ∈ vis ↔ v ∈ vis') →
  ∃ w1 w2 d1 d2,
    startEdgeDrag vis [p0; p1] edgeIndex w = Returned w1
    ∧ startEdgeDrag vis' [p1; p0] edgeIndex w = Returned w2
    ∧ draggedEdge (store w1) = Some d1
    ∧ draggedEdge (store w2) = Some d2
    ∧ DraggedEdge.indices d1 = DraggedEdge.indices d2
    ∧ DraggedEdge.positions d1 = DraggedEdge.positions d2
    ∧ DraggedEdge.edgeIndices d1 = DraggedEdge.edgeIndices d2
    ∧ selectedElements (store w1) = selectedElements (store w2).
Proof.
  intros Hm Hsame.
  pose proof (startEdgeDrag_opens vis p0 p1 [] edgeIndex w g geometry Hm) as H1.
  pose proof (startEdgeDrag_opens vis' p1 p0 [] edgeIndex w g geometry Hm) as H2.
  simpl in H1, H2.
  rewrite <- (List.filter_ext _ _ (fun side =>
              sideHit_orientation vis vis' p0 p1 (position geometry) side Hsame))
    in H2.
  eexists _, _, _, _. split; [exact H1|]. split; [exact H2|].
  simpl. split_and!; reflexivity.
Qed.

Lemma startEdgeDrag_orientation_witness :
  ∃ w1 w2 d1 d2,
    startEdgeDrag [0; 1] [Sample.v 0 0 0; Sample.v 1 0 0] 0 (Sample.scene (Some 6))
    = Returned w1
    ∧ startEdgeDrag [1; 0] [Sample.v 1 0 0; Sample.v 0 0 0] 0 (Sample.scene (Some 6))
      = Returned w2
    ∧ draggedEdge (store w1) = Some d1
    ∧ draggedEdge (store w2) = Some d2
    ∧ DraggedEdge.indices d1 = DraggedEdge.indices d2.
Proof.
  destruct (startEdgeDrag_orientation [0; 1] [1; 0] (Sample.v 0 0 0) (Sample.v 1 0 0) 0
              (Sample.scene (Some 6)) 16 Sample.strip eq_refl)
    as (w1 & w2 & d1 & d2 & H1 & H2 & H3 & H4 & H5 & _).
  - intros v. rewrite !elem_of_cons, !elem_of_nil. tauto.
  - exists w1, w2, d1, d2. auto.
Defined.

Lemma sideMatches_short (vis : list nat) (positions : list Vector3)
    (v1Index v2Index : nat) (v1 v2 : Vector3) :
  length positions < 2 →
  sideMatches vis positions v1Index v2Index v1 v2
  = if includes vis v1Index && includes vis v2Index then Some true else None.
Proof.
  intros Hlen. unfold sideMatches.
  destruct (includes vis v1Index && includes vis v2Index); [done|].
  destruct positions as [|p0 [|p1 rest]]; simpl in *; [done| |lia].
  by destruct (distanceTo_lt v1 p0 epsilon).
Qed.

Lemma scanSides_short (vis : list nat) (positions : list Vector3)
    (a : BufferAttribute) (sides : list (nat * nat)) (acc : EdgeScan) :
  length positions < 2 →
  (forallb (fun side => includes vis side.1 && includes vis side.2) sides = true →
     ∃ scan, scanSides vis positions a sides acc = Some scan
             ∧ overlappingEdges scan = overlappingEdges acc ++ sides)
  ∧ (forallb (fun side => includes vis side.1 && includes vis side.2) sides = false →
     scanSides vis positions a sides acc = None).
Proof.
  intros Hlen. revert acc.
  induction sides as [|[v1 v2] sides IH]; intros acc; simpl.
  - split; [|done]. intros _. exists acc. by rewrite app_nil_r.
  - rewrite sideMatches_short by done. simpl.
    destruct (includes vis v1 && includes vis v2); simpl; [|done].
    destruct (IH (mkEdgeScan (overlappingEdges acc ++ [(v1, v2)])
                    (allPositions acc
                     ++ [clone (getXYZ a v1); clone (getXYZ a v2)])
                    (scanEdgeIndices acc
                     ++ [length (overlappingEdges acc ++ [(v1, v2)]) - 1])))
      as [Hall Hsome].
    split; [|exact Hsome].
    intros H. destruct (Hall H) as (scan & Hscan & Hedges).
    exists scan. split; [done|]. rewrite Hedges. simpl. by rewrite <- app_assoc.
Qed.

(** X11. When [startEdgeDrag] is given fewer than two positions on a
    selected mesh, it returns only if both indices of every scanned side
    are among [vertexIndices], and every scanned side is then a
    participant; otherwise the first other side makes it read a missing
    position: it throws a [TypeError] and the world is as before. *)
Theorem startEdgeDrag_missing_positions
    (vis : list nat) (positions : list Vector3) (edgeIndex : nat) (w : World)
    (g : nat) (geometry : BufferGeometry) :
  selectedMesh w = Some (g, geometry) →
  length positions < 2 →
  let start := startEdgeDrag vis positions edgeIndex w in
  let sides := scannedSides (count (position geometry)) in
  (returned start = true
   ↔ ∀ v1 v2, (v1, v2) ∈ sides → v1 ∈ vis ∧ v2 ∈ vis)
  ∧ (returned start = false → worldOf start = w)
  ∧ (returned start = true →
     ∃ d, draggedEdge (store (worldOf start)) = Some d
          ∧ DraggedEdge.indices d = sides
          ∧ DraggedEdge.initialPositions d = positions).
Proof.
  intros Hm Hlen. simpl. unfold startEdgeDrag. rewrite Hm.
  destruct (scanSides_short vis positions (position geometry)
              (scannedSides (count (position geometry)))
              (mkEdgeScan [] [] [edgeIndex]) Hlen) as [Hall Hsome].
  destruct (forallb _ (scannedSides (count (position geometry)))) eqn:E.
  - destruct (Hall eq_refl) as (scan & -> & Hedges). simpl.
    split_and!; try done.
    + split; [|done]. intros _ v1 v2 Hside.
      rewrite forallb_forall in E.
      apply list_elem_of_In, E, andb_true_iff in Hside. simpl in Hside.
      by rewrite <- !includes_elem.
    + intros _. eexists. split; [done|]. simpl. by rewrite map_clone.
  - rewrite (Hsome eq_refl). simpl. split_and!; try done.
    split; [done|]. intros H. exfalso.
    assert (forallb (fun side => includes vis side.1 && includes vis side.2)
              (scannedSides (count (position geometry))) = true); [|congruence].
    apply forallb_forall. intros [v1 v2] Hside.
    apply list_elem_of_In, H in Hside as [H1 H2]. simpl.
    apply andb_true_iff. by rewrite !includes_elem.
Qed.

Lemma startEdgeDrag_missing_positions_witness :
  returned (startEdgeDrag [0; 1] [] 0 (Sample.scene (Some 2))) = false
  ∧ worldOf (startEdgeDrag [0; 1] [] 0 (Sample.scene (Some 2))) = Sample.scene (Some 2).
Proof.
  destruct (startEdgeDrag_missing_positions [0; 1] [] 0 (Sample.scene (Some 2))
              12 Sample.triangle eq_refl) as (_ & Hthrown & _).
  - simpl. lia.
  - split; [reflexivity | apply Hthrown; reflexivity].
Defined.

(** ** What a drag leaves alone *)

Lemma sameTopology_refl (a : BufferGeometry) : sameTopology a a.
Proof. by unfold sameTopology. Qed.

Lemma sameTopology_trans (a b c : BufferGeometry) :
  sameTopology a b → sameTopology b c → sameTopology a c.
Proof. unfold sameTopology. intros (-> & -> & -> & ->) (-> & -> & -> & ->). done. Qed.

Lemma topology_refl (m : gmap nat BufferGeometry) (g : nat) :
  option_Forall2 sameTopology (m !! g) (m !! g).
Proof. destruct (m !! g); constructor. apply sameTopology_refl. Qed.

Lemma topology_insert (m : gmap nat BufferGeometry) (g g0 : nat)
    (geometry geometry' : BufferGeometry) :
  m !! g = Some geometry →
  sameTopology geometry geometry' →
  option_Forall2 sameTopology (m !! g0) (<[g := geometry']> m !! g0).
Proof.
  intros Hg Hsame. destruct (decide (g0 = g)) as [->|Hne].
  - rewrite lookup_insert_eq, Hg. by constructor.
  - rewrite lookup_insert_ne by done. apply topology_refl.
Qed.

Lemma updateVertexDrag_topology (t : Vector3) (w : World) :
  objs (updateVertexDrag t w) = objs w
  ∧ ∀ g, option_Forall2 sameTopology (geoms w !! g) (geoms (updateVertexDrag t w) !! g).
Proof.
  destruct (draggedVertex (store w)) as [d|] eqn:Hd;
    [|unfold updateVertexDrag; rewrite Hd; split; [done | apply topology_refl]].
  destruct (selectedMesh w) as [[g geometry]|] eqn:Hm;
    [|unfold updateVertexDrag; rewrite Hd, Hm; split; [done | apply topology_refl]].
  rewrite (updateVertexDrag_on_session t w d g geometry Hd Hm). simpl.
  split; [done|]. intros g0.
  destruct (selectedMesh_inv w g geometry Hm) as (o & _ & _ & Hg).
  apply (topology_insert _ _ _ geometry); [done|].
  unfold sameTopology, count. simpl. split_and!; try done.
  symmetry. apply writeAll_count.
Qed.

Lemma updateEdgeDrag_topology (p : Vector3) (w : World) :
  objs (worldOf (updateEdgeDrag p w)) = objs w
  ∧ ∀ g, option_Forall2 sameTopology (geoms w !! g)
           (geoms (worldOf (updateEdgeDrag p w)) !! g).
Proof.
  destruct (draggedEdge (store w)) as [d|] eqn:Hd;
    [|unfold updateEdgeDrag; rewrite Hd; split; [done | apply topology_refl]].
  destruct (selectedMesh w) as [[g geometry]|] eqn:Hm;
    [|unfold updateEdgeDrag; rewrite Hd, Hm; split; [done | apply topology_refl]].
  destruct (DraggedEdge.initialPositions d !! 0) as [initial|] eqn:Hi;
    [|unfold updateEdgeDrag; rewrite Hd, Hm, Hi; split; [done | apply topology_refl]].
  destruct (updateEdgeDrag_on_session p w d g geometry initial Hd Hm Hi) as [ver ->].
  assert (Hw : ∀ (b : bool) w0, worldOf ((if b then Returned else Thrown) w0) = w0)
    by (by intros []).
  rewrite Hw. simpl. split; [done|]. intros g0.
  destruct (selectedMesh_inv w g geometry Hm) as (o & _ & _ & Hg).
  apply (topology_insert _ _ _ geometry); [done|].
  unfold sameTopology, count. simpl. split_and!; try done.
  symmetry. apply applyWrites_length.
Qed.

Lemma startVertexDrag_heap (i : nat) (p : Vector3) (w : World) :
  objs (startVertexDrag i p w) = objs w ∧ geoms (startVertexDrag i p w) = geoms w.
Proof. unfold startVertexDrag. by destruct (selectedMesh w) as [[g geometry]|]. Qed.

Lemma startEdgeDrag_heap (vis : list nat) (positions : list Vector3) (edgeIndex : nat)
    (w : World) :
  objs (worldOf (startEdgeDrag vis positions edgeIndex w)) = objs w
  ∧ geoms (worldOf (startEdgeDrag vis positions edgeIndex w)) = geoms w.
Proof.
  unfold startEdgeDrag. destruct (selectedMesh w) as [[g geometry]|]; [|done].
  by destruct (scanSides _ _ _ _ _).
Qed.

(** X12. Only the resolution actions change what a mesh is made of: after
    any history of other store actions every scene object points to the
    geometry it pointed to, and every geometry has the class, the index
    buffer, the vertex count and the disposal flag it had.  The edges
    derived from the index buffer stay valid across drags. *)
Theorem only_resolution_changes_topology
    (cylinderBuffers : CylinderParameters → list Vector3 * list nat)
    (sphereBuffers : SphereParameters → list Vector3 * list nat)
    (actions : list Action) (w : World) :
  Forall (fun a => isResolutionAction a = false) actions →
  objs (run cylinderBuffers sphereBuffers actions w) = objs w
  ∧ ∀ g, option_Forall2 sameTopology (geoms w !! g)
           (geoms (run cylinderBuffers sphereBuffers actions w) !! g).
Proof.
  revert w. induction actions as [|a actions IH]; intros w Hall.
  - split; [done | apply topology_refl].
  - apply Forall_cons in Hall as [Ha Hall].
    destruct (IH (worldOf (perform cylinderBuffers sphereBuffers a w)) Hall)
      as [Hobjs Hgeoms].
    assert (Hstep :
      objs (worldOf (perform cylinderBuffers sphereBuffers a w)) = objs w
      ∧ ∀ g, option_Forall2 sameTopology (geoms w !! g)
               (geoms (worldOf (perform cylinderBuffers sphereBuffers a w)) !! g)).
    { destruct a as [| | | | | | | | | | |i q|q| |vis ps slot|q| | |];
        simpl in *; try done; try (split; [done | apply topology_refl]).
      - destruct (startVertexDrag_heap i q w) as [-> ->].
        split; [done | apply topology_refl].
      - apply updateVertexDrag_topology.
      - destruct (startEdgeDrag_heap vis ps slot w) as [-> ->].
        split; [done | apply topology_refl].
      - apply updateEdgeDrag_topology. }
    destruct Hstep as [Hobjs1 Hgeoms1].
    change (run cylinderBuffers sphereBuffers (a :: actions) w)
      with (run cylinderBuffers sphereBuffers actions
              (worldOf (perform cylinderBuffers sphereBuffers a w))).
    split; [by rewrite Hobjs|]. intros g.
    specialize (Hgeoms g). specialize (Hgeoms1 g).
    destruct Hgeoms1 as [a1 b1 H1|]; inversion Hgeoms as [b2 c2 H2 E1 E2|]; subst;
      constructor. by apply (sameTopology_trans a1 b1).
Qed.

Lemma only_resolution_changes_topology_witness :
  objs (run Sample.cylinderBuffers Sample.sphereBuffers
          [StartVertexDrag 2 (Sample.v 1 1 0); UpdateVertexDrag (Sample.v 2 2 2);
           EndVertexDrag]
          (Sample.scene (Some 1)))
  = objs (Sample.scene (Some 1)).
Proof.
  apply (only_resolution_changes_topology Sample.cylinderBuffers Sample.sphereBuffers
           [StartVertexDrag 2 (Sample.v 1 1 0); UpdateVertexDrag (Sample.v 2 2 2);
            EndVertexDrag]
           (Sample.scene (Some 1))).
  repeat constructor.
Defined.

(** ** Resolution changes *)

Lemma class_newCylinderGeometry
    (cylinderBuffers : CylinderParameters → list Vector3 * list nat)
    (p : CylinderParameters) :
  class (newCylinderGeometry cylinderBuffers p) = CylinderGeometry p.
Proof. unfold newCylinderGeometry. by destruct (cylinderBuffers p). Qed.

Lemma class_newSphereGeometry
    (sphereBuffers : SphereParameters → list Vector3 * list nat)
    (p : SphereParameters) :
  class (newSphereGeometry sphereBuffers p) = SphereGeometry p.
Proof. unfold newSphereGeometry. by destruct (sphereBuffers p). Qed.

(** The world after a geometry was replaced: the selected mesh is the
    mesh it was, with the new geometry. *)
Lemma replaceGeometry_selectedMesh (w : World) (g : nat) (old new : BufferGeometry) :
  selectedMesh w = Some (g, old) →
  ∃ o, selectedObject (store w) = Some o
       ∧ objs w !! o = Some (Mesh g)
       ∧ geoms w !! g = Some old
       ∧ selectedMesh (replaceGeometry w o g old new)
         = Some (fresh (dom (geoms w)), new)
       ∧ editMode (store (replaceGeometry w o g old new)) = editMode (store w)
       ∧ selectedElements (store (replaceGeometry w o g old new)) = emptySelection.
Proof.
  intros (o & Hs & Ho & Hg)%selectedMesh_inv. exists o. split_and!; try done.
  unfold selectedMesh, replaceGeometry. simpl. by rewrite Hs, !lookup_insert_eq.
Qed.

Lemma updateCylinderVertices_on
    (cylinderBuffers : CylinderParameters → list Vector3 * list nat)
    (n : Q) (w : World) (g : nat) (old : BufferGeometry) (p : CylinderParameters) :
  selectedMesh w = Some (g, old) →
  cylinderParametersOf (class old) n = Some p →
  selectedMesh (updateCylinderVertices cylinderBuffers n w)
  = Some (fresh (dom (geoms w)), newCylinderGeometry cylinderBuffers p)
  ∧ editMode (store (updateCylinderVertices cylinderBuffers n w)) = editMode (store w)
  ∧ selectedElements (store (updateCylinderVertices cylinderBuffers n w))
    = emptySelection.
Proof.
  intros Hm Hp.
  destruct (replaceGeometry_selectedMesh w g old
              (newCylinderGeometry cylinderBuffers p) Hm)
    as (o & Hs & Ho & Hg & Hm' & He & Hsel).
  unfold updateCylinderVertices. by rewrite Hs, Ho, Hg, Hp.
Qed.

Lemma updateSphereVertices_on
    (sphereBuffers : SphereParameters → list Vector3 * list nat)
    (n : Q) (w : World) (g : nat) (old : BufferGeometry) (p : SphereParameters) :
  selectedMesh w = Some (g, old) →
  sphereParametersOf (class old) n = Some p →
  selectedMesh (updateSphereVertices sphereBuffers n w)
  = Some (fresh (dom (geoms w)), newSphereGeometry sphereBuffers p)
  ∧ editMode (store (updateSphereVertices sphereBuffers n w)) = editMode (store w)
  ∧ selectedElements (store (updateSphereVertices sphereBuffers n w))
    = emptySelection.
Proof.
  intros Hm Hp.
  destruct (replaceGeometry_selectedMesh w g old
              (newSphereGeometry sphereBuffers p) Hm)
    as (o & Hs & Ho & Hg & Hm' & He & Hsel).
  unfold updateSphereVertices. by rewrite Hs, Ho, Hg, Hp.
Qed.

(** X13. Resolution changes do not build on each other: changing the
    count to [n] and then to [m] gives the selected mesh the geometry that
    changing it to [m] at once gives, for a cylinder (or cone) and for a
    sphere. *)
Theorem resolution_changes_do_not_accumulate
    (cylinderBuffers : CylinderParameters → list Vector3 * list nat)
    (sphereBuffers : SphereParameters → list Vector3 * list nat)
    (n m : Q) (w : World) (g : nat) (old : BufferGeometry) :
  selectedMesh w = Some (g, old) →
  (instanceofCylinderGeometry (class old) = true →
   ∃ g1 g2 geometry,
     selectedMesh (updateCylinderVertices cylinderBuffers m
                     (updateCylinderVertices cylinderBuffers n w))
     = Some (g1, geometry)
     ∧ selectedMesh (updateCylinderVertices cylinderBuffers m w) = Some (g2, geometry))
  ∧ (instanceofSphereGeometry (class old) = true →
     ∃ g1 g2 geometry,
       selectedMesh (updateSphereVertices sphereBuffers m
                       (updateSphereVertices sphereBuffers n w))
       = Some (g1, geometry)
       ∧ selectedMesh (updateSphereVertices sphereBuffers m w) = Some (g2, geometry)).
Proof.
  intros Hm. split; intros Hclass.
  - assert (∃ p1 p2, cylinderParametersOf (class old) n = Some p1
                     ∧ cylinderParametersOf (class old) m = Some p2
                     ∧ cylinderParametersOf (CylinderGeometry p1) m = Some p2)
      as (p1 & p2 & H1 & H2 & H12)
      by (destruct (class old); try done; by eexists _, _).
    destruct (updateCylinderVertices_on cylinderBuffers n w g old p1 Hm H1) as (Hm1 & _).
    destruct (updateCylinderVertices_on cylinderBuffers m w g old p2 Hm H2) as (Hm2 & _).
    destruct (updateCylinderVertices_on cylinderBuffers m _ _ _ p2 Hm1) as (Hm3 & _);
      [by rewrite class_newCylinderGeometry|].
    by eexists _, _, _.
  - assert (∃ p1 p2, sphereParametersOf (class old) n = Some p1
                     ∧ sphereParametersOf (class old) m = Some p2
                     ∧ sphereParametersOf (SphereGeometry p1) m = Some p2)
      as (p1 & p2 & H1 & H2 & H12)
      by (destruct (class old); try done; by eexists _, _).
    destruct (updateSphereVertices_on sphereBuffers n w g old p1 Hm H1) as (Hm1 & _).
    destruct (updateSphereVertices_on sphereBuffers m w g old p2 Hm H2) as (Hm2 & _).
    destruct (updateSphereVertices_on sphereBuffers m _ _ _ p2 Hm1) as (Hm3 & _);
      [by rewrite class_newSphereGeometry|].
    by eexists _, _, _.
Qed.

Lemma resolution_changes_do_not_accumulate_witness :
  ∃ g1 g2 geometry,
    selectedMesh (updateSphereVertices Sample.sphereBuffers 8
                    (updateSphereVertices Sample.sphereBuffers 64 (Sample.scene (Some 5))))
    = Some (g1, geometry)
    ∧ selectedMesh (updateSphereVertices Sample.sphereBuffers 8 (Sample.scene (Some 5)))
      = Some (g2, geometry).
Proof.
  apply (resolution_changes_do_not_accumulate Sample.cylinderBuffers Sample.sphereBuffers
           64 8 (Sample.scene (Some 5)) 15 Sample.sphere eq_refl).
  reflexivity.
Defined.

(** X14. The vertex-count selector reads back what it set: when the
    selector is shown, picking a count replaces the geometry, after which
    the selector is shown again with that count as the current one and
    with the same options and action; the selection lists are empty. *)
Theorem count_selector_round_trip
    (cylinderBuffers : CylinderParameters → list Vector3 * list nat)
    (sphereBuffers : SphereParameters → list Vector3 * list nat)
    (value : Q) (w : World) (selector : View.CountSelector) :
  View.countSelectorShown w = Some selector →
  let w' := View.chooseVertexCount cylinderBuffers sphereBuffers value w in
  View.countSelectorShown w'
  = Some (View.mkCountSelector value (View.options selector) (View.onChange selector))
  ∧ selectedElements (store w') = emptySelection.
Proof.
  intros Hshown. simpl. unfold View.chooseVertexCount. rewrite Hshown.
  unfold View.countSelectorShown, View.vertexCountSelector in *.
  destruct (editMode (store w)) as [[| | |]|] eqn:He; try done.
  destruct (selectedMesh w) as [[g old]|] eqn:Hm; [|done].
  destruct (class old) as [| |p|p|p] eqn:Hc; simpl in Hshown; try done;
    injection Hshown as <-; simpl.
  - destruct (updateCylinderVertices_on cylinderBuffers value w g old
                (mkCylinderParameters (radiusTop p) (radiusBottom p) (height p) value
                   (heightSegments p) (openEnded p) (thetaStart p) (thetaLength p))
                Hm) as (Hm' & He' & Hsel); [by rewrite Hc|].
    by rewrite He', He, Hm', class_newCylinderGeometry.
  - destruct (updateSphereVertices_on sphereBuffers value w g old
                (mkSphereParameters (radius p) value (value / 2)%Q (phiStart p)
                   (phiLength p) (sphere_thetaStart p) (sphere_thetaLength p))
                Hm) as (Hm' & He' & Hsel); [by rewrite Hc|].
    by rewrite He', He, Hm', class_newSphereGeometry.
Qed.

Lemma count_selector_round_trip_witness :
  View.countSelectorShown
    (View.chooseVertexCount Sample.cylinderBuffers Sample.sphereBuffers 16
       (Sample.scene (Some 4)))
  = Some (View.mkCountSelector 16 [32; 16; 8]%Q View.CylinderCount).
Proof.
  apply (count_selector_round_trip Sample.cylinderBuffers Sample.sphereBuffers 16
           (Sample.scene (Some 4))
           (View.mkCountSelector 32 [32; 16; 8]%Q View.CylinderCount)).
  reflexivity.
Defined.

(** * Properties of the scene view *)

(** ** Pointer handlers *)

Lemma startEdgeDrag_snapshot (vis : list nat) (positions : list Vector3)
    (edgeIndex : nat) (w : World) :
  sessionSnapshot w →
  sessionSnapshot (worldOf (startEdgeDrag vis positions edgeIndex w)).
Proof.
  intros Hw. unfold startEdgeDrag.
  destruct (selectedMesh w) as [[g geometry]|]; [|done].
  destruct (scanSides _ _ _ _ _) as [scan|] eqn:Hscan; [|done].
  intros d [= <-]. exists (position geometry). simpl.
  by apply (scanSides_snapshot _ _ _ _ _ _ Hscan).
Qed.

Lemma reachable_sessionSnapshot
    (cylinderBuffers : CylinderParameters → list Vector3 * list nat)
    (sphereBuffers : SphereParameters → list Vector3 * list nat)
    (w : World) :
  reachable cylinderBuffers sphereBuffers w → sessionSnapshot w.
Proof.
  intros (objs0 & geoms0 & actions & ->).
  apply (run_invariant cylinderBuffers sphereBuffers sessionSnapshot);
    [|by intros d [=]].
  intros a w Hw.
  destruct a as [| | | | | | | | | | |i q|q| |vis ps slot|q| | |];
    simpl; try exact Hw.
  - unfold sessionSnapshot. by rewrite startVertexDrag_draggedEdge.
  - unfold sessionSnapshot. by rewrite updateVertexDrag_draggedEdge.
  - by apply startEdgeDrag_snapshot.
  - unfold sessionSnapshot. by rewrite updateEdgeDrag_store.
  - by intros d [=].
  - unfold sessionSnapshot. by rewrite updateCylinderVertices_draggedEdge.
  - unfold sessionSnapshot. by rewrite updateSphereVertices_draggedEdge.
Qed.

(** X15. In a reachable world a pointer move never leaves a half-moved
    group: if [handlePointerMove] throws, the world is as it was.  With a
    vertex session open it does not throw.  With only an edge session
    open, and the overlay active, it throws whenever the session has no
    participant pair, since the plane then has no anchor. *)
Theorem pointer_move_all_or_nothing
    (cylinderBuffers : CylinderParameters → list Vector3 * list nat)
    (sphereBuffers : SphereParameters → list Vector3 * list nat)
    (localHit : Vector3 → option Vector3) (w : World) :
  reachable cylinderBuffers sphereBuffers w →
  (returned (View.handlePointerMove localHit w) = false →
     worldOf (View.handlePointerMove localHit w) = w)
  ∧ (is_Some (draggedVertex (store w)) →
     returned (View.handlePointerMove localHit w) = true)
  ∧ (∀ d, View.overlayActive w = true →
          draggedVertex (store w) = None →
          draggedEdge (store w) = Some d →
          DraggedEdge.indices d = [] →
          View.handlePointerMove localHit w = Thrown w).
Proof.
  intros Hreach. unfold View.handlePointerMove. split_and!.
  - destruct (View.overlayActive w); [|done].
    destruct (draggedVertex (store w)) as [dv|].
    { by destruct (localHit _). }
    destruct (draggedEdge (store w)) as [de|]; [|done].
    destruct (DraggedEdge.positions de !! 0) as [anchor|]; [|done].
    destruct (localHit anchor) as [t|]; [|done].
    apply (updateEdgeDrag_thrown_reachable cylinderBuffers sphereBuffers t w Hreach).
  - intros [dv Hdv]. rewrite Hdv.
    destruct (View.overlayActive w); [|done]. by destruct (localHit _).
  - intros d Hactive Hdv Hde Hnil. rewrite Hactive, Hdv, Hde.
    destruct (reachable_sessionSnapshot _ _ w Hreach d Hde) as [a0 Hsnap].
    by rewrite Hsnap, Hnil.
Qed.

Lemma pointer_move_all_or_nothing_witness :
  View.handlePointerMove (fun anchor => Some anchor)
    (worldOf (startEdgeDrag [1; 3] [Sample.v 1 0 0; Sample.v 1 1 0] 3
                (Sample.scene (Some 6))))
  = Thrown (worldOf (startEdgeDrag [1; 3] [Sample.v 1 0 0; Sample.v 1 1 0] 3
                       (Sample.scene (Some 6)))).
Proof.
  destruct (pointer_move_all_or_nothing Sample.cylinderBuffers Sample.sphereBuffers
              (fun anchor => Some anchor)
              (worldOf (startEdgeDrag [1; 3] [Sample.v 1 0 0; Sample.v 1 1 0] 3
                          (Sample.scene (Some 6)))))
    as (_ & _ & Hthrow).
  - apply (reachable_step _ _
             (StartEdgeDrag [1; 3] [Sample.v 1 0 0; Sample.v 1 1 0] 3)
             _ (sample_reachable 6)).
  - apply (Hthrow (DraggedEdge.mk [] [] [Sample.v 1 0 0; Sample.v 1 1 0] [3]));
      reflexivity.
Defined.

(** What [handlePointerUp] leaves when the overlay is active. *)
Lemma pointer_up_fields (w : World) :
  View.overlayActive w = true →
  draggedVertex (store (View.handlePointerUp w)) = None
  ∧ draggedEdge (store (View.handlePointerUp w)) = None
  ∧ objs (View.handlePointerUp w) = objs w
  ∧ geoms (View.handlePointerUp w) = geoms w
  ∧ selectedObject (store (View.handlePointerUp w)) = selectedObject (store w)
  ∧ selectedElements (store (View.handlePointerUp w)) = selectedElements (store w)
  ∧ editMode (store (View.handlePointerUp w)) = editMode (store w).
Proof.
  intros Hactive. unfold View.handlePointerUp. rewrite Hactive.
  destruct (draggedVertex (store w)) eqn:Hv, (draggedEdge (store w)) eqn:He;
    simpl; by rewrite ?Hv, ?He.
Qed.

(** X16. Releasing the pointer ends the drag and nothing else: with the
    overlay active, [handlePointerUp] closes both sessions and leaves the
    buffers, the selection, the selected object and the modes as they are
    (no rollback); after it, pointer moves and further releases do
    nothing. *)
Theorem pointer_up_ends_drag (w : World) :
  View.overlayActive w = true →
  let w' := View.handlePointerUp w in
  draggedVertex (store w') = None
  ∧ draggedEdge (store w') = None
  ∧ objs w' = objs w
  ∧ geoms w' = geoms w
  ∧ objects (store w') = objects (store w)
  ∧ selectedObject (store w') = selectedObject (store w)
  ∧ selectedElements (store w') = selectedElements (store w)
  ∧ editMode (store w') = editMode (store w)
  ∧ (∀ localHit, View.handlePointerMove localHit w' = Returned w')
  ∧ View.handlePointerUp w' = w'.
Proof.
  intros Hactive. simpl.
  assert (Hfields :
    draggedVertex (store (View.handlePointerUp w)) = None
    ∧ draggedEdge (store (View.handlePointerUp w)) = None
    ∧ View.overlayActive (View.handlePointerUp w) = true).
  { unfold View.handlePointerUp. rewrite Hactive.
    destruct (draggedVertex (store w)) eqn:Hv, (draggedEdge (store w)) eqn:He;
      simpl; by rewrite ?Hv, ?He. }
  destruct Hfields as (Hv' & He' & Hactive').
  split_and!; try done;
    try (unfold View.handlePointerUp; rewrite Hactive;
         by destruct (draggedVertex (store w)), (draggedEdge (store w))).
  - intros localHit. unfold View.handlePointerMove.
    by rewrite Hactive', Hv', He'.
  - unfold View.handlePointerUp at 1. by rewrite Hactive', Hv', He'.
Qed.

Lemma pointer_up_ends_drag_witness :
  draggedVertex
    (store (View.handlePointerUp
              (updateVertexDrag (Sample.v 2 2 2)
                 (startVertexDrag 2 (Sample.v 1 1 0) (Sample.scene (Some 1))))))
  = None
  ∧ geoms (View.handlePointerUp
             (updateVertexDrag (Sample.v 2 2 2)
                (startVertexDrag 2 (Sample.v 1 1 0) (Sample.scene (Some 1)))))
    = geoms (updateVertexDrag (Sample.v 2 2 2)
               (startVertexDrag 2 (Sample.v 1 1 0) (Sample.scene (Some 1)))).
Proof.
  destruct (pointer_up_ends_drag
              (updateVertexDrag (Sample.v 2 2 2)
                 (startVertexDrag 2 (Sample.v 1 1 0) (Sample.scene (Some 1)))))
    as (Hv & _ & _ & Hg & _); [reflexivity|].
  split; [exact Hv | exact Hg].
Defined.

(** X17. Switching the edit mode off in the middle of a drag does not end
    the drag: [setEditMode(null)] keeps both sessions in the store, and
    from then on neither pointer handler reacts, so releasing the pointer
    does not close them. *)
Theorem leaving_edit_mode_keeps_session (w : World) :
  let w' := setEditMode None w in
  draggedVertex (store w') = draggedVertex (store w)
  ∧ draggedEdge (store w') = draggedEdge (store w)
  ∧ View.handlePointerUp w' = w'
  ∧ (∀ localHit, View.handlePointerMove localHit w' = Returned w')
  ∧ (∀ mode, draggedVertex (store (setEditMode (Some mode) w'))
             = draggedVertex (store w)
           ∧ draggedEdge (store (setEditMode (Some mode) w'))
             = draggedEdge (store w)).
Proof.
  simpl. split_and!; try reflexivity. intros mode. by split.
Qed.

(** ** The coordinate panel and the vertex handles *)

Lemma selectedMesh_isMesh (w : World) (g : nat) (geometry : BufferGeometry) :
  selectedMesh w = Some (g, geometry) → View.selectedIsMesh w = true.
Proof.
  intros (o & Hs & Ho & _)%selectedMesh_inv. unfold View.selectedIsMesh.
  by rewrite Hs, Ho.
Qed.

Lemma selectedIsMesh_same_objs (w w' : World) :
  selectedObject (store w') = selectedObject (store w) →
  objs w' = objs w →
  View.selectedIsMesh w' = View.selectedIsMesh w.
Proof. unfold View.selectedIsMesh. by intros -> ->. Qed.

(** X18. The coordinate panel reads back what is typed during a drag: in
    vertex mode, with a vertex session open on the selected mesh, the
    panel shows the session's position; typing a value for one axis
    replaces that axis of the shown position (by 0 when the text parses to
    NaN), the panel then shows that point, and every vertex of the group
    the buffer has reads back that point rounded to single precision. *)
Theorem coordinate_edit_during_drag
    (toWorld : Vector3 → Vector3) (axis : View.Axis) (parsed : JS.number)
    (w : World) (d : DraggedVertex.t) (g : nat) (geometry : BufferGeometry) :
  editMode (store w) = Some VertexMode →
  selectedMesh w = Some (g, geometry) →
  draggedVertex (store w) = Some d →
  let shown := DraggedVertex.position d in
  let typed := View.setAxis axis (JS.orZero parsed) shown in
  let w' := View.handleChange shown axis parsed w in
  View.selectedPositionEffect toWorld w = Some shown
  ∧ View.selectedPositionEffect toWorld w' = Some typed
  ∧ ∃ geometry',
      selectedMesh w' = Some (g, geometry')
      ∧ ∀ i, i ∈ DraggedVertex.indices d → i < count (position geometry) →
             getXYZ (position geometry') i = float32 typed.
Proof.
  intros He Hm Hd. simpl.
  pose proof (selectedMesh_isMesh w g geometry Hm) as Hmesh.
  unfold View.handleChange, View.handlePositionChange. rewrite Hmesh, clone_id.
  set (typed := View.setAxis axis (JS.orZero parsed) (DraggedVertex.position d)).
  rewrite (updateVertexDrag_on_session typed w d g geometry Hd Hm).
  split_and!.
  - unfold View.selectedPositionEffect. by rewrite He, Hmesh, Hd.
  - match goal with |- View.selectedPositionEffect _ ?w1 = _ => set (w' := w1) end.
    assert (Hmesh' : View.selectedIsMesh w' = true)
      by (by rewrite (selectedIsMesh_same_objs w)).
    unfold View.selectedPositionEffect. rewrite Hmesh'. subst w'. simpl.
    by rewrite He.
  - eexists. split; [by apply (selectedMesh_after_write w g geometry)|].
    intros i Hi Hlt. unfold getXYZ. cbn [position withPosition markNeedsUpdate array].
    by rewrite writeAll_inside.
Qed.

Lemma coordinate_edit_during_drag_witness :
  View.selectedPositionEffect (fun p => p)
    (View.handleChange (Sample.v 1 1 0) View.AxisZ (JS.decimal 1 1)
       (startVertexDrag 2 (Sample.v 1 1 0) (Sample.scene (Some 1))))
  = Some (mkVector3 (JS.ofZ 1) (JS.ofZ 1) (JS.decimal 1 1)).
Proof.
  apply (coordinate_edit_during_drag (fun p => p) View.AxisZ (JS.decimal 1 1)
           (startVertexDrag 2 (Sample.v 1 1 0) (Sample.scene (Some 1)))
           (DraggedVertex.mk [2; 3] (Sample.v 1 1 0) (Sample.v 1 1 0))
           11 Sample.bowtie eq_refl eq_refl eq_refl).
Defined.

(** X19. After the pointer is released the coordinate panel is still
    shown but no longer edits anything: in vertex mode, once
    [handlePointerUp] has closed a vertex session on the selected mesh
    while vertices are selected, the panel shows the first selected
    vertex, and whatever is typed into it leaves the world as it is. *)
Theorem coordinate_edit_after_release
    (toWorld : Vector3 → Vector3) (w : World) (d : DraggedVertex.t) (g : nat)
    (geometry : BufferGeometry) (first : nat) (others : list nat) :
  editMode (store w) = Some VertexMode →
  selectedMesh w = Some (g, geometry) →
  draggedVertex (store w) = Some d →
  SelectedElements.vertices (selectedElements (store w)) = first :: others →
  let w' := View.handlePointerUp w in
  View.selectedPositionEffect toWorld w'
  = Some (toWorld (getXYZ (position geometry) first))
  ∧ ∀ shown axis parsed, View.handleChange shown axis parsed w' = w'.
Proof.
  intros He Hm Hd Hsel. simpl.
  pose proof (selectedMesh_isMesh w g geometry Hm) as Hmesh.
  assert (Hactive : View.overlayActive w = true)
    by (unfold View.overlayActive; by rewrite He).
  destruct (pointer_up_fields w Hactive)
    as (Hv & _ & Hobjs & Hgeoms & Hso & Hse & Hem).
  assert (Hmesh' : View.selectedIsMesh (View.handlePointerUp w) = true)
    by (by rewrite (selectedIsMesh_same_objs w)).
  split.
  - unfold View.selectedPositionEffect.
    rewrite Hem, He, Hmesh', Hv, Hse, Hsel.
    by rewrite (selectedMesh_same_heap w), Hm.
  - intros shown axis parsed.
    unfold View.handleChange, View.handlePositionChange. rewrite Hmesh'.
    unfold updateVertexDrag. by rewrite Hv.
Qed.

Lemma coordinate_edit_after_release_witness :
  View.handleChange (Sample.v 2 2 2) View.AxisX (JS.ofZ 9)
    (View.handlePointerUp
       (updateVertexDrag (Sample.v 2 2 2)
          (startVertexDrag 2 (Sample.v 1 1 0) (Sample.scene (Some 1)))))
  = View.handlePointerUp
      (updateVertexDrag (Sample.v 2 2 2)
         (startVertexDrag 2 (Sample.v 1 1 0) (Sample.scene (Some 1)))).
Proof.
  apply (coordinate_edit_after_release (fun p => p)
           (updateVertexDrag (Sample.v 2 2 2)
              (startVertexDrag 2 (Sample.v 1 1 0) (Sample.scene (Some 1))))
           (DraggedVertex.mk [2; 3] (Sample.v 2 2 2) (Sample.v 1 1 0))
           11
           (withPosition Sample.bowtie
              (mkAttribute [Sample.v 0 0 0; Sample.v 1 0 0; Sample.v 2 2 2;
                            Sample.v 2 2 2; Sample.v 2 1 0; Sample.v 2 2 0] 1))
           2 [3] eq_refl eq_refl eq_refl eq_refl).
Defined.

(** X20. Clicking a vertex handle highlights its coincidence group: in
    vertex mode on a selected mesh, after the handle of vertex [i] is
    clicked, the handle of a vertex [j] of the buffer is red exactly when
    the distance of [j] from [i], as [startVertexDrag] computes it in
    double precision, compares below the double [0.0001]; the handle of
    [i] itself is red when the point of [i] has finite coordinates; and
    the same handles are rendered as before. *)
Theorem clicked_vertex_highlights_group
    (toWorld : Vector3 → Vector3) (i : nat) (w : World) (g : nat)
    (geometry : BufferGeometry) :
  editMode (store w) = Some VertexMode →
  selectedMesh w = Some (g, geometry) →
  i < count (position geometry) →
  let w' := View.clickVertexHandle toWorld i w in
  View.vertexHandles w' = View.vertexHandles w
  ∧ (∀ j, j < count (position geometry) →
          (View.vertexHandleColor w' j = View.Red
           ↔ JS.lt (distanceTo (getXYZ (position geometry) j)
                      (getXYZ (position geometry) i)) epsilon = true))
  ∧ (isFinite (getXYZ (position geometry) i) = true →
     View.vertexHandleColor w' i = View.Red).
Proof.
  intros He Hm Hi. simpl.
  pose proof (selectedMesh_isMesh w g geometry Hm) as Hmesh.
  assert (Hhandles : View.vertexHandles w = seq 0 (count (position geometry))).
  { unfold View.vertexHandles, View.overlayActive. by rewrite He, Hmesh, Hm. }
  assert (Hclick : View.clickVertexHandle toWorld i w
                   = startVertexDrag i (toWorld (getXYZ (position geometry) i)) w).
  { unfold View.clickVertexHandle. rewrite Hhandles, Hm.
    assert (existsb (Nat.eqb i) (seq 0 (count (position geometry))) = true) as ->;
      [|done].
    apply existsb_exists. exists i. split; [apply in_seq; lia | apply Nat.eqb_refl]. }
  rewrite Hclick.
  assert (Hred : ∀ j, j < count (position geometry) →
            (View.vertexHandleColor
               (startVertexDrag i (toWorld (getXYZ (position geometry) i)) w) j
             = View.Red
             ↔ JS.lt (distanceTo (getXYZ (position geometry) j)
                        (getXYZ (position geometry) i)) epsilon = true)).
  { intros j Hj. unfold View.vertexHandleColor, startVertexDrag. rewrite Hm.
    cbn [store withStore setDraggedVertex setSelectedElementsField selectedElements
         SelectedElements.vertices].
    rewrite overlapScan_filter. cbn [app].
    destruct (includes _ j) eqn:E.
    - split; [intros _|done]. apply includes_elem in E.
      by apply list_elem_of_In, filter_In in E as [_ E].
    - split; [done|]. intros Hclose. exfalso.
      assert (includes
                (List.filter
                   (fun j0 => distanceTo_lt (getXYZ (position geometry) j0)
                                (getXYZ (position geometry) i) epsilon)
                   (seq 0 (count (position geometry)))) j = true); [|congruence].
      apply includes_elem, list_elem_of_In, filter_In. split; [apply in_seq; lia|].
      exact Hclose. }
  split_and!.
  - unfold startVertexDrag. rewrite Hm. unfold View.vertexHandles, View.overlayActive.
    simpl. rewrite He.
    rewrite (selectedIsMesh_same_objs w), Hmesh by done.
    by rewrite (selectedMesh_same_heap w), Hm.
  - exact Hred.
  - intros Hfinite. apply Hred; [done|]. by apply distanceTo_lt_self.
Qed.

Lemma clicked_vertex_highlights_group_witness :
  View.vertexHandles (View.clickVertexHandle (fun p => p) 2 (Sample.scene (Some 1)))
  = View.vertexHandles (Sample.scene (Some 1)).
Proof.
  apply (clicked_vertex_highlights_group (fun p => p) 2 (Sample.scene (Some 1))
           11 Sample.bowtie eq_refl eq_refl).
  unfold count. simpl. lia.
Defined.

(** ** The selection and the visible objects *)

Lemma find_by_id_unique (id : string) (l : list SceneObject.t) (e : SceneObject.t) :
  NoDup (map SceneObject.id l) →
  e ∈ l → SceneObject.id e = id →
  List.find (fun obj => String.eqb (SceneObject.id obj) id) l = Some e.
Proof.
  intros Hnd He Hid. induction l as [|e1 l IH]; [by apply elem_of_nil in He|].
  simpl in *. apply NoDup_cons in Hnd as [Hfresh Hnd].
  destruct (String.eqb_spec (SceneObject.id e1) id) as [E|Hne].
  - apply elem_of_cons in He as [->|He]; [done|]. exfalso. apply Hfresh.
    rewrite E, <- Hid. change (map SceneObject.id l) with (SceneObject.id <$> l).
    apply list_elem_of_fmap. by exists e.
  - apply elem_of_cons in He as [->|He]; [congruence|]. by apply IH.
Qed.

Lemma NoDup_ids_filter (P : SceneObject.t → Prop) `{∀ e, Decision (P e)}
    (l : list SceneObject.t) :
  NoDup (map SceneObject.id l) → NoDup (map SceneObject.id (filter P l)).
Proof.
  induction l as [|e l IH]; [done|]. simpl. intros [Hfresh Hnd]%NoDup_cons.
  rewrite filter_cons. case_decide; [|by apply IH]. simpl.
  apply NoDup_cons. split; [|by apply IH].
  intros Hin. apply Hfresh.
  change (map SceneObject.id ?m) with (SceneObject.id <$> m) in *.
  apply list_elem_of_fmap in Hin as (e' & -> & He').
  apply list_elem_of_fmap. exists e'. split; [done|].
  by apply list_elem_of_filter in He' as [_ He'].
Qed.

Lemma map_keeps_ids (f : SceneObject.t → SceneObject.t) (l : list SceneObject.t) :
  (∀ e, SceneObject.id (f e) = SceneObject.id e) →
  map SceneObject.id (map f l) = map SceneObject.id l.
Proof.
  intros Hf. rewrite List.map_map. apply List.map_ext. intros e. apply Hf.
Qed.

(** The actions that leave the object list and the selected object. *)
Lemma perform_listing
    (cylinderBuffers : CylinderParameters → list Vector3 * list nat)
    (sphereBuffers : SphereParameters → list Vector3 * list nat)
    (a : Action) (w : World) :
  match a with
  | AddObject _ _ _ | RemoveObject _ | SetSelectedObject _
  | ToggleVisibility _ | UpdateObjectName _ _ => True
  | _ =>
      objects (store (worldOf (perform cylinderBuffers sphereBuffers a w)))
      = objects (store w)
      ∧ selectedObject (store (worldOf (perform cylinderBuffers sphereBuffers a w)))
        = selectedObject (store w)
  end.
Proof.
  destruct a as [| | | | | | | | | | |i q|q| |vis ps slot|q| |n|n]; simpl; try done.
  - unfold startVertexDrag. by destruct (selectedMesh w) as [[g geometry]|].
  - unfold updateVertexDrag. destruct (draggedVertex (store w)); [|done].
    by destruct (selectedMesh w) as [[g geometry]|].
  - unfold startEdgeDrag. destruct (selectedMesh w) as [[g geometry]|]; [|done].
    by destruct (scanSides _ _ _ _ _).
  - by rewrite updateEdgeDrag_store.
  - unfold updateCylinderVertices.
    destruct (selectedObject (store w)) as [o|] eqn:Hs; [|by rewrite Hs].
    destruct (objs w !! o) as [[g|]|]; try by rewrite Hs.
    destruct (geoms w !! g) as [old|]; [|by rewrite Hs].
    destruct (cylinderParametersOf _ _); by rewrite ?Hs.
  - unfold updateSphereVertices.
    destruct (selectedObject (store w)) as [o|] eqn:Hs; [|by rewrite Hs].
    destruct (objs w !! o) as [[g|]|]; try by rewrite Hs.
    destruct (geoms w !! g) as [old|]; [|by rewrite Hs].
    destruct (sphereParametersOf _ _); by rewrite ?Hs.
Qed.

Lemma gesture_keeps_selection_visible
    (cylinderBuffers : CylinderParameters → list Vector3 * list nat)
    (sphereBuffers : SphereParameters → list Vector3 * list nat)
    (gesture : View.Gesture) (w : World) :
  NoDup (View.ids w) → View.selectionVisible w →
  View.gestureAllowed gesture w →
  NoDup (View.ids (worldOf (View.performGesture cylinderBuffers sphereBuffers gesture w)))
  ∧ View.selectionVisible
      (worldOf (View.performGesture cylinderBuffers sphereBuffers gesture w)).
Proof.
  intros Hnd Hvis Hallowed. unfold View.ids, View.selectionVisible in *.
  destruct gesture as [a|k].
  - pose proof (perform_listing cylinderBuffers sphereBuffers a w) as Hsame.
    destruct a as [id o n|id|[o|]|mode|mode|id|id n| | | |ty l|i q|q| |vis ps slot|q| |n|n];
      simpl in *; try done;
      try (match type of Hsame with
           | _ ∧ _ => destruct Hsame as [Hobjects Hselected];
                      by rewrite Hobjects, Hselected
           end).
    + (* addObject *)
      split.
      * rewrite List.map_app. simpl. apply NoDup_app. split_and!; [done| |].
        -- intros x Hx ->%list_elem_of_singleton. by apply Hallowed.
        -- apply NoDup_singleton.
      * intros sel Hsel. destruct (Hvis sel Hsel) as (e & He & Hobj & Hv).
        exists e. split; [|done]. apply elem_of_app. by left.
    + (* removeObject *)
      rewrite filter_by_id. split; [by apply NoDup_ids_filter|].
      intros sel Hsel.
      destruct (selectedObject (store w)) as [sel0|] eqn:Hs;
        [|by destruct (List.find _ _)].
      destruct (Hvis sel0 eq_refl) as (e & He & Hobj & Hv).
      destruct (decide (SceneObject.id e = id)) as [Hid|Hid].
      * rewrite (find_by_id_unique id _ e Hnd He Hid), Hobj, Nat.eqb_refl in Hsel.
        done.
      * assert (sel = sel0) as ->.
        { destruct (List.find _ _) as [e1|]; [|congruence].
          destruct (Nat.eqb _ _); congruence. }
        exists e. split; [|done]. by apply list_elem_of_filter.
    + (* toggleVisibility *)
      set (flip := fun obj =>
        SceneObject.mk (SceneObject.id obj) (SceneObject.object obj)
          (SceneObject.name obj) (negb (SceneObject.visible obj))).
      split.
      * rewrite map_keeps_ids; [done|]. intros e.
        by destruct (String.eqb (SceneObject.id e) id).
      * intros sel Hsel.
        fold flip in Hsel. rewrite (find_toggled id flip) in Hsel by done.
        destruct (selectedObject (store w)) as [sel0|] eqn:Hs;
          [|by destruct (flip <$> List.find _ _)].
        destruct (Hvis sel0 eq_refl) as (e & He & Hobj & Hv).
        destruct (decide (SceneObject.id e = id)) as [Hid|Hid].
        -- rewrite (find_by_id_unique id _ e Hnd He Hid) in Hsel. simpl in Hsel.
           by rewrite Hv, Hobj, Nat.eqb_refl in Hsel.
        -- assert (sel = sel0) as ->.
           { destruct (flip <$> List.find _ _) as [e1|]; [|congruence].
             destruct (_ && _); congruence. }
           exists e. split; [|done].
           apply list_elem_of_In, in_map_iff. exists e.
           split; [|by apply list_elem_of_In].
           destruct (String.eqb_spec (SceneObject.id e) id); [done|done].
    + (* updateObjectName *)
      split.
      * rewrite map_keeps_ids; [done|]. intros e.
        by destruct (String.eqb (SceneObject.id e) id).
      * intros sel Hsel. destruct (Hvis sel Hsel) as (e & He & Hobj & Hv).
        exists (if String.eqb (SceneObject.id e) id
                then SceneObject.mk (SceneObject.id e) (SceneObject.object e) n
                       (SceneObject.visible e)
                else e).
        split; [|by destruct (String.eqb (SceneObject.id e) id)].
        apply list_elem_of_In, in_map_iff. exists e.
        split; [done | by apply list_elem_of_In].
  - (* click on a rendered object *)
    simpl. unfold View.clickPrimitive.
    destruct (objects (store w) !! k) as [entry|] eqn:Hk; [|done].
    destruct (SceneObject.visible entry) eqn:Hv; [|done].
    simpl. split; [done|]. intros sel [= <-].
    exists entry. split; [|done]. apply list_elem_of_lookup. by exists k.
Qed.

(** X21. The selected object is never a hidden one: in every world
    reached from the store as created by store actions and clicks on
    rendered objects, where objects are added under new ids and selected
    only by clicking them, the ids of the list are distinct and the
    selected object, if any, is held by a visible entry of the list. *)
Theorem selection_stays_visible
    (cylinderBuffers : CylinderParameters → list Vector3 * list nat)
    (sphereBuffers : SphereParameters → list Vector3 * list nat)
    (w : World) :
  View.viewReachable cylinderBuffers sphereBuffers w →
  NoDup (View.ids w) ∧ View.selectionVisible w.
Proof.
  induction 1 as [objs0 geoms0|gesture w Hreach [Hnd Hvis] Hallowed].
  - split; [apply NoDup_nil_2 | by intros o [=]].
  - by apply gesture_keeps_selection_visible.
Qed.

Lemma selection_stays_visible_witness :
  View.selectionVisible
    (View.clickPrimitive 0
       (addObject "a" 1 "Bowtie" (mkWorld initialState (objs (Sample.scene None))
                                    (geoms (Sample.scene None))))).
Proof.
  apply (selection_stays_visible Sample.cylinderBuffers Sample.sphereBuffers).
  apply (View.viewReachable_step _ _ (View.ClickPrimitive 0)); [|exact I].
  apply (View.viewReachable_step _ _ (View.StoreAction (AddObject "a" 1 "Bowtie")));
    [apply View.viewReachable_initial|].
  simpl. apply not_elem_of_nil.
Defined.

(** ** The two edge derivations *)

Lemma existsb_key (k1 k2 : nat * nat → string) (s : nat * nat) (reps : list (nat * nat)) :
  (∀ s1 s2, k1 s1 = k1 s2 ↔ k2 s1 = k2 s2) →
  existsb (String.eqb (k1 s)) (map k1 reps) = existsb (String.eqb (k2 s)) (map k2 reps).
Proof.
  intros Hkernel. apply Bool.eq_iff_eq_true.
  rewrite !SceneFacts.existsb_eqb.
  change (map ?f reps) with (f <$> reps). rewrite !list_elem_of_fmap.
  split; intros (r & E & Hr); exists r; (split; [|done]); by apply Hkernel.
Qed.

(** Two key functions that identify the same sides keep the same sides,
    in the same order. *)
Lemma newSet_same_sides (k1 k2 : nat * nat → string) (sides seen : list (nat * nat)) :
  (∀ s1 s2, k1 s1 = k1 s2 ↔ k2 s1 = k2 s2) →
  ∃ reps, foldl Scene.setAdd (map k1 seen) (map k1 sides) = map k1 reps
          ∧ foldl Scene.setAdd (map k2 seen) (map k2 sides) = map k2 reps.
Proof.
  intros Hkernel. revert seen.
  induction sides as [|s sides IH]; intros seen; [by exists seen|].
  simpl. unfold Scene.setAdd at 2 4.
  rewrite (existsb_key k1 k2 s seen Hkernel).
  destruct (existsb _ (map k2 seen)); [apply IH|].
  destruct (IH (seen ++ [s])) as (reps & H1 & H2).
  exists reps. by rewrite !List.map_app in H1, H2.
Qed.

Lemma orderings_same_kernel (s1 s2 : nat * nat) :
  Scene.stringOrdered s1.1 s1.2 = Scene.stringOrdered s2.1 s2.2
  ↔ Scene.numericOrdered s1.1 s1.2 = Scene.numericOrdered s2.1 s2.2.
Proof.
  destruct s1 as [u1 v1], s2 as [u2 v2]. simpl.
  assert (Hs : Scene.stringOrdered u1 v1 = Scene.stringOrdered u2 v2
               ↔ (u1, v1) = (u2, v2) ∨ (u1, v1) = (v2, u2)).
  { split.
    - destruct (SceneFacts.stringOrdered_spec u1 v1) as (a1 & b1 & -> & _ & H1).
      destruct (SceneFacts.stringOrdered_spec u2 v2) as (a2 & b2 & -> & _ & H2).
      intros [= -> ->]. destruct H1 as [[= <- <-]|[= <- <-]], H2 as [[= <- <-]|[= <- <-]];
        auto.
    - intros [[= -> ->]|[= -> ->]]; [done|].
      apply SceneFacts.stringOrdered_sameEdge, SceneFacts.stringOrdered_swap. }
  assert (Hn : Scene.numericOrdered u1 v1 = Scene.numericOrdered u2 v2
               ↔ (u1, v1) = (u2, v2) ∨ (u1, v1) = (v2, u2)).
  { unfold Scene.numericOrdered. split.
    - intros [= Hmin Hmax].
      destruct (decide (u1 = u2)) as [->|Hne]; [left | right]; f_equal; lia.
    - intros [[= -> ->]|[= -> ->]]; [done|]. f_equal; f_equal; lia. }
  by rewrite Hs, Hn.
Qed.

(** X22. The two edge derivations of [EdgeLines] give the same handles up
    to the order of the two indices: for every index buffer they emit
    the same number of edges, and at every slot the edge of the sort-based
    derivation and the edge of the [Set]-based one have the same two
    endpoints. *)
Theorem edge_derivations_agree (index : Scene.Triangles) :
  length (Scene.uniqueEdges index) = length (Scene.edgeHandles index)
  ∧ ∀ i e1,
      Scene.uniqueEdges index !! i = Some e1 →
      ∃ e2, Scene.edgeHandles index !! i = Some e2 ∧ Scene.sameEdge e1 e2.
Proof.
  destruct (newSet_same_sides
              (fun side => Scene.join "," (Scene.sort [side.1; side.2]))
              (fun side => Scene.minMaxKey side.1 side.2)
              (index ≫= Scene.sidesOf) [])
    as (reps & H1 & H2).
  { intros s1 s2. split; intros H.
    - apply SceneFacts.numericOrdered_key, orderings_same_kernel.
      apply (f_equal (Scene.parseEdge ",")) in H.
      by rewrite !SceneFacts.parseEdge_sorted in H.
    - apply SceneFacts.stringOrdered_key, orderings_same_kernel.
      apply (f_equal (Scene.parseEdge "-")) in H.
      by rewrite !SceneFacts.parseEdge_minMaxKey in H. }
  assert (Hu : Scene.uniqueEdges index
               = map (fun side => Scene.stringOrdered side.1 side.2) reps).
  { rewrite SceneFacts.uniqueEdges_derived. unfold Scene.newSet.
    replace (foldl Scene.setAdd [] _)
      with (map (fun side => Scene.join "," (Scene.sort [side.1; side.2])) reps)
      by (symmetry; exact H1).
    rewrite List.map_map. apply List.map_ext.
    intros side. apply SceneFacts.parseEdge_sorted. }
  assert (He : Scene.edgeHandles index
               = map (fun side => Scene.numericOrdered side.1 side.2) reps).
  { rewrite SceneFacts.edgeHandles_derived. unfold Scene.newSet.
    replace (foldl Scene.setAdd [] _)
      with (map (fun side => Scene.minMaxKey side.1 side.2) reps)
      by (symmetry; exact H2).
    rewrite List.map_map. apply List.map_ext.
    intros side. apply SceneFacts.parseEdge_minMaxKey. }
  rewrite Hu, He. split; [by rewrite !length_map|].
  intros i e1 Hi.
  change (map ?f reps) with (f <$> reps) in *.
  rewrite list_lookup_fmap in Hi. rewrite list_lookup_fmap.
  destruct (reps !! i) as [[u v]|]; [|done]. simpl in *. injection Hi as <-.
  eexists. split; [done|].
  destruct (SceneFacts.stringOrdered_spec u v) as (a & b & -> & _ & Hab).
  unfold Scene.sameEdge, Scene.numericOrdered. simpl.
  destruct Hab as [[= -> ->]|[= -> ->]];
    destruct (Nat.le_ge_cases u v);
    rewrite ?Nat.min_l, ?Nat.max_r, ?Nat.min_r, ?Nat.max_l by done; auto.
Qed.

(** X23. The keys of the edge sets decode to the edge they encode: for
    all vertex indices, splitting the joined key of a pair and converting
    the pieces back gives the pair, in both derivations; an index printed
    and converted back is the index. *)
Theorem edge_key_round_trip (a b : nat) :
  Scene.Number (Scene.jsString a) = Some a
  ∧ Scene.parseEdge "," (Scene.join "," [a; b]) = (Some a, Some b)
  ∧ Scene.parseEdge "-" (Scene.minMaxKey a b)
    = (Some (Nat.min a b), Some (Nat.max a b))
  ∧ Scene.split "," (Scene.join "," [a; b]) = [Scene.jsString a; Scene.jsString b].
Proof.
  split_and!.
  - apply SceneFacts.Number_jsString.
  - apply SceneFacts.parseEdge_key. by left.
  - apply SceneFacts.parseEdge_minMaxKey.
  - apply SceneFacts.split_two; apply SceneFacts.jsString_avoids; by left.
Qed.

(** ** Sessions across a resolution change, and the range of the scan *)

Lemma chooseVertexCount_draggedVertex
    (cylinderBuffers : CylinderParameters → list Vector3 * list nat)
    (sphereBuffers : SphereParameters → list Vector3 * list nat)
    (value : Q) (w : World) :
  draggedVertex (store (View.chooseVertexCount cylinderBuffers sphereBuffers value w))
  = draggedVertex (store w).
Proof.
  unfold View.chooseVertexCount.
  destruct (View.countSelectorShown w) as [[current options [|]]|]; simpl.
  - apply updateCylinderVertices_draggedVertex.
  - apply updateSphereVertices_draggedVertex.
  - done.
Qed.

(** X24. Picking a vertex count in the middle of a vertex drag does not
    end the drag: the session stays as it is while the selected mesh gets
    a geometry that did not exist before, and the next [updateVertexDrag]
    stores its target at every session index the new buffer has, where it
    reads back rounded to single precision. *)
Theorem resolution_change_keeps_vertex_session
    (cylinderBuffers : CylinderParameters → list Vector3 * list nat)
    (sphereBuffers : SphereParameters → list Vector3 * list nat)
    (value : Q) (t : Vector3) (w : World) (selector : View.CountSelector)
    (d : DraggedVertex.t) :
  View.countSelectorShown w = Some selector →
  draggedVertex (store w) = Some d →
  let w' := View.chooseVertexCount cylinderBuffers sphereBuffers value w in
  draggedVertex (store w') = Some d
  ∧ ∃ g' geometry' moved,
      selectedMesh w' = Some (g', geometry')
      ∧ (g' ∉ dom (geoms w))
      ∧ geoms (updateVertexDrag t w') !! g' = Some moved
      ∧ ∀ i, i ∈ DraggedVertex.indices d → i < count (position geometry') →
             array (position moved) !! i = Some (float32 t).
Proof.
  intros Hshown Hd. simpl.
  pose proof (chooseVertexCount_draggedVertex cylinderBuffers sphereBuffers value w)
    as Hkeep.
  rewrite Hd in Hkeep. split; [done|].
  assert (∃ g' geometry',
            selectedMesh (View.chooseVertexCount cylinderBuffers sphereBuffers value w)
            = Some (g', geometry') ∧ g' ∉ dom (geoms w))
    as (g' & geometry' & Hm' & Hfresh).
  { unfold View.chooseVertexCount. rewrite Hshown.
    unfold View.countSelectorShown, View.vertexCountSelector in Hshown.
    destruct (editMode (store w)) as [[| | |]|]; try done.
    destruct (selectedMesh w) as [[g old]|] eqn:Hm; [|done].
    destruct (class old) as [| |p|p|p] eqn:Hc; simpl in Hshown; try done;
      injection Hshown as <-; simpl.
    - destruct (updateCylinderVertices_on cylinderBuffers value w g old
                  (mkCylinderParameters (radiusTop p) (radiusBottom p) (height p) value
                     (heightSegments p) (openEnded p) (thetaStart p) (thetaLength p))
                  Hm) as (Hm' & _); [by rewrite Hc|].
      eexists _, _. split; [exact Hm' | apply is_fresh].
    - destruct (updateSphereVertices_on sphereBuffers value w g old
                  (mkSphereParameters (radius p) value (value / 2)%Q (phiStart p)
                     (phiLength p) (sphere_thetaStart p) (sphere_thetaLength p))
                  Hm) as (Hm' & _); [by rewrite Hc|].
      eexists _, _. split; [exact Hm' | apply is_fresh]. }
  destruct (updateVertexDrag_writes t _ d g' geometry' Hkeep Hm')
    as (moved & Hg & _ & Hin & _).
  exists g', geometry', moved. split_and!; try done.
Qed.

Lemma resolution_change_keeps_vertex_session_witness :
  draggedVertex
    (store (View.chooseVertexCount Sample.cylinderBuffers Sample.sphereBuffers 16
              (startVertexDrag 0 (Sample.v 1 1 0) (Sample.scene (Some 4)))))
  = Some (DraggedVertex.mk [0] (Sample.v 1 1 0) (Sample.v 1 1 0)).
Proof.
  apply (resolution_change_keeps_vertex_session Sample.cylinderBuffers
           Sample.sphereBuffers 16 (Sample.v 0 0 0)
           (startVertexDrag 0 (Sample.v 1 1 0) (Sample.scene (Some 4)))
           (View.mkCountSelector 32 [32; 16; 8]%Q View.CylinderCount)
           (DraggedVertex.mk [0] (Sample.v 1 1 0) (Sample.v 1 1 0))
           eq_refl eq_refl).
Defined.

(** X25. On a buffer whose vertex count is a multiple of three, every
    participant pair of an edge session opened by [startEdgeDrag] joins
    two different vertices of one vertex triple, both inside the buffer;
    the scan never pairs vertices of different triples and never reads
    past the end. *)
Theorem edge_participants_in_range
    (vis : list nat) (p0 p1 : Vector3) (rest : list Vector3) (edgeIndex : nat)
    (w : World) (g : nat) (geometry : BufferGeometry) :
  selectedMesh w = Some (g, geometry) →
  count (position geometry) mod 3 = 0 →
  ∃ w' d,
    startEdgeDrag vis (p0 :: p1 :: rest) edgeIndex w = Returned w'
    ∧ draggedEdge (store w') = Some d
    ∧ ∀ v1 v2, (v1, v2) ∈ DraggedEdge.indices d →
               v1 < count (position geometry)
               ∧ v2 < count (position geometry)
               ∧ v1 ≠ v2
               ∧ v1 / 3 = v2 / 3.
Proof.
  intros Hm Hmod. eexists _, _.
  split; [apply (startEdgeDrag_opens _ _ _ _ _ _ _ _ Hm)|].
  split; [reflexivity|]. cbn [DraggedEdge.indices].
  intros v1 v2 Hin.
  apply list_elem_of_In, filter_In in Hin as [Hside _].
  apply list_elem_of_In, scannedSides_spec in Hside
    as (k & j & Hk & Hj & -> & ->).
  pose proof (Nat.Div0.div_mod (count (position geometry)) 3) as Hdiv.
  rewrite Hmod in Hdiv.
  assert (Hj' : (j + 1) mod 3 < 3) by (apply Nat.mod_upper_bound; lia).
  assert (Hne : (j + 1) mod 3 ≠ j)
    by (destruct j as [|[|[|j]]]; simpl; lia).
  split_and!; try lia.
  rewrite !(Nat.mul_comm 3 k), !Nat.div_add_l, !Nat.div_small by lia. lia.
Qed.

Lemma edge_participants_in_range_witness :
  ∃ w' d,
    startEdgeDrag [0; 1] [Sample.v 0 0 0; Sample.v 1 0 0] 0 (Sample.scene (Some 6))
    = Returned w'
    ∧ draggedEdge (store w') = Some d
    ∧ ∀ v1 v2, (v1, v2) ∈ DraggedEdge.indices d → v1 < 6 ∧ v2 < 6 ∧ v1 ≠ v2 ∧ v1 / 3 = v2 / 3.
Proof.
  apply (edge_participants_in_range [0; 1] (Sample.v 0 0 0) (Sample.v 1 0 0) [] 0
           (Sample.scene (Some 6)) 16 Sample.strip eq_refl).
  reflexivity.
Defined.

(** ** Ids the list does not have *)

Lemma map_by_id_absent (id : string) (f : SceneObject.t → SceneObject.t)
    (l : list SceneObject.t) :
  (∀ e, e ∈ l → SceneObject.id e ≠ id) →
  map (fun obj => if String.eqb (SceneObject.id obj) id then f obj else obj) l = l.
Proof.
  induction l as [|e l IH]; intros H; [done|]. simpl.
  destruct (String.eqb_spec (SceneObject.id e) id) as [E|_].
  - destruct (H e); [by left|done].
  - f_equal. apply IH. intros e' He'. apply H. by right.
Qed.

(** X28. An id the object list does not have: [removeObject],
    [toggleVisibility] and [updateObjectName] leave the whole world as it
    is; in particular the selection is not cleared ([find] gives
    [undefined], which is not the selected object). *)
Theorem absent_id_changes_nothing (id name : string) (w : World) :
  id ∉ View.ids w →
  removeObject id w = w
  ∧ toggleVisibility id w = w
  ∧ updateObjectName id name w = w.
Proof.
  intros Hfresh. pose proof (proj1 (not_in_ids id w) Hfresh) as Habsent.
  destruct w as [[os sel tm em se dv de] ob ge]. simpl in Habsent.
  unfold removeObject, toggleVisibility, updateObjectName, withStore,
    setObjectsAndSelected. simpl.
  rewrite filter_by_id, filter_by_id_absent, !map_by_id_absent by done.
  rewrite (find_by_id_absent id os) by done.
  by destruct sel.
Qed.

Lemma absent_id_changes_nothing_witness :
  removeObject "z" (Sample.scene (Some 1)) = Sample.scene (Some 1)
  ∧ toggleVisibility "z" (Sample.scene (Some 1)) = Sample.scene (Some 1)
  ∧ updateObjectName "z" "Renamed" (Sample.scene (Some 1)) = Sample.scene (Some 1).
Proof.
  apply (absent_id_changes_nothing "z" "Renamed" (Sample.scene (Some 1))).
  unfold View.ids. simpl. rewrite !not_elem_of_cons. split_and!; try done.
  apply not_elem_of_nil.
Defined.
